(** * AlertBot: a shallow embedding of the job-alert bot and its properties

    The bot watches messaging channels for UI/UX job postings, extracts a
    contact handle, generates a reply and sends it with a resume, subject to
    a per-handle cooldown and a bounded set of already answered message ids.

    The embedding follows the repository file by file:
    - [Py]: the Python values the code manipulates (text as code points,
      [str.strip], [str.split], [bytes.fromhex], [re.search], exceptions)
      and the monad of a method: state, exceptions and a trace;
    - [ConfigValidator]: [config_validator.py];
    - [SessionHandler]: [session_handler.py];
    - [MessageProcessor]: [message_processor.py], over the processor
      object, with the outcome of every call to an external service
      supplied by a scenario;
    - [Runtime]: a concrete interpreter (ASCII tables, two layouts of a
      set) and inputs to run the code on;
    - [Main]: [main.py], the bot object that drives the three components
      and the messaging client, with the answers of the outside world
      supplied by a world.
    Then come the notions the statements use, the properties of each file,
    and the code run on concrete inputs. *)

From Stdlib Require Import ZArith NArith QArith Lqa String Ascii List Lia Bool.
From stdpp Require Import gmap strings list.

Local Open Scope N_scope.

(* ================================================================== *)
(** * Python values *)
(* ================================================================== *)

Module Py.

(** A Python [str] is a sequence of Unicode code points; [len] counts code
    points, so text is a list of code points, not of bytes. *)
Abbreviation char := N.
Abbreviation str := (list N).

(** ** Literals

    String literals of the source are written as they are and decoded from
    the UTF-8 bytes of the file. *)

Definition byte_codes (s : string) : list N :=
  map N_of_ascii (list_ascii_of_string s).

Definition cont (b : N) : N := N.land b 63.

Fixpoint utf8_decode (bs : list N) : str :=
  match bs with
  | [] => []
  | b :: tl =>
    if b <? 128 then b :: utf8_decode tl
    else if b <? 224 then
      match tl with
      | b1 :: tl1 =>
        N.lor (N.shiftl (N.land b 31) 6) (cont b1) :: utf8_decode tl1
      | [] => []
      end
    else if b <? 240 then
      match tl with
      | b1 :: b2 :: tl2 =>
        N.lor (N.shiftl (N.land b 15) 12)
              (N.lor (N.shiftl (cont b1) 6) (cont b2)) :: utf8_decode tl2
      | _ => []
      end
    else
      match tl with
      | b1 :: b2 :: b3 :: tl3 =>
        N.lor (N.shiftl (N.land b 7) 18)
              (N.lor (N.shiftl (cont b1) 12)
                     (N.lor (N.shiftl (cont b2) 6) (cont b3))) :: utf8_decode tl3
      | _ => []
      end
  end.

Definition utf8 (s : string) : str := utf8_decode (byte_codes s).

(** One-character literals. *)
Definition chr (a : ascii) : char := N_of_ascii a.

(** ** Truthiness, equality, length *)

Definition truthy (s : str) : bool :=
  match s with [] => false | _ :: _ => true end.

Definition str_eqb (a b : str) : bool := bool_decide (a = b).

Definition in_range (lo hi : ascii) (c : char) : bool :=
  (chr lo <=? c) && (c <=? chr hi).

(** ** [str.strip()]

    Without an argument [strip] removes the characters for which
    [str.isspace] holds: the ASCII ones and the Unicode white space. *)
Definition isspace (c : char) : bool :=
  ((9 <=? c) && (c <=? 13)) || ((28 <=? c) && (c <=? 32))
  || (c =? 133) || (c =? 160) || (c =? 5760)
  || ((8192 <=? c) && (c <=? 8202))
  || (c =? 8232) || (c =? 8233) || (c =? 8239) || (c =? 8287)
  || (c =? 12288).

Fixpoint lstrip (s : str) : str :=
  match s with
  | [] => []
  | c :: tl => if isspace c then lstrip tl else s
  end.

Definition rstrip (s : str) : str := rev (lstrip (rev s)).

Definition strip (s : str) : str := rstrip (lstrip s).

(** ** [str.split(sep)] for a one-character separator: every occurrence
    splits, empty pieces are kept, and the result is never empty. *)
Fixpoint split (sep : char) (s : str) : list str :=
  match s with
  | [] => [[]]
  | c :: tl =>
    if c =? sep then [] :: split sep tl
    else match split sep tl with
         | p :: ps => (c :: p) :: ps
         | [] => [[c]]
         end
  end.

(** ** [needle in hay] *)
Fixpoint startswith (s p : str) : bool :=
  match p, s with
  | [], _ => true
  | _ :: _, [] => false
  | a :: p', b :: s' => (a =? b) && startswith s' p'
  end.

Fixpoint contains (hay needle : str) : bool :=
  startswith hay needle ||
  match hay with
  | [] => false
  | _ :: tl => contains tl needle
  end.

(** [s[-n:]] on a list: the last [n] elements, the whole list when it is
    shorter. *)
Definition last_n {A} (n : nat) (l : list A) : list A :=
  drop (length l - n) l.

(** ** [bytes.fromhex]

    ASCII white space is skipped between bytes, never inside one; every
    byte is two hexadecimal digits; anything else is a [ValueError]
    ([None] here). *)
Definition hex_space (c : char) : bool :=
  ((9 <=? c) && (c <=? 13)) || (c =? 32).

Definition hex_digit (c : char) : option N :=
  if in_range "0" "9" c then Some (c - chr "0")
  else if in_range "a" "f" c then Some (c - chr "a" + 10)
  else if in_range "A" "F" c then Some (c - chr "A" + 10)
  else None.

Fixpoint fromhex (s : str) : option (list N) :=
  match s with
  | [] => Some []
  | c :: tl =>
    if hex_space c then fromhex tl
    else match hex_digit c, tl with
         | Some hi, c' :: tl' =>
           match hex_digit c' with
           | Some lo =>
             match fromhex tl' with
             | Some bs => Some (hi * 16 + lo :: bs)
             | None => None
             end
           | None => None
           end
         | _, _ => None
         end
  end.

(** ** What the interpreter's Unicode tables decide

    Case mapping, the classes [\w] and [\d] of [re] on text patterns and
    the digits [int()] accepts come from the Unicode character database of
    the interpreter. The code is embedded over any such tables. *)
Class Unicode := {
  lower : str -> str;            (* str.lower() *)
  is_word : char -> bool;        (* \w, which decides \b *)
  is_digit : char -> bool;       (* \d *)
  parse_int : str -> option Z    (* int(s); None is ValueError *)
}.

(** ** Exceptions

    The subclasses of [Exception] the code tells apart. [FloodWaitError]
    is the transport's rate-limit error and carries the wait in seconds.
    What derives from [BaseException] only (interrupts, task cancellation)
    is caught by no handler of the code and is not an outcome here. *)
Inductive exn :=
  | FloodWaitError (seconds : Z)
  | ValueError (msg : string)
  | UserPrivacyRestrictedError
  | OtherException (name : string).

Inductive result (A : Type) :=
  | Return (a : A)
  | Raise (e : exn).
Arguments Return {A} a.
Arguments Raise {A} e.

Inductive level := DEBUG | INFO | WARNING | ERROR.

(** ** [re]: a backtracking matcher

    [re.search] tries the start positions from left to right and, at each,
    explores the alternatives in priority order: the left branch of [|]
    first, one more iteration of a greedy repetition before stopping. The
    first complete match wins. *)
Module Re.

Inductive regex :=
  | Eps
  | Chr (p : char -> bool)
  | Cat (r1 r2 : regex)
  | Alt (r1 r2 : regex)
  | Star (r : regex)
  | Group (i : nat) (r : regex)
  | WordB.

Definition Plus (r : regex) : regex := Cat r (Star r).
Definition Opt (r : regex) : regex := Alt r Eps.
Fixpoint Times (n : nat) (r : regex) : regex :=
  match n with O => Eps | S n' => Cat r (Times n' r) end.
Definition AtLeast (n : nat) (r : regex) : regex := Cat (Times n r) (Star r).
Definition Lit (c : ascii) : regex := Chr (N.eqb (chr c)).
Fixpoint Seq (rs : list regex) : regex :=
  match rs with
  | [] => Eps
  | [r] => r
  | r :: rs' => Cat r (Seq rs')
  end.

(** The matcher's position: the character before it, what is left of the
    text, the index, and the groups closed so far (latest first). *)
Record cursor := {
  prev : option char;
  rest : str;
  pos : nat;
  caps : list (nat * (nat * nat))
}.

Definition advance (c : char) (tl : str) (cu : cursor) : cursor :=
  {| prev := Some c; rest := tl; pos := S (pos cu); caps := caps cu |}.

Definition close_group (i : nat) (from : nat) (cu : cursor) : cursor :=
  {| prev := prev cu; rest := rest cu; pos := pos cu;
     caps := (i, (from, pos cu)) :: caps cu |}.

Definition orelse {A} (a b : option A) : option A :=
  match a with Some x => Some x | None => b end.

(** Greedy repetition of [body], at most [fuel] times; every iteration
    must consume something. *)
Fixpoint star_loop (body : cursor -> (cursor -> option cursor) -> option cursor)
    (fuel : nat) (cu : cursor) (k : cursor -> option cursor) : option cursor :=
  match fuel with
  | O => k cu
  | S fuel' =>
    orelse
      (body cu (fun cu' =>
         if (pos cu <? pos cu')%nat then star_loop body fuel' cu' k else None))
      (k cu)
  end.

Section Matcher.
Context `{Unicode}.

Definition word_opt (c : option char) : bool :=
  match c with Some x => is_word x | None => false end.

Definition at_boundary (cu : cursor) : bool :=
  xorb (word_opt (prev cu)) (word_opt (head (rest cu))).

Fixpoint rmatch (r : regex) (cu : cursor) (k : cursor -> option cursor)
    : option cursor :=
  match r with
  | Eps => k cu
  | Chr p =>
    match rest cu with
    | c :: tl => if p c then k (advance c tl cu) else None
    | [] => None
    end
  | Cat r1 r2 => rmatch r1 cu (fun cu' => rmatch r2 cu' k)
  | Alt r1 r2 => orelse (rmatch r1 cu k) (rmatch r2 cu k)
  | Star r1 => star_loop (rmatch r1) (length (rest cu)) cu k
  | Group i r1 => rmatch r1 cu (fun cu' => k (close_group i (pos cu) cu'))
  | WordB => if at_boundary cu then k cu else None
  end.

(** A match object: the span of the whole match and of the groups. *)
Record match_obj := {
  m_text : str;
  m_start : nat;
  m_end : nat;
  m_caps : list (nat * (nat * nat))
}.

Fixpoint search_from (r : regex) (text : str) (p : option char) (s : str)
    (i : nat) : option match_obj :=
  match rmatch r {| prev := p; rest := s; pos := i; caps := [] |} Some with
  | Some cu =>
    Some {| m_text := text; m_start := i; m_end := pos cu; m_caps := caps cu |}
  | None =>
    match s with
    | [] => None
    | c :: tl => search_from r text (Some c) tl (S i)
    end
  end.

Definition search (r : regex) (text : str) : option match_obj :=
  search_from r text None text 0.

End Matcher.

Definition slice (text : str) (a b : nat) : str := take (b - a) (drop a text).

Fixpoint assoc (i : nat) (l : list (nat * (nat * nat))) : option (nat * nat) :=
  match l with
  | [] => None
  | (j, sp) :: tl => if (i =? j)%nat then Some sp else assoc i tl
  end.

(** [m.group(i)]; a group that took no part in the match gives [None]. *)
Definition group (i : nat) (m : match_obj) : option str :=
  match i with
  | O => Some (slice (m_text m) (m_start m) (m_end m))
  | _ => match assoc i (m_caps m) with
         | Some (a, b) => Some (slice (m_text m) a b)
         | None => None
         end
  end.

End Re.


(** ** Effects

    A method of the bot is a computation over the object it mutates: it
    ends with a value or a raised exception, leaves a new state, and emits
    the log records and service calls it made, in order. What was done
    before an exception is raised stays done. *)
Section Monad.
Context {St Ev : Type}.

Definition M (A : Type) : Type := St -> result A * St * list Ev.

Definition ret {A} (a : A) : M A := fun s => (Return a, s, []).

Definition bind {A B} (m : M A) (f : A -> M B) : M B := fun s =>
  match m s with
  | (Return a, s1, t1) =>
    match f a s1 with (r, s2, t2) => (r, s2, t1 ++ t2) end
  | (Raise e, s1, t1) => (Raise e, s1, t1)
  end.

Definition raise {A} (e : exn) : M A := fun s => (Raise e, s, []).

Definition emit (ev : Ev) : M unit := fun s => (Return tt, s, [ev]).

Definition get : M St := fun s => (Return s, s, []).

Definition modify (f : St -> St) : M unit := fun s => (Return tt, f s, []).

(** [try: body except ...]: [handler e] is the clause that catches [e],
    [None] when no clause does. *)
Definition try_except {A} (body : M A) (handler : exn -> option (M A)) : M A :=
  fun s =>
  match body s with
  | (Return a, s1, t1) => (Return a, s1, t1)
  | (Raise e, s1, t1) =>
    match handler e with
    | Some h => match h s1 with (r, s2, t2) => (r, s2, t1 ++ t2) end
    | None => (Raise e, s1, t1)
    end
  end.

End Monad.

Declare Scope py_scope.
Delimit Scope py_scope with py.
Notation "'let!' x ':=' m 'in' k" := (bind m (fun x => k))
  (at level 10, x name, m at level 100, k at level 200) : py_scope.
Notation "'do!' m 'in' k" := (bind m (fun _ => k))
  (at level 10, m at level 100, k at level 200) : py_scope.

End Py.

Import Py.
Local Open Scope py_scope.
Local Open Scope string_scope.

(* ================================================================== *)
(** * config_validator.py *)
(* ================================================================== *)

Module ConfigValidator.

(** The dictionary [validate_config] builds has a fixed set of keys, each
    of one type; the optional ones may hold [None]. An optional key whose
    conversion failed is not set at all, which every reader (they all use
    [config.get]) sees as [None] too. *)
Record config := {
  api_id : Z;
  api_hash : str;
  gemini_api_key : str;
  channels : list str;
  portfolio_url : str;
  cv_url : option str;
  proxy_type : option str;
  proxy_server : option str;
  proxy_port : option Z;
  proxy_secret : option str;
  resume_filename : str
}.

Definition set_proxy_type (v : option str) (c : config) : config :=
  {| api_id := api_id c; api_hash := api_hash c;
     gemini_api_key := gemini_api_key c; channels := channels c;
     portfolio_url := portfolio_url c; cv_url := cv_url c;
     proxy_type := v; proxy_server := proxy_server c;
     proxy_port := proxy_port c; proxy_secret := proxy_secret c;
     resume_filename := resume_filename c |}.

Definition set_proxy_port (v : option Z) (c : config) : config :=
  {| api_id := api_id c; api_hash := api_hash c;
     gemini_api_key := gemini_api_key c; channels := channels c;
     portfolio_url := portfolio_url c; cv_url := cv_url c;
     proxy_type := proxy_type c; proxy_server := proxy_server c;
     proxy_port := v; proxy_secret := proxy_secret c;
     resume_filename := resume_filename c |}.

Inductive log_msg :=
  | InvalidOptionalType (var_name type_name : string)
  | UnsupportedProxyType (t : str)
  | MTProtoRequiresSecret
  | InvalidProxyPort (p : Z)
  | ProxyServerPortMissing
  | InvalidURLFormat (url_key : string) (url : str)
  | ValidationCompleted.

Definition log : Type := level * log_msg.

(** The process environment: [os.getenv name]. *)
Abbreviation environ := (gmap string str).

(** A value is truthy when it is set and not empty. *)
Definition truthy_opt (v : option str) : bool :=
  match v with Some s => truthy s | None => false end.

Definition default_resume_filename : str := utf8 "javad-rostami resume.pdf".

Section WithUnicode.
Context `{Unicode}.

(** One round of the loop over [REQUIRED_VARS] for a [str] variable. *)
Definition required_str (env : environ) (var_name : string) : M (St:=unit) (Ev:=log) str :=
  match env !! var_name with
  | Some (c :: v) => ret (c :: v)
  | _ => raise (ValueError
           ("Required environment variable " ++ var_name ++ " is missing"))
  end.

(** The same for an [int] variable: a failed conversion is raised again
    as the validator's own [ValueError]. *)
Definition required_int (env : environ) (var_name : string) : M (St:=unit) (Ev:=log) Z :=
  match env !! var_name with
  | Some (c :: v) =>
    match parse_int (c :: v) with
    | Some n => ret n
    | None => raise (ValueError
                ("Invalid type for " ++ var_name ++ ": expected int"))
    end
  | _ => raise (ValueError
           ("Required environment variable " ++ var_name ++ " is missing"))
  end.

(** One round of the loop over [OPTIONAL_VARS]. *)
Definition optional_str (env : environ) (var_name : string) : M (St:=unit) (Ev:=log) (option str) :=
  match env !! var_name with
  | Some (c :: v) => ret (Some (c :: v))
  | _ => ret None
  end.

Definition optional_int (env : environ) (var_name : string) : M (St:=unit) (Ev:=log) (option Z) :=
  match env !! var_name with
  | Some (c :: v) =>
    match parse_int (c :: v) with
    | Some n => ret (Some n)
    | None =>
      do! emit (WARNING, InvalidOptionalType var_name "int") in ret None
    end
  | _ => ret None
  end.

(** [[ch.strip() for ch in channels if ch.strip()]] *)
Definition parse_channels (s : str) : list str :=
  omap (fun ch => if truthy (strip ch) then Some (strip ch) else None)
       (split (chr ",") s).

Definition supported_proxy_type (t : str) : bool :=
  str_eqb (lower t) (utf8 "socks5") || str_eqb (lower t) (utf8 "http")
  || str_eqb (lower t) (utf8 "mtproto").

(** [_validate_proxy_config]: the three settings are read once, before
    any of them is cleared. *)
Definition _validate_proxy_config (c : config) : M (St:=unit) (Ev:=log) config :=
  match proxy_type c with
  | Some (t0 :: t') =>
    let t := t0 :: t' in
    let! c1 :=
      if supported_proxy_type t then ret c
      else do! emit (WARNING, UnsupportedProxyType t) in
           ret (set_proxy_type None c) in
    let! c2 :=
      if str_eqb (lower t) (utf8 "mtproto") && negb (truthy_opt (proxy_secret c1))
      then do! emit (WARNING, MTProtoRequiresSecret) in
           ret (set_proxy_type None c1)
      else ret c1 in
    match proxy_server c, proxy_port c with
    | Some (_ :: _), Some p =>
      if (p =? 0)%Z then
        do! emit (WARNING, ProxyServerPortMissing) in ret c2
      else if ((p <? 1) || (65535 <? p))%Z then
        do! emit (WARNING, InvalidProxyPort p) in
        ret (set_proxy_port None c2)
      else ret c2
    | _, _ => do! emit (WARNING, ProxyServerPortMissing) in ret c2
    end
  | _ => ret c
  end.

Definition is_http_url (url : str) : bool :=
  startswith url (utf8 "http://") || startswith url (utf8 "https://").

Definition check_url (url_key : string) (url : option str) : M (St:=unit) (Ev:=log) unit :=
  match url with
  | Some (c :: u) =>
    if is_http_url (c :: u) then ret tt
    else emit (WARNING, InvalidURLFormat url_key (c :: u))
  | _ => ret tt
  end.

Definition _validate_urls (c : config) : M (St:=unit) (Ev:=log) unit :=
  do! check_url "portfolio_url" (Some (portfolio_url c)) in
  check_url "cv_url" (cv_url c).

Definition validate_config (env : environ) : M (St:=unit) (Ev:=log) config :=
  (* the required variables, in the order of REQUIRED_VARS *)
  let! id := required_int env "API_ID" in
  let! hash := required_str env "API_HASH" in
  let! key := required_str env "GEMINI_API_KEY" in
  let! chans := required_str env "CHANNELS" in
  let! portfolio := required_str env "PORTFOLIO_URL" in
  (* the channel list *)
  let chans' := parse_channels chans in
  match chans' with
  | [] => raise (ValueError
            "No valid channels found in CHANNELS environment variable")
  | _ :: _ =>
    (* the optional variables, in the order of OPTIONAL_VARS *)
    let! cv := optional_str env "CV_URL" in
    let! ptype := optional_str env "PROXY_TYPE" in
    let! pserver := optional_str env "PROXY_SERVER" in
    let! pport := optional_int env "PROXY_PORT" in
    let! psecret := optional_str env "PROXY_SECRET" in
    let! resume := optional_str env "RESUME_FILENAME" in
    let c := {| api_id := id; api_hash := hash; gemini_api_key := key;
                channels := chans'; portfolio_url := portfolio;
                cv_url := cv; proxy_type := ptype; proxy_server := pserver;
                proxy_port := pport; proxy_secret := psecret;
                resume_filename :=
                  match resume with
                  | Some r => r
                  | None => default_resume_filename
                  end |} in
    let! c' := _validate_proxy_config c in
    do! _validate_urls c' in
    do! emit (INFO, ValidationCompleted) in
    ret c'
  end.

End WithUnicode.

(** ** [print_config_summary]

    Its records are kept apart from those of the validation. *)
Inductive summary_msg :=
  | SummaryHeader
  | SummaryApiId (id : Z)
  | SummaryChannels (count : nat)
  | SummaryProxy (enabled : bool)
  | SummaryPortfolio (is_set : bool)
  | SummaryResume (filename : str)
  | SummaryFooter.

Definition print_config_summary (c : config)
    : M (St:=unit) (Ev:=level * summary_msg) unit :=
  do! emit (INFO, SummaryHeader) in
  do! emit (INFO, SummaryApiId (api_id c)) in
  do! emit (INFO, SummaryChannels (length (channels c))) in
  do! emit (INFO, SummaryProxy (truthy_opt (proxy_type c))) in
  do! emit (INFO, SummaryPortfolio (truthy (portfolio_url c))) in
  do! emit (INFO, SummaryResume (resume_filename c)) in
  emit (INFO, SummaryFooter).

End ConfigValidator.

(* ================================================================== *)
(** * session_handler.py *)
(* ================================================================== *)

Module SessionHandler.
Import ConfigValidator.

(** The tuple handed to the client library: six fields for SOCKS5 and
    HTTP, three (server, port, secret bytes) for MTProto. *)
Inductive proxy_tuple :=
  | Proxy6 (kind : str) (server : str) (port : Z) (rdns : bool)
           (username password : option str)
  | Proxy3 (server : str) (port : Z) (secret : list N).

Inductive log_msg :=
  | CreatingWithProxy (p : proxy_tuple)
  | CreatingWithoutProxy
  | MTProtoRequiresProxySecret
  | InvalidProxySecretFormat
  | UnsupportedProxy (t : str)
  | ErrorConfiguringProxy (e : exn).

Definition log : Type := level * log_msg.

(** The client object as constructed: [proxy = None] when the keyword is
    not passed. *)
Record client := {
  session : str;
  client_api_id : Z;
  client_api_hash : str;
  proxy : option proxy_tuple
}.

Definition session_name : str := utf8 "telegram_ui_bot_session".

(** The constructor [TelegramClient(...)] is code of the client library:
    it can refuse its arguments (an identifier or a hash that is 0 or
    empty) or fail on the session file. As for every call to a service,
    the way it ends is given from outside: [None] when it returns the
    object, the exception otherwise. *)
Definition TelegramClient (name : str) (id : Z) (hash : str)
    (p : option proxy_tuple) (construct : option exn)
    : M (St:=unit) (Ev:=log) client :=
  match construct with
  | None => ret {| session := name; client_api_id := id;
                   client_api_hash := hash; proxy := p |}
  | Some e => raise e
  end.

Section WithUnicode.
Context `{Unicode}.

(** [all([proxy_type, proxy_server, proxy_port])] *)
Definition all_set (c : config) : bool :=
  truthy_opt (proxy_type c) && truthy_opt (proxy_server c)
  && match proxy_port c with Some p => negb (p =? 0)%Z | None => false end.

Definition _get_proxy_config (c : config) : M (St:=unit) (Ev:=log) (option proxy_tuple) :=
  match proxy_type c, proxy_server c, proxy_port c with
  | Some t, Some server, Some port =>
    if all_set c then
      let t := lower t in
      try_except
        (if str_eqb t (utf8 "socks5") then
           ret (Some (Proxy6 (utf8 "socks5") server port true None None))
         else if str_eqb t (utf8 "http") then
           ret (Some (Proxy6 (utf8 "http") server port true None None))
         else if str_eqb t (utf8 "mtproto") then
           if truthy_opt (proxy_secret c) then
             try_except
               (match proxy_secret c with
                | Some secret =>
                  match fromhex secret with
                  | Some secret_bytes => ret (Some (Proxy3 server port secret_bytes))
                  | None => raise (ValueError "non-hexadecimal number found")
                  end
                | None => ret None
                end)
               (fun e => match e with
                         | ValueError _ =>
                           Some (do! emit (ERROR, InvalidProxySecretFormat) in
                                 ret None)
                         | _ => None
                         end)
           else
             do! emit (ERROR, MTProtoRequiresProxySecret) in ret None
         else
           do! emit (WARNING, UnsupportedProxy t) in ret None)
        (fun e => Some (do! emit (ERROR, ErrorConfiguringProxy e) in ret None))
    else ret None
  | _, _, _ => ret None
  end.

(** [create_client]. [construct] is how the constructor ends. *)
Definition create_client (c : config) (construct : option exn)
    : M (St:=unit) (Ev:=log) client :=
  let! proxy_config := _get_proxy_config c in
  match proxy_config with
  | Some p =>
    do! emit (INFO, CreatingWithProxy p) in
    TelegramClient session_name (api_id c) (api_hash c) (Some p) construct
  | None =>
    do! emit (INFO, CreatingWithoutProxy) in
    TelegramClient session_name (api_id c) (api_hash c) None construct
  end.

End WithUnicode.

(** ** [cleanup_session]

    The files that exist are a set of paths; [remove] is how [os.remove]
    ends, and a removal that succeeds takes the path out of the set. *)
Inductive cleanup_msg :=
  | SessionFileCleanedUp
  | CouldNotRemoveSessionFile (e : exn).

Definition session_file : str := (session_name ++ utf8 ".session")%list.

Definition os_remove (path : str) (remove : option exn)
    : M (St:=gset str) (Ev:=level * cleanup_msg) unit :=
  match remove with
  | None => modify (fun files => files ∖ {[path]})
  | Some e => raise e
  end.

Definition cleanup_session (remove : option exn)
    : M (St:=gset str) (Ev:=level * cleanup_msg) unit :=
  let! files := get in
  if bool_decide (session_file ∈ files) then
    try_except
      (do! os_remove session_file remove in
       emit (INFO, SessionFileCleanedUp))
      (fun e => Some (emit (WARNING, CouldNotRemoveSessionFile e)))
  else ret tt.

End SessionHandler.

(* ================================================================== *)
(** * message_processor.py *)
(* ================================================================== *)

Module MessageProcessor.
Import ConfigValidator.
Import Re.

(** ** The processed-message set

    [processed_messages] is a Python [set]. A set has no insertion order:
    [list(s)] enumerates it in the order of its table. The set is kept as
    that enumeration; where a new element lands in it, and the order of a
    set built from a list, are the interpreter's. *)
Class SetLayout := {
  set_add : Z -> list Z -> list Z;
  set_of_list : list Z -> list Z;
  elem_of_set_add : forall x l y, y ∈ set_add x l <-> y = x \/ y ∈ l;
  NoDup_set_add : forall x l, NoDup l -> NoDup (set_add x l);
  elem_of_set_of_list : forall l y, y ∈ set_of_list l <-> y ∈ l;
  NoDup_set_of_list : forall l, NoDup (set_of_list l)
}.

(** ** Data *)

Definition UI_KEYWORDS : list str := map utf8 [
  "UI"; "UX"; "interface"; "figma"; "sketch"; "adobe xd";
  "فرانت"; "طراحی رابط"; "رابط کاربری"; "تجربه کاربری";
  "ui designer"; "ux designer"; "فیگما"; "طراح رابط";
  "front-end"; "frontend"; "وب دیزاین"; "web design";
  "mobile design"; "app design"; "طراحی اپلیکیشن";
  "wireframe"; "prototype"; "mockup"; "طراحی موکاپ"
].

Inductive generative_model := GenerativeModel (name : str).

(** A resolved recipient; opaque to the bot. *)
Inductive entity := Entity (id : Z).

(** The object's fields. Times are readings of the event loop's clock, in
    seconds; they are exact rationals here. *)
Record processor := {
  config : ConfigValidator.config;
  processed_messages : list Z;
  rate_limit_delay : Q;
  last_message_time : gmap str Q;
  model : option generative_model
}.

Definition set_processed_messages (v : list Z) (p : processor) : processor :=
  {| config := config p; processed_messages := v;
     rate_limit_delay := rate_limit_delay p;
     last_message_time := last_message_time p; model := model p |}.

Definition set_last_message_time (v : gmap str Q) (p : processor) : processor :=
  {| config := config p; processed_messages := processed_messages p;
     rate_limit_delay := rate_limit_delay p;
     last_message_time := v; model := model p |}.

(** [event.message]: its text (possibly absent or empty) and its id. *)
Record event := {
  message_text : option str;
  message_id : Z
}.

Inductive log_msg :=
  | FailedToConfigureGemini (e : exn)
  | GeminiKeyNotProvided
  | ErrorGeneratingResponse (e : exn)
  | RateLimitingSkipping (username : str)
  | UserNotFound (username : str)
  | UserPrivacyRestricted (username : str)
  | MessageSentTo (username : str)
  | FloodWait (seconds : Z)
  | ErrorSendingMessage (username : str) (e : exn)
  | ResumeFileSent (username : str)
  | ErrorSendingResume (username : str) (e : exn)
  | ResumeFileNotFound
  | ProcessingMessage (text : str)
  | JobPostingDetected
  | NoUsernameFound
  | FoundUsername (username : str)
  | SuccessfullyProcessed (username : str)
  | ErrorInProcessMessage (e : exn).

(** What a method does that can be observed from outside: log records and
    calls to the two services, each with the way it ended. *)
Inductive action :=
  | Log (l : level) (m : log_msg)
  | GenerateContent (prompt : str) (outcome : result str)
  | GetEntity (username : str) (outcome : result entity)
  | SendMessage (to : entity) (text : str) (outcome : option exn)
  | SendFile (to : entity) (path : str) (caption : str) (outcome : option exn).

(** What the world answers during one call of a method: the clock, the
    files present, and how each request to a service ends ([None] or
    [Return]: it succeeds). *)
Record scenario := {
  now : Q;
  generate_content : result str;
  get_entity : result entity;
  send_text : option exn;
  module_dir : str;
  path_exists : str -> bool;
  send_file : option exn;
  send_link : option exn
}.

Abbreviation Proc := (M (St:=processor) (Ev:=action)).

Definition finish (outcome : option exn) : Proc unit :=
  match outcome with
  | None => ret tt
  | Some e => raise e
  end.

Definition client_send_message (to : entity) (text : str) (outcome : option exn)
    : Proc unit :=
  do! emit (SendMessage to text outcome) in finish outcome.

Definition client_send_file (to : entity) (path caption : str)
    (outcome : option exn) : Proc unit :=
  do! emit (SendFile to path caption outcome) in finish outcome.

Definition client_get_entity (username : str) (outcome : result entity)
    : Proc entity :=
  do! emit (GetEntity username outcome) in
  match outcome with
  | Return e => ret e
  | Raise e => raise e
  end.

Definition model_generate_content (prompt : str) (outcome : result str)
    : Proc str :=
  do! emit (GenerateContent prompt outcome) in
  match outcome with
  | Return text => ret text
  | Raise e => raise e
  end.

(** [__init__]: [configure] is how setting up the AI client ends. *)
Definition __init__ (cfg : ConfigValidator.config) (configure : option exn)
    : processor * list action :=
  let p m := {| config := cfg; processed_messages := [];
                rate_limit_delay := 30; last_message_time := ∅;
                model := m |} in
  if truthy (gemini_api_key cfg) then
    match configure with
    | None => (p (Some (GenerativeModel (utf8 "gemini-pro"))), [])
    | Some e => (p None, [Log ERROR (FailedToConfigureGemini e)])
    end
  else (p None, [Log WARNING GeminiKeyNotProvided]).

(** ** Patterns *)

Definition handle_char (c : char) : bool :=
  in_range "a" "z" c || in_range "A" "Z" c || in_range "0" "9" c
  || (c =? chr "_")%N.

(** [@([a-zA-Z0-9_]+)] *)
Definition username_re : regex :=
  Cat (Lit "@") (Group 1 (Plus (Chr handle_char))).

Definition one_of (s : string) (c : char) : bool :=
  bool_decide (c ∈ byte_codes s).

Definition local_char (c : char) : bool :=
  in_range "A" "Z" c || in_range "a" "z" c || in_range "0" "9" c
  || one_of "._%+-" c.

Definition domain_char (c : char) : bool :=
  in_range "A" "Z" c || in_range "a" "z" c || in_range "0" "9" c
  || one_of ".-" c.

Definition tld_char (c : char) : bool :=
  in_range "A" "Z" c || (c =? chr "|")%N || in_range "a" "z" c.

Section WithRuntime.
Context `{Unicode} `{SetLayout}.

(** [(\+98|0)?9\d{9}] *)
Definition phone_re : regex :=
  Seq [Opt (Group 1 (Alt (Seq [Lit "+"; Lit "9"; Lit "8"]) (Lit "0")));
       Lit "9"; Times 9 (Chr is_digit)].

(** [\b[A-Za-z0-9._%+-]+@[A-Za-z0-9.-]+\.[A-Z|a-z]{2,}\b] *)
Definition email_re : regex :=
  Seq [WordB; Plus (Chr local_char); Lit "@"; Plus (Chr domain_char);
       Lit "."; AtLeast 2 (Chr tld_char); WordB].

(** ** Classification and extraction *)

Definition contains_ui_keywords (text : str) : bool :=
  let text_lower := lower text in
  existsb (fun keyword => contains text_lower (lower keyword)) UI_KEYWORDS.

Definition extract_username (text : str) : option str :=
  match search username_re text with
  | Some m => group 1 m
  | None => None
  end.

Definition whole (m : option match_obj) : option str :=
  match m with
  | Some m => group 0 m
  | None => None
  end.

Definition put_if_set (key : string) (v : option str) (d : gmap string str)
    : gmap string str :=
  match v with
  | Some s => <[key := s]> d
  | None => d
  end.

Definition extract_contact_info (text : str) : gmap string str :=
  let contact_info :=
    match extract_username text with
    | Some (c :: u) => <["username" := c :: u]> ∅
    | _ => ∅
    end in
  let contact_info := put_if_set "phone" (whole (search phone_re text)) contact_info in
  put_if_set "email" (whole (search email_re text)) contact_info.

(** ** The reply *)

Definition _get_fallback_message : str := utf8 "🎨 سلام و وقت بخیر

با توجه به آگهی شما در زمینه طراحی UI/UX، تمایل دارم در این پروژه همکاری کنم. 
چندین سال تجربه در طراحی رابط کاربری و تجربه کاربری دارم.

در ادامه نمونه کارها و رزومه خود را ارسال می‌کنم.

با تشکر 🙏".

Definition prompt_for (job_text : str) : str :=
  (utf8 "
با توجه به آگهی استخدام زیر، یک پیام حرفه‌ای و دوستانه به زبان فارسی برای ارسال به کارفرما بنویس. پیام باید:

1. مودبانه و حرفه‌ای باشد
2. اشتیاق و علاقه به همکاری را نشان دهد
3. به طور خلاصه به تجربه مرتبط در زمینه طراحی UI/UX اشاره کند
4. حداکثر 3-4 خط باشد
5. با یک ایموجی مناسب شروع شود
6. به درخواست ارسال نمونه کار یا رزومه اشاره کند

متن آگهی:
" ++ job_text ++ utf8 "

پیام شخصی‌سازی شده:
")%list.

Definition generate_custom_message (sc : scenario) (job_text : str) : Proc str :=
  let! self := get in
  match model self with
  | None => ret _get_fallback_message
  | Some _ =>
    let prompt := prompt_for job_text in
    try_except
      (let! text := model_generate_content prompt (generate_content sc) in
       ret (strip text))
      (fun e => Some (do! emit (Log ERROR (ErrorGeneratingResponse e)) in
                      ret _get_fallback_message))
  end.

(** ** Delivery *)

(** [os.path.join] of two components. *)
Definition path_join (a b : str) : str :=
  if startswith b (utf8 "/") then b
  else match a with
       | [] => b
       | _ => if bool_decide (last a = Some (chr "/")) then (a ++ b)%list
              else (a ++ utf8 "/" ++ b)%list
       end.

Definition possible_paths (dir resume_filename : str) : list str :=
  [ path_join (utf8 "resume") resume_filename;
    resume_filename;
    path_join (path_join dir (utf8 "resume")) resume_filename;
    path_join dir resume_filename ].

Definition resume_caption (portfolio_url : str) : str :=
  (utf8 "📄 رزومه و سوابق کاری
🎨 نمونه کارها: " ++ portfolio_url)%list.

Definition portfolio_link (portfolio_url : str) : str :=
  (utf8 "🎨 نمونه کارها: " ++ portfolio_url)%list.

Definition send_link_if_set (sc : scenario) (to : entity) (portfolio_url : str)
    : Proc unit :=
  if truthy portfolio_url then
    client_send_message to (portfolio_link portfolio_url) (send_link sc)
  else ret tt.

Definition _send_resume_file (sc : scenario) (to : entity) (username : str)
    : Proc unit :=
  let! self := get in
  let resume_filename := resume_filename (config self) in
  let resume_path :=
    List.find (path_exists sc) (possible_paths (module_dir sc) resume_filename) in
  let portfolio_url := portfolio_url (config self) in
  match resume_path with
  | Some (c :: p) =>
    try_except
      (do! client_send_file to (c :: p) (resume_caption portfolio_url)
             (send_file sc) in
       emit (Log INFO (ResumeFileSent username)))
      (fun e => Some (do! emit (Log ERROR (ErrorSendingResume username e)) in
                      send_link_if_set sc to portfolio_url))
  | _ =>
    do! emit (Log WARNING ResumeFileNotFound) in
    send_link_if_set sc to portfolio_url
  end.

Definition rate_limited (self : processor) (current_time : Q) (username : str)
    : bool :=
  let last_time := default 0%Q (last_message_time self !! username) in
  if Qlt_le_dec (current_time - last_time) (rate_limit_delay self)
  then true else false.

Definition send_response_to_user (sc : scenario) (username message : str)
    : Proc bool :=
  try_except
    (let current_time := now sc in
     let! self := get in
     if rate_limited self current_time username then
       do! emit (Log INFO (RateLimitingSkipping username)) in
       ret false
     else
       let! found :=
         try_except
           (let! e := client_get_entity username (get_entity sc) in
            ret (Some e))
           (fun e => match e with
                     | ValueError _ =>
                       Some (do! emit (Log WARNING (UserNotFound username)) in
                             ret None)
                     | UserPrivacyRestrictedError =>
                       Some (do! emit (Log WARNING (UserPrivacyRestricted username)) in
                             ret None)
                     | _ => None
                     end) in
       match found with
       | None => ret false
       | Some to =>
         do! client_send_message to message (send_text sc) in
         do! emit (Log INFO (MessageSentTo username)) in
         do! _send_resume_file sc to username in
         do! modify (fun self =>
               set_last_message_time
                 (<[username := current_time]> (last_message_time self)) self) in
         ret true
       end)
    (fun e => match e with
              | FloodWaitError seconds =>
                Some (do! emit (Log WARNING (FloodWait seconds)) in raise e)
              | _ =>
                Some (do! emit (Log ERROR (ErrorSendingMessage username e)) in
                      ret false)
              end).

(** ** The callback *)

Definition mark_processed (id : Z) : Proc unit :=
  do! modify (fun self =>
        set_processed_messages (set_add id (processed_messages self)) self) in
  let! self := get in
  if (1000 <? length (processed_messages self))%nat then
    modify (fun self =>
      set_processed_messages
        (set_of_list (last_n 500 (processed_messages self))) self)
  else ret tt.

Definition respond (sc : scenario) (ev : event) (text username : str)
    : Proc unit :=
  let! custom_message := generate_custom_message sc text in
  let! success := send_response_to_user sc username custom_message in
  if success then
    do! emit (Log INFO (SuccessfullyProcessed username)) in
    mark_processed (message_id ev)
  else ret tt.

Definition process_message (sc : scenario) (ev : event) : Proc unit :=
  try_except
    (let! self := get in
     if bool_decide (message_id ev ∈ processed_messages self) then ret tt
     else
       match message_text ev with
       | Some (c :: t) =>
         let text := c :: t in
         if (length (strip text) <? 10)%nat then ret tt
         else
           do! emit (Log DEBUG (ProcessingMessage (take 100 text))) in
           if negb (contains_ui_keywords text) then ret tt
           else
             do! emit (Log INFO JobPostingDetected) in
             let contact_info := extract_contact_info text in
             match contact_info !! "username" with
             | Some (u :: us) =>
               do! emit (Log INFO (FoundUsername (u :: us))) in
               respond sc ev text (u :: us)
             | _ => emit (Log INFO NoUsernameFound)
             end
       | _ => ret tt
       end)
    (fun e => Some (emit (Log ERROR (ErrorInProcessMessage e)))).

(** A run of the callback: the events arrive one at a time, each with the
    world's answers during its handling. The result is, for every event,
    what its handling did and the object it left. *)
Fixpoint run (self : processor) (inputs : list (scenario * event))
    : list (list action * processor) :=
  match inputs with
  | [] => []
  | (sc, ev) :: tl =>
    match process_message sc ev self with
    | (_, self', tr) => (tr, self') :: run self' tl
    end
  end.

End WithRuntime.

End MessageProcessor.

(* ================================================================== *)
(** * A concrete interpreter *)
(* ================================================================== *)

(** The tables of the interpreter restricted to ASCII, and two layouts of
    a set of integers. They serve to run the code on concrete inputs. *)
Module Runtime.
Import MessageProcessor.

Definition lower_char (c : char) : char :=
  if in_range "A" "Z" c then (c + 32)%N else c.

Definition digit_value (c : char) : option Z :=
  if in_range "0" "9" c then Some (Z.of_N (c - chr "0")) else None.

Fixpoint decimal (acc : Z) (s : str) : option Z :=
  match s with
  | [] => Some acc
  | c :: tl =>
    match digit_value c with
    | Some d => decimal (10 * acc + d) tl
    | None => None
    end
  end.

(** [int(s)] on an optional sign and decimal digits, white space around
    them ignored. *)
Definition int_of_str (s : str) : option Z :=
  match strip s with
  | [] => None
  | c :: tl =>
    if (c =? chr "-")%N then
      match tl with [] => None | _ => Z.opp <$> decimal 0 tl end
    else if (c =? chr "+")%N then
      match tl with [] => None | _ => decimal 0 tl end
    else decimal 0 (c :: tl)
  end.

(** Exact on ASCII text, but for the underscores [int] allows between
    digits. *)
#[export] Instance ascii_tables : Unicode := {|
  lower := map lower_char;
  is_word := handle_char;
  is_digit := in_range "0" "9";
  parse_int := int_of_str
|}.

(** ** Layouts of a set of integers *)

(** A small non-negative integer hashes to itself and sits in the slot of
    its own value while the table is larger than every element (2048
    slots from 307 elements up to 1228), so the table of such ids is
    enumerated in increasing order, whatever the order of arrival. *)
Fixpoint insert_sorted (x : Z) (l : list Z) : list Z :=
  match l with
  | [] => [x]
  | y :: tl => if (x <? y)%Z then x :: l else y :: insert_sorted x tl
  end.

Definition add_by_value (x : Z) (l : list Z) : list Z :=
  if bool_decide (x ∈ l) then l else insert_sorted x l.

Definition set_by_value (l : list Z) : list Z :=
  foldl (fun s x => add_by_value x s) [] l.

(** Enumeration in order of arrival, as for the keys of a [dict]. *)
Definition add_at_end (x : Z) (l : list Z) : list Z :=
  if bool_decide (x ∈ l) then l else (l ++ [x])%list.

Definition set_in_order (l : list Z) : list Z :=
  foldl (fun s x => add_at_end x s) [] l.

(** Both are layouts: one copy of every element, nothing else. *)

Lemma elem_of_insert_sorted (x : Z) (l : list Z) (y : Z) :
  y ∈ insert_sorted x l <-> y = x \/ y ∈ l.
Proof.
  induction l as [|z l IH]; simpl.
  - rewrite elem_of_cons. done.
  - destruct (x <? z)%Z; rewrite !elem_of_cons; [done|].
    rewrite IH. tauto.
Qed.

Lemma NoDup_insert_sorted (x : Z) (l : list Z) :
  x ∉ l -> NoDup l -> NoDup (insert_sorted x l).
Proof.
  induction l as [|z l IH]; simpl; intros Hx Hnd.
  - apply NoDup_singleton.
  - apply not_elem_of_cons in Hx as [Hxz Hx].
    apply NoDup_cons in Hnd as [Hz Hnd].
    destruct (x <? z)%Z.
    + apply NoDup_cons. split; [|by apply NoDup_cons].
      rewrite elem_of_cons. tauto.
    + apply NoDup_cons. split; [|by apply IH].
      rewrite elem_of_insert_sorted. intros [?|?]; [by subst | done].
Qed.

Lemma elem_of_add_by_value (x : Z) (l : list Z) (y : Z) :
  y ∈ add_by_value x l <-> y = x \/ y ∈ l.
Proof.
  unfold add_by_value. case_bool_decide as Hx.
  - split; [by right | by intros [->|?]].
  - apply elem_of_insert_sorted.
Qed.

Lemma NoDup_add_by_value (x : Z) (l : list Z) :
  NoDup l -> NoDup (add_by_value x l).
Proof.
  intros Hnd. unfold add_by_value. case_bool_decide; [done|].
  by apply NoDup_insert_sorted.
Qed.

Lemma elem_of_add_at_end (x : Z) (l : list Z) (y : Z) :
  y ∈ add_at_end x l <-> y = x \/ y ∈ l.
Proof.
  unfold add_at_end. case_bool_decide as Hx.
  - split; [by right | by intros [->|?]].
  - rewrite elem_of_app, list_elem_of_singleton. tauto.
Qed.

Lemma NoDup_add_at_end (x : Z) (l : list Z) :
  NoDup l -> NoDup (add_at_end x l).
Proof.
  intros Hnd. unfold add_at_end. case_bool_decide as Hx; [done|].
  apply NoDup_app. repeat split; [done | | apply NoDup_singleton].
  intros y Hy ->%list_elem_of_singleton. done.
Qed.

(** A set built by adding the elements of a list one by one. *)
Lemma foldl_add (add : Z -> list Z -> list Z) :
  (forall x l y, y ∈ add x l <-> y = x \/ y ∈ l) ->
  (forall x l, NoDup l -> NoDup (add x l)) ->
  forall l acc,
    NoDup acc ->
    NoDup (foldl (fun s x => add x s) acc l)
    /\ forall y, y ∈ foldl (fun s x => add x s) acc l <-> y ∈ acc \/ y ∈ l.
Proof.
  intros Hel Hnd l. induction l as [|x l IH]; intros acc Hacc; simpl.
  - split; [done|]. intros y. rewrite elem_of_nil. tauto.
  - destruct (IH (add x acc)) as [Hnd' Hel']; [by apply Hnd|].
    split; [done|]. intros y. rewrite Hel', Hel, elem_of_cons. tauto.
Qed.

#[export] Instance by_value : SetLayout.
Proof.
  refine {| set_add := add_by_value; set_of_list := set_by_value;
            elem_of_set_add := elem_of_add_by_value;
            NoDup_set_add := NoDup_add_by_value |}.
  - intros l y. unfold set_by_value.
    destruct (foldl_add add_by_value elem_of_add_by_value NoDup_add_by_value
                l []) as [_ Hel]; [constructor|].
    rewrite Hel, elem_of_nil. tauto.
  - intros l. unfold set_by_value.
    by destruct (foldl_add add_by_value elem_of_add_by_value NoDup_add_by_value
                   l []) as [Hnd _]; [constructor|].
Defined.

#[export] Instance in_order : SetLayout.
Proof.
  refine {| set_add := add_at_end; set_of_list := set_in_order;
            elem_of_set_add := elem_of_add_at_end;
            NoDup_set_add := NoDup_add_at_end |}.
  - intros l y. unfold set_in_order.
    destruct (foldl_add add_at_end elem_of_add_at_end NoDup_add_at_end
                l []) as [_ Hel]; [constructor|].
    rewrite Hel, elem_of_nil. tauto.
  - intros l. unfold set_in_order.
    by destruct (foldl_add add_at_end elem_of_add_at_end NoDup_add_at_end
                   l []) as [Hnd _]; [constructor|].
Defined.

(** ** Inputs to run the code on *)

Definition example_config : ConfigValidator.config := {|
  ConfigValidator.api_id := 12345;
  ConfigValidator.api_hash := utf8 "0123456789abcdef";
  ConfigValidator.gemini_api_key := utf8 "key";
  ConfigValidator.channels := [utf8 "@design_jobs"];
  ConfigValidator.portfolio_url := utf8 "https://example.com/portfolio";
  ConfigValidator.cv_url := None;
  ConfigValidator.proxy_type := None;
  ConfigValidator.proxy_server := None;
  ConfigValidator.proxy_port := None;
  ConfigValidator.proxy_secret := None;
  ConfigValidator.resume_filename := ConfigValidator.default_resume_filename
|}.

(** A processor whose AI client could not be set up: replies are the
    fixed template. *)
Definition fresh : processor :=
  (__init__ example_config (Some (OtherException "DefaultCredentialsError"))).1.

(** All requests succeed at time [t]; there is no resume file. *)
Definition calm (t : Q) : scenario := {|
  now := t;
  generate_content := Return (utf8 "unused");
  get_entity := Return (Entity 7);
  send_text := None;
  module_dir := utf8 "/app";
  path_exists := fun _ => false;
  send_file := None;
  send_link := None
|}.

(** The same, but the portfolio link cannot be sent. *)
Definition link_down (t : Q) : scenario := {|
  now := t;
  generate_content := Return (utf8 "unused");
  get_entity := Return (Entity 7);
  send_text := None;
  module_dir := utf8 "/app";
  path_exists := fun _ => false;
  send_file := None;
  send_link := Some (OtherException "ConnectionError")
|}.

(** The resume file is there, and sending it hits the flood limit. *)
Definition file_flood (t : Q) : scenario := {|
  now := t;
  generate_content := Return (utf8 "unused");
  get_entity := Return (Entity 7);
  send_text := None;
  module_dir := utf8 "/app";
  path_exists := fun _ => true;
  send_file := Some (FloodWaitError 5);
  send_link := None
|}.

Definition jane : str := utf8 "jane_doe".

Definition posting : str :=
  utf8 "Looking for a UI/UX designer, contact @jane_doe".

Definition posting_event (id : Z) : event :=
  {| message_text := Some posting; message_id := id |}.

(** Postings arriving a minute apart, with the given ids in turn. *)
Definition arrivals (ids : list Z) : list (scenario * event) :=
  imap (fun k id => (calm (inject_Z (100 + 60 * Z.of_nat k)), posting_event id))
       ids.

(** Message 2000 of one channel, then messages 1 to 1000 of another. *)
Definition two_channels : list (scenario * event) :=
  arrivals (2000 :: seqZ 1 1000)%Z.

(** A configuration with an MTProto proxy whose secret is not
    hexadecimal. *)
Definition mtproto_config : ConfigValidator.config := {|
  ConfigValidator.api_id := 12345;
  ConfigValidator.api_hash := utf8 "0123456789abcdef";
  ConfigValidator.gemini_api_key := utf8 "key";
  ConfigValidator.channels := [utf8 "@design_jobs"];
  ConfigValidator.portfolio_url := utf8 "https://example.com/portfolio";
  ConfigValidator.cv_url := None;
  ConfigValidator.proxy_type := Some (utf8 "MTProto");
  ConfigValidator.proxy_server := Some (utf8 "203.0.113.5");
  ConfigValidator.proxy_port := Some 443%Z;
  ConfigValidator.proxy_secret := Some (utf8 "not-hex");
  ConfigValidator.resume_filename := ConfigValidator.default_resume_filename
|}.

(** An MTProto proxy is asked for with a secret that is not hexadecimal,
    and neither server nor port is given. *)
Definition secret_only_environ : gmap string str :=
  list_to_map [
    ("API_ID", utf8 "12345");
    ("API_HASH", utf8 "0123456789abcdef");
    ("GEMINI_API_KEY", utf8 "key");
    ("CHANNELS", utf8 "@design_jobs");
    ("PORTFOLIO_URL", utf8 "https://example.com/portfolio");
    ("PROXY_TYPE", utf8 "mtproto");
    ("PROXY_SECRET", utf8 "zz")
  ].

(** The environment of a run with a channel list to clean. *)
Definition example_environ : gmap string str :=
  list_to_map [
    ("API_ID", utf8 "12345");
    ("API_HASH", utf8 "0123456789abcdef");
    ("GEMINI_API_KEY", utf8 "key");
    ("CHANNELS", utf8 " @design_jobs, @ux_iran ,, freelance ,");
    ("PORTFOLIO_URL", utf8 "https://example.com/portfolio")
  ].

End Runtime.

(* ================================================================== *)
(** * main.py *)
(* ================================================================== *)

Module Main.
Import MessageProcessor.

Inductive log_msg :=
  | ConfigurationLoaded
  | FailedToInitialize (e : exn)
  | JoinedChannel (channel : str)
  | CouldNotJoinChannel (channel : str) (e : exn)
  | AddedChannelEntity (channel : str)
  | FailedToProcessChannel (channel : str) (e : exn)
  | RateLimitedWaiting (seconds : Z)
  | ErrorProcessingMessage (e : exn)
  | MessageHandlerSetup (count : nat)
  | BotInitializationFailed
  | ClientStarted
  | NoChannelsJoined
  | BotRunning
  | TwoFactorEnabled
  | CriticalStartupError (e : exn)
  | BotStopped
  | BotStoppedGracefully
  | UnexpectedErrorInMain (e : exn).

(** What the bot does that can be observed: its own log records, those of
    the components it drives, and its requests to the client. *)
Inductive action :=
  | Log (l : level) (m : log_msg)
  | Validation (l : ConfigValidator.log)
  | Session (l : SessionHandler.log)
  | Processing (a : MessageProcessor.action)
  | ClientStart (outcome : option exn)
  | JoinChannelRequest (channel : str) (outcome : option exn)
  | GetChannelEntity (channel : str) (outcome : result entity)
  | OnNewMessage (chats : list entity)
  | RunUntilDisconnected (outcome : option exn)
  | Disconnect (outcome : option exn)
  | Sleep (seconds : Z).

(** The fields of [TelegramUIBot]. The session handler is known by the
    configuration it was given. *)
Record bot := {
  config : option ConfigValidator.config;
  client : option SessionHandler.client;
  session_handler : option ConfigValidator.config;
  message_processor : option processor;
  channel_entities : list entity;
  is_running : bool
}.

Definition __init__ : bot :=
  {| config := None; client := None; session_handler := None;
     message_processor := None; channel_entities := []; is_running := false |}.

Definition set_config (v : option ConfigValidator.config) (b : bot) : bot :=
  {| config := v; client := client b; session_handler := session_handler b;
     message_processor := message_processor b;
     channel_entities := channel_entities b; is_running := is_running b |}.

Definition set_client (v : option SessionHandler.client) (b : bot) : bot :=
  {| config := config b; client := v; session_handler := session_handler b;
     message_processor := message_processor b;
     channel_entities := channel_entities b; is_running := is_running b |}.

Definition set_session_handler (v : option ConfigValidator.config) (b : bot)
    : bot :=
  {| config := config b; client := client b; session_handler := v;
     message_processor := message_processor b;
     channel_entities := channel_entities b; is_running := is_running b |}.

Definition set_message_processor (v : option processor) (b : bot) : bot :=
  {| config := config b; client := client b;
     session_handler := session_handler b; message_processor := v;
     channel_entities := channel_entities b; is_running := is_running b |}.

Definition set_channel_entities (v : list entity) (b : bot) : bot :=
  {| config := config b; client := client b;
     session_handler := session_handler b;
     message_processor := message_processor b;
     channel_entities := v; is_running := is_running b |}.

Definition set_is_running (v : bool) (b : bot) : bot :=
  {| config := config b; client := client b;
     session_handler := session_handler b;
     message_processor := message_processor b;
     channel_entities := channel_entities b; is_running := v |}.

(** What the world answers while the bot runs: the environment once the
    [.env] file is loaded, how the constructor of the messaging client
    ends, how setting up the AI client ends, and how each request to the
    messaging client ends (those about a channel by its position in the
    list). *)
Record world := {
  environ : gmap string str;
  construct_client : option exn;
  configure : option exn;
  client_start : option exn;
  join_request : nat -> option exn;
  channel_entity : nat -> result entity;
  run_end : option exn;
  client_disconnect : option exn
}.

Abbreviation Bot := (M (St:=bot) (Ev:=action)).

(** A component without state of its own, run inside the bot. *)
Definition component {Ev A} (inj : Ev -> action)
    (m : M (St:=unit) (Ev:=Ev) A) : Bot A :=
  fun b => match m tt with (r, _, tr) => (r, b, map inj tr) end.

(** A method of the message processor, run on the bot's processor. *)
Definition on_processor {A} (m : Proc A) : Bot A :=
  fun b =>
  match message_processor b with
  | Some p =>
    match m p with
    | (r, p', tr) => (r, set_message_processor (Some p') b, map Processing tr)
    end
  | None => (Raise (OtherException "AttributeError"), b, [])
  end.

(** [try: body finally: cleanup]: the cleanup runs however the body ends;
    if it raises, that is what leaves the statement. *)
Definition try_finally {A} (body : Bot A) (cleanup : Bot unit) : Bot A :=
  fun b =>
  match body b with
  | (r, b1, t1) =>
    match cleanup b1 with
    | (Return _, b2, t2) => (r, b2, (t1 ++ t2)%list)
    | (Raise e, b2, t2) => (Raise e, b2, (t1 ++ t2)%list)
    end
  end.

Definition finish (outcome : option exn) : Bot unit :=
  match outcome with
  | None => ret tt
  | Some e => raise e
  end.

(** [SessionPasswordNeededError], told from the other exceptions by its
    class. *)
Definition SessionPasswordNeededError : exn :=
  OtherException "SessionPasswordNeededError".

Definition is_session_password_needed (e : exn) : bool :=
  match e with
  | OtherException name => String.eqb name "SessionPasswordNeededError"
  | _ => false
  end.

Section WithRuntime.
Context `{Unicode} `{SetLayout}.

Definition initialize (w : world) : Bot bool :=
  try_except
    (let! cfg := component Validation (ConfigValidator.validate_config (environ w)) in
     do! modify (set_config (Some cfg)) in
     do! emit (Log INFO ConfigurationLoaded) in
     do! modify (set_session_handler (Some cfg)) in
     let! c := component Session
                 (SessionHandler.create_client cfg (construct_client w)) in
     do! modify (set_client (Some c)) in
     let made := MessageProcessor.__init__ cfg (configure w) in
     do! component Processing (fun _ => (Return tt, tt, made.2)) in
     do! modify (set_message_processor (Some made.1)) in
     ret true)
    (fun e => Some (do! emit (Log ERROR (FailedToInitialize e)) in ret false)).

(** One round of the loop of [join_channels], for the channel at
    position [i]; [entities] is the list built so far. *)
Definition join_channel (w : world) (i : nat) (channel : str)
    (entities : list entity) : Bot (list entity) :=
  if negb (truthy (strip channel)) then ret entities
  else
    try_except
      (do! try_except
             (do! emit (JoinChannelRequest channel (join_request w i)) in
              do! finish (join_request w i) in
              emit (Log INFO (JoinedChannel channel)))
             (fun e => Some (emit (Log WARNING (CouldNotJoinChannel channel e)))) in
       do! emit (GetChannelEntity channel (channel_entity w i)) in
       match channel_entity w i with
       | Return entity =>
         do! emit (Log INFO (AddedChannelEntity channel)) in
         ret (entities ++ [entity])%list
       | Raise e => raise e
       end)
      (fun e => Some (do! emit (Log ERROR (FailedToProcessChannel channel e)) in
                      ret entities)).

Fixpoint join_from (w : world) (i : nat) (channels : list str)
    (entities : list entity) : Bot (list entity) :=
  match channels with
  | [] => ret entities
  | channel :: tl =>
    let! entities := join_channel w i channel entities in
    join_from w (S i) tl entities
  end.

Definition join_channels (w : world) : Bot (list entity) :=
  let! self := get in
  match config self with
  | Some cfg => join_from w 0 (ConfigValidator.channels cfg) []
  | None => raise (OtherException "TypeError")
  end.

(** The callback registered for new messages. *)
Definition message_handler (sc : scenario) (ev : event) : Bot unit :=
  try_except
    (on_processor (process_message sc ev))
    (fun e => match e with
              | FloodWaitError seconds =>
                Some (do! emit (Log WARNING (RateLimitedWaiting seconds)) in
                      emit (Sleep seconds))
              | _ => Some (emit (Log ERROR (ErrorProcessingMessage e)))
              end).

Definition setup_message_handler : Bot unit :=
  let! self := get in
  do! emit (OnNewMessage (channel_entities self)) in
  emit (Log INFO (MessageHandlerSetup (length (channel_entities self)))).

(** [client.run_until_disconnected()]: a request to the client like the
    others. The handlings of the messages that arrive during the wait
    are started by the client library, each a call of [message_handler];
    they are not steps of [start]. *)
Definition run_until_disconnected (w : world) : Bot unit :=
  do! emit (RunUntilDisconnected (run_end w)) in
  finish (run_end w).

(** [start] returns [False] where it gives up and nothing ([None]) when
    the connection ends by itself. *)
Definition start (w : world) : Bot (option bool) :=
  try_finally
    (try_except
       (let! ok := initialize w in
        if negb ok then
          do! emit (Log ERROR BotInitializationFailed) in
          ret (Some false)
        else
          do! emit (ClientStart (client_start w)) in
          do! finish (client_start w) in
          do! emit (Log INFO ClientStarted) in
          let! entities := join_channels w in
          do! modify (set_channel_entities entities) in
          match entities with
          | [] =>
            do! emit (Log WARNING NoChannelsJoined) in
            ret (Some false)
          | _ :: _ =>
            do! setup_message_handler in
            do! modify (set_is_running true) in
            do! emit (Log INFO BotRunning) in
            do! run_until_disconnected w in
            ret None
          end)
       (fun e =>
          if is_session_password_needed e then
            Some (do! emit (Log ERROR TwoFactorEnabled) in ret (Some false))
          else
            Some (do! emit (Log ERROR (CriticalStartupError e)) in
                  ret (Some false))))
    (do! modify (set_is_running false) in
     let! self := get in
     do! match client self with
         | Some _ =>
           do! emit (Disconnect (client_disconnect w)) in
           finish (client_disconnect w)
         | None => ret tt
         end in
     emit (Log INFO BotStopped)).

Definition stop (w : world) : Bot unit :=
  let! self := get in
  match is_running self, client self with
  | true, Some _ =>
    do! modify (set_is_running false) in
    do! emit (Disconnect (client_disconnect w)) in
    do! finish (client_disconnect w) in
    emit (Log INFO BotStoppedGracefully)
  | _, _ => ret tt
  end.

(** [main]: an interrupt from the keyboard is no [Exception] and is not
    an outcome here. *)
Definition main (w : world) : Bot unit :=
  try_except
    (do! start w in ret tt)
    (fun e => Some (do! emit (Log ERROR (UnexpectedErrorInMain e)) in stop w)).

End WithRuntime.

End Main.

(* ================================================================== *)
(** * Notions the statements use *)
(* ================================================================== *)

Section Notions.
Import ConfigValidator SessionHandler MessageProcessor Re.
Context `{Unicode} `{SetLayout}.

(** ** Text *)

(** A string without white space at either end. *)
Definition trimmed (s : str) : Prop :=
  (forall c, head s = Some c -> isspace c = false)
  /\ (forall c, last s = Some c -> isspace c = false).

(** [sep.join(pieces)] *)
Fixpoint join (sep : char) (pieces : list str) : str :=
  match pieces with
  | [] => []
  | [p] => p
  | p :: ps => (p ++ sep :: join sep ps)%list
  end.

(** The channel list as the specification words it: split on commas,
    strip every entry, drop the empty ones, keep the order. *)
Definition channel_entries (s : str) : list str :=
  map strip (filter (fun ch => truthy (strip ch) = true) (split (chr ",") s)).

(** The longest run of letters, digits and underscores a text starts
    with. *)
Fixpoint handle_run (s : str) : str :=
  match s with
  | c :: tl => if handle_char c then c :: handle_run tl else []
  | [] => []
  end.

Definition is_alnum (c : char) : bool :=
  in_range "a" "z" c || in_range "A" "Z" c || in_range "0" "9" c.

(** Where the greedy repetition of the handle class stops. *)
Fixpoint eat (p : option char) (s : str) (i : nat)
    (c : list (nat * (nat * nat))) : cursor :=
  match s with
  | ch :: tl =>
    if handle_char ch then eat (Some ch) tl (S i) c
    else {| prev := p; rest := s; pos := i; caps := c |}
  | [] => {| prev := p; rest := []; pos := i; caps := c |}
  end.

(** ** Session *)

Definition client_without_proxy (c : ConfigValidator.config) : client :=
  {| session := session_name; client_api_id := api_id c;
     client_api_hash := api_hash c; proxy := None |}.

(** What [create_client] ends with when it has the object [cl] to build:
    that object, or what the constructor raises. *)
Definition constructed (construct : option exn) (cl : client) : result client :=
  match construct with
  | None => Return cl
  | Some e => Raise e
  end.


(** ** Delivery *)

(** Deliveries one after the other. *)
Fixpoint send_all (self : processor) (calls : list (scenario * str * str))
    : processor :=
  match calls with
  | [] => self
  | (sc, username, message) :: tl =>
    send_all (send_response_to_user sc username message self).1.2 tl
  end.

(** The handle was last written to at [t] or later, and the cooldown is
    the 30 seconds [__init__] sets. *)
Definition cooling (self : processor) (username : str) (t : Q) : Prop :=
  rate_limit_delay self = 30%Q
  /\ exists t0, last_message_time self !! username = Some t0 /\ (t <= t0)%Q.

(** What the attachment step raises, read off the world's answers: only
    the portfolio link sent as plain text can make it fail, since a failed
    [send_file] is caught on the spot. *)
Definition resume_path (sc : scenario) (self : processor) : option str :=
  find (path_exists sc)
       (possible_paths (module_dir sc) (resume_filename (config self))).

Definition link_raises (sc : scenario) (self : processor) : option exn :=
  if truthy (portfolio_url (config self)) then send_link sc else None.

Definition attachment_raises (sc : scenario) (self : processor) : option exn :=
  match resume_path sc self with
  | Some (_ :: _) =>
    match send_file sc with
    | None => None
    | Some _ => link_raises sc self
    end
  | _ => link_raises sc self
  end.

Definition is_flood_wait (e : exn) : bool :=
  match e with FloodWaitError _ => true | _ => false end.

(** [e] was raised by resolving the handle or by sending a message. *)
Definition raised_by_client (tr : list action) (e : exn) : Prop :=
  (exists username, GetEntity username (Raise e) ∈ tr)
  \/ (exists to text, SendMessage to text (Some e) ∈ tr).

(** [e] was raised by sending the resume file. *)
Definition raised_by_send_file (tr : list action) (e : exn) : Prop :=
  exists to path caption, SendFile to path caption (Some e) ∈ tr.


(** ** The callback and its runs *)

(** [set(list(s)[-500:])] when [s] has grown past 1000, [s] otherwise. *)
Definition truncated (l : list Z) : list Z :=
  if (1000 <? length l)%nat then set_of_list (last_n 500 l) else l.

(** The handling answered the posting: it logged the success record. *)
Definition is_success_log (a : action) : bool :=
  match a with
  | Log INFO (SuccessfullyProcessed _) => true
  | _ => false
  end.

Definition replied (tr : list action) : bool := existsb is_success_log tr.

(** The object after a sequence of events has been handled. *)
Fixpoint state_after (self : processor) (inputs : list (scenario * event))
    : processor :=
  match inputs with
  | [] => self
  | (sc, ev) :: tl => state_after (process_message sc ev self).1.2 tl
  end.

(** How many handlings of events with the given id replied. *)
Fixpoint replies (id : Z) (self : processor) (inputs : list (scenario * event))
    : nat :=
  match inputs with
  | [] => 0
  | (sc, ev) :: tl =>
    let out := process_message sc ev self in
    (if bool_decide (message_id ev = id) && replied out.2 then 1 else 0)
    + replies id out.1.2 tl
  end.

End Notions.

(* ================================================================== *)
(** * Notions for the rest of the code *)
(* ================================================================== *)

Section MoreNotions.
Import ConfigValidator SessionHandler MessageProcessor.
Context `{Unicode} `{SetLayout}.

(** ** Configuration *)

(** An optional variable as [validate_config] reads it: unset and empty
    are the same. *)
Definition optional (env : gmap string str) (name : string) : option str :=
  match env !! name with
  | Some (c :: v) => Some (c :: v)
  | _ => None
  end.

(** The environments [validate_config] accepts. *)
Definition accepts (env : gmap string str) : bool :=
  match optional env "API_ID" with
  | Some id => bool_decide (is_Some (parse_int id))
  | None => false
  end
  && bool_decide (is_Some (optional env "API_HASH"))
  && bool_decide (is_Some (optional env "GEMINI_API_KEY"))
  && match optional env "CHANNELS" with
     | Some s => negb (bool_decide (parse_channels s = []))
     | None => false
     end
  && bool_decide (is_Some (optional env "PORTFOLIO_URL")).

(** The dictionary as the two loops of [validate_config] fill it, before
    the proxy settings are checked. *)
Definition raw_config (env : gmap string str) (id : Z)
    : ConfigValidator.config := {|
  api_id := id;
  api_hash := default [] (optional env "API_HASH");
  gemini_api_key := default [] (optional env "GEMINI_API_KEY");
  channels := parse_channels (default [] (optional env "CHANNELS"));
  portfolio_url := default [] (optional env "PORTFOLIO_URL");
  cv_url := optional env "CV_URL";
  proxy_type := optional env "PROXY_TYPE";
  proxy_server := optional env "PROXY_SERVER";
  proxy_port := match optional env "PROXY_PORT" with
                | Some v => parse_int v
                | None => None
                end;
  proxy_secret := optional env "PROXY_SECRET";
  resume_filename := default default_resume_filename
                       (optional env "RESUME_FILENAME")
|}.

(** The configuration once [_validate_proxy_config] has gone over it. *)
Definition validated (c : ConfigValidator.config) : ConfigValidator.config :=
  match (_validate_proxy_config c tt).1.1 with
  | Return c' => c'
  | Raise _ => c
  end.

(** Two configurations that differ in the proxy type and port at most. *)
Definition same_but_proxy (c c' : ConfigValidator.config) : Prop :=
  api_id c' = api_id c /\ api_hash c' = api_hash c
  /\ gemini_api_key c' = gemini_api_key c /\ channels c' = channels c
  /\ portfolio_url c' = portfolio_url c /\ cv_url c' = cv_url c
  /\ proxy_server c' = proxy_server c /\ proxy_secret c' = proxy_secret c
  /\ resume_filename c' = resume_filename c.

Definition tuple_server (p : proxy_tuple) : str :=
  match p with
  | Proxy6 _ server _ _ _ _ => server
  | Proxy3 server _ _ => server
  end.

Definition tuple_port (p : proxy_tuple) : Z :=
  match p with
  | Proxy6 _ _ port _ _ _ => port
  | Proxy3 _ port _ => port
  end.

End MoreNotions.

Section ProcessorNotions.
Import ConfigValidator MessageProcessor Re.
Context `{Unicode} `{SetLayout}.

(** ** Handles *)

(** The handle read from left to right: at the first [@] that a letter,
    a digit or an underscore follows, the run of such characters. *)
Fixpoint first_handle (s : str) : option str :=
  match s with
  | c :: tl =>
    if (c =? chr "@")%N then
      match handle_run tl with
      | [] => first_handle tl
      | h => Some h
      end
    else first_handle tl
  | [] => None
  end.

(** ** Requests *)

(** A call to the messaging client. *)
Definition is_client_call (a : action) : bool :=
  match a with
  | GetEntity _ _ | SendMessage _ _ _ | SendFile _ _ _ _ => true
  | _ => false
  end.

(** A call to either service. *)
Definition is_request (a : action) : bool :=
  match a with
  | Log _ _ => false
  | _ => true
  end.

(** The text of a posting that gets past the tests of [process_message],
    and the handle it is answered to. *)
Definition answerable (self : processor) (ev : event) (text handle : str)
    : Prop :=
  (message_id ev ∉ processed_messages self)
  /\ message_text ev = Some text
  /\ (10 <= length (strip text))%nat
  /\ contains_ui_keywords text = true
  /\ extract_username text = Some handle.

End ProcessorNotions.

Section PostingNotions.
Import ConfigValidator MessageProcessor Re.
Context `{Unicode} `{SetLayout}.

(** What follows the delivery in [respond] and [process_message]: the
    success record and the new set, or the error record. *)
Definition after_delivery (ev : event) (handle : str) (r : result bool)
    (self1 : processor) : processor * list action :=
  match r with
  | Return true =>
    (set_processed_messages
       (truncated (set_add (message_id ev) (processed_messages self1))) self1,
     [Log INFO (SuccessfullyProcessed handle)])
  | Return false => (self1, [])
  | Raise e => (self1, [Log ERROR (ErrorInProcessMessage e)])
  end.

(** What a delivery to [username] may hold: records, and calls to the
    client outside the cooldown, the handle resolved being [username]. *)
Definition delivery_action (self : processor) (t : Q) (username : str)
    (a : action) : Prop :=
  match a with
  | Log _ _ => True
  | GenerateContent _ _ => False
  | GetEntity u _ => u = username /\ rate_limited self t username = false
  | _ => rate_limited self t username = false
  end.

(** What writing the reply to [text] may hold: records, and the
    completion request for that text. *)
Definition generation_action (sc : scenario) (self : processor) (text : str)
    (a : action) : Prop :=
  match a with
  | Log _ _ => True
  | GenerateContent p o =>
    p = prompt_for text /\ o = generate_content sc /\ model self <> None
  | _ => False
  end.

(** The object after a reply to [handle] at time [t] for the event
    [ev]. *)
Definition answered (self : processor) (ev : event) (handle : str) (t : Q)
    : processor :=
  set_processed_messages
    (truncated (set_add (message_id ev) (processed_messages self)))
    (set_last_message_time (<[handle := t]> (last_message_time self)) self).

End PostingNotions.

Section MainNotions.
Import MessageProcessor Main.
Context `{Unicode} `{SetLayout}.

(** ** The bot *)

(** A request to the messaging client, made by the bot itself or by the
    message processor. *)
Definition is_client_request (a : action) : bool :=
  match a with
  | ClientStart _ | JoinChannelRequest _ _ | GetChannelEntity _ _
  | OnNewMessage _ | RunUntilDisconnected _ | Disconnect _ => true
  | Processing a => is_client_call a
  | _ => false
  end.

Definition is_disconnect (a : action) : bool :=
  match a with
  | Disconnect _ => true
  | _ => false
  end.

(** The entity the channel at position [i] contributes: none when its
    name is blank or the client cannot resolve it. *)
Definition resolved_at (w : world) (i : nat) (channel : str) : list entity :=
  if truthy (strip channel) then
    match channel_entity w i with
    | Return e => [e]
    | Raise _ => []
    end
  else [].

Fixpoint resolved_from (w : world) (i : nat) (channels : list str)
    : list entity :=
  match channels with
  | [] => []
  | channel :: tl => (resolved_at w i channel ++ resolved_from w (S i) tl)%list
  end.

(** The requests about the channel at position [i]: to join it, then to
    resolve it. *)
Definition requests_at (w : world) (i : nat) (channel : str) : list action :=
  if truthy (strip channel) then
    [JoinChannelRequest channel (join_request w i);
     GetChannelEntity channel (channel_entity w i)]
  else [].

Fixpoint channel_requests (w : world) (i : nat) (channels : list str)
    : list action :=
  match channels with
  | [] => []
  | channel :: tl => (requests_at w i channel ++ channel_requests w (S i) tl)%list
  end.

(** The bot once [initialize] has gone through for the configuration
    [cfg]. *)
Definition initialized (w : world) (cfg : ConfigValidator.config)
    (cl : SessionHandler.client) (b : bot) : bot :=
  set_message_processor
    (Some (MessageProcessor.__init__ cfg (configure w)).1)
    (set_client (Some cl)
       (set_session_handler (Some cfg) (set_config (Some cfg) b))).

End MainNotions.

(* ================================================================== *)
(** * More inputs to run the code on *)
(* ================================================================== *)

Module Samples.
Import MessageProcessor Runtime.

(** The environment of [example_environ] with a SOCKS5 proxy. *)
Definition proxied_environ : gmap string str :=
  <["PROXY_TYPE" := utf8 "SOCKS5"]>
    (<["PROXY_SERVER" := utf8 "203.0.113.5"]>
       (<["PROXY_PORT" := utf8 "1080"]> example_environ)).

(** A proxy port that is no number. *)
Definition bad_port_environ : gmap string str :=
  <["PROXY_PORT" := utf8 "10x80"]> example_environ.

(** A portfolio link without a scheme. *)
Definition bare_link_environ : gmap string str :=
  <["PORTFOLIO_URL" := utf8 "example.com/portfolio"]> example_environ.

Definition with_proxy (t : str) (secret : option str)
    : ConfigValidator.config := {|
  ConfigValidator.api_id := 12345;
  ConfigValidator.api_hash := utf8 "0123456789abcdef";
  ConfigValidator.gemini_api_key := utf8 "key";
  ConfigValidator.channels := [utf8 "@design_jobs"];
  ConfigValidator.portfolio_url := utf8 "https://example.com/portfolio";
  ConfigValidator.cv_url := None;
  ConfigValidator.proxy_type := Some t;
  ConfigValidator.proxy_server := Some (utf8 "203.0.113.5");
  ConfigValidator.proxy_port := Some 443%Z;
  ConfigValidator.proxy_secret := secret;
  ConfigValidator.resume_filename := ConfigValidator.default_resume_filename
|}.

(** A processor with a model. *)
Definition with_model : processor := (__init__ example_config None).1.

(** The completion comes back with white space around it. *)
Definition padded (t : Q) : scenario := {|
  now := t;
  generate_content := Return (utf8 "  Hello, I would like to apply.
");
  get_entity := Return (Entity 7);
  send_text := None;
  module_dir := utf8 "/app";
  path_exists := fun _ => false;
  send_file := None;
  send_link := None
|}.

(** Every request succeeds; the channel at position [i] resolves to the
    entity [i]. *)
Definition quiet_world : Main.world := {|
  Main.environ := example_environ;
  Main.construct_client := None;
  Main.configure := None;
  Main.client_start := None;
  Main.join_request := fun _ => None;
  Main.channel_entity := fun i => Return (Entity (Z.of_nat i));
  Main.run_end := None;
  Main.client_disconnect := None
|}.

(** The same, but the constructor of the client refuses the session. *)
Definition locked_world : Main.world := {|
  Main.environ := example_environ;
  Main.construct_client := Some (OtherException "OperationalError");
  Main.configure := None;
  Main.client_start := None;
  Main.join_request := fun _ => None;
  Main.channel_entity := fun i => Return (Entity (Z.of_nat i));
  Main.run_end := None;
  Main.client_disconnect := None
|}.

(** Nothing is configured. *)
Definition bare_world : Main.world := {|
  Main.environ := ∅;
  Main.construct_client := None;
  Main.configure := None;
  Main.client_start := None;
  Main.join_request := fun _ => None;
  Main.channel_entity := fun i => Return (Entity (Z.of_nat i));
  Main.run_end := None;
  Main.client_disconnect := None
|}.

End Samples.

(* ================================================================== *)
(** * Properties of the Python values *)
(* ================================================================== *)

Section PyFacts.

(** [lstrip] removes a run of white space from the front and stops at the
    first other character. *)
Lemma lstrip_spec (s : str) :
  exists a, s = (a ++ lstrip s)%list /\ Forall (fun c => isspace c = true) a
    /\ forall c, head (lstrip s) = Some c -> isspace c = false.
Proof.
  induction s as [|c s IH]; simpl.
  - exists []. repeat split; [constructor | discriminate].
  - destruct (isspace c) eqn:Hc.
    + destruct IH as (a & Ha & Hsp & Hhd).
      exists (c :: a). repeat split; [simpl; congruence | by constructor | done].
    + exists []. repeat split; [constructor | simpl; congruence].
Qed.

Lemma head_rev_last {A} (l : list A) : head (rev l) = last l.
Proof.
  induction l as [|x l IH] using rev_ind; [done|].
  by rewrite rev_app_distr, last_snoc.
Qed.

Lemma rstrip_spec (s : str) :
  exists b, s = (rstrip s ++ b)%list /\ Forall (fun c => isspace c = true) b
    /\ forall c, last (rstrip s) = Some c -> isspace c = false.
Proof.
  unfold rstrip.
  destruct (lstrip_spec (rev s)) as (a & Ha & Hsp & Hhd).
  exists (rev a). repeat split.
  - rewrite <- rev_app_distr, <- Ha. by rewrite rev_involutive.
  - apply Forall_forall. intros c Hc. rewrite Forall_forall in Hsp.
    apply Hsp. apply list_elem_of_In. apply in_rev. by apply list_elem_of_In.
  - intros c Hc. apply Hhd. rewrite <- Hc.
    rewrite <- (rev_involutive (lstrip (rev s))) at 1. apply head_rev_last.
Qed.

(** [strip] removes white space around the text and nothing else. *)
Lemma strip_spec (s : str) :
  exists a b, s = (a ++ strip s ++ b)%list
    /\ Forall (fun c => isspace c = true) a
    /\ Forall (fun c => isspace c = true) b
    /\ trimmed (strip s).
Proof.
  unfold strip.
  destruct (lstrip_spec s) as (a & Ha & Hsa & Hhd).
  destruct (rstrip_spec (lstrip s)) as (b & Hb & Hsb & Hlast).
  exists a, b. repeat split; try done.
  - by rewrite <- Hb.
  - intros c Hc. apply Hhd. rewrite Hb.
    destruct (rstrip (lstrip s)); [discriminate | done].
Qed.

Lemma strip_trimmed (s : str) : trimmed (strip s).
Proof. destruct (strip_spec s) as (? & ? & ? & ? & ? & ?). done. Qed.

Lemma split_nonempty (sep : char) (s : str) : split sep s <> [].
Proof.
  destruct s as [|c s]; simpl; [done|].
  destruct (c =? sep)%N; [done|]. by destruct (split sep s).
Qed.

(** [split] cuts at every separator: the pieces hold none, and joining
    them with the separator gives the text back. *)
Lemma split_spec (sep : char) (s : str) :
  join sep (split sep s) = s /\ Forall (fun p => sep ∉ p) (split sep s).
Proof.
  induction s as [|c s [IHj IHf]]; simpl.
  - split; [done|]. repeat constructor. by intros ?%elem_of_nil.
  - destruct (N.eqb_spec c sep) as [->|Hne].
    + split.
      * pose proof (split_nonempty sep s).
        destruct (split sep s); [done|]. simpl in *. by rewrite IHj.
      * constructor; [by intros ?%elem_of_nil | done].
    + pose proof (split_nonempty sep s).
      destruct (split sep s) as [|p ps]; [done|].
      apply Forall_cons in IHf as [Hp Hps].
      split.
      * rewrite <- IHj. by destruct ps.
      * constructor; [|done]. intros [?|?]%elem_of_cons; [congruence | done].
Qed.

Lemma fromhex_empty : fromhex [] = Some [].
Proof. reflexivity. Qed.

End PyFacts.

(** ** Running a computation step by step *)

Section MonadFacts.
Context {St Ev : Type}.
Implicit Types s : St.

Lemma bind_run {A B} (m : M (St:=St) (Ev:=Ev) A) (f : A -> M B) (s : St) :
  bind m f s
  = match m s with
    | (Return a, s1, t1) =>
      match f a s1 with (r, s2, t2) => (r, s2, (t1 ++ t2)%list) end
    | (Raise e, s1, t1) => (Raise e, s1, t1)
    end.
Proof. reflexivity. Qed.

Lemma bind_Return {A B} (m : M (St:=St) (Ev:=Ev) A) (f : A -> M B)
    s a s1 t1 r s2 t2 :
  m s = (Return a, s1, t1) -> f a s1 = (r, s2, t2) ->
  bind m f s = (r, s2, (t1 ++ t2)%list).
Proof. intros Hm Hf. unfold bind. by rewrite Hm, Hf. Qed.

Lemma bind_silent {A B} (m : M (St:=St) (Ev:=Ev) A) (f : A -> M B) s a s1 :
  m s = (Return a, s1, []) -> bind m f s = f a s1.
Proof. intros Hm. unfold bind. rewrite Hm. by destruct (f a s1) as [[? ?] ?]. Qed.

Lemma bind_Raise {A B} (m : M (St:=St) (Ev:=Ev) A) (f : A -> M B) s e s1 t1 :
  m s = (Raise e, s1, t1) -> bind m f s = (Raise e, s1, t1).
Proof. intros Hm. unfold bind. by rewrite Hm. Qed.

Lemma try_except_Return {A} (m : M (St:=St) (Ev:=Ev) A) h s a s1 t1 :
  m s = (Return a, s1, t1) -> try_except m h s = (Return a, s1, t1).
Proof. intros Hm. unfold try_except. by rewrite Hm. Qed.

Lemma try_except_caught {A} (m : M (St:=St) (Ev:=Ev) A) h s e s1 t1 k r s2 t2 :
  m s = (Raise e, s1, t1) -> h e = Some k -> k s1 = (r, s2, t2) ->
  try_except m h s = (r, s2, (t1 ++ t2)%list).
Proof. intros Hm Hh Hk. unfold try_except. by rewrite Hm, Hh, Hk. Qed.

Lemma try_except_uncaught {A} (m : M (St:=St) (Ev:=Ev) A) h s e s1 t1 :
  m s = (Raise e, s1, t1) -> h e = None ->
  try_except m h s = (Raise e, s1, t1).
Proof. intros Hm Hh. unfold try_except. by rewrite Hm, Hh. Qed.

End MonadFacts.

(* ================================================================== *)
(** * Properties of config_validator.py *)
(* ================================================================== *)

Section ConfigValidatorFacts.
Import ConfigValidator.
Context `{Unicode}.

Lemma parse_channels_entries (s : str) : parse_channels s = channel_entries s.
Proof.
  unfold parse_channels, channel_entries.
  induction (split (chr ",") s) as [|ch l IH]; [done|].
  rewrite filter_cons. cbn [omap list_omap].
  destruct (truthy (strip ch)) eqn:Ht.
  - rewrite decide_True by done. simpl. by rewrite <- IH.
  - rewrite decide_False by congruence. done.
Qed.

Lemma channel_entries_trimmed (s : str) :
  Forall (fun ch => ch <> [] /\ trimmed ch) (channel_entries s).
Proof.
  unfold channel_entries. apply Forall_forall. intros ch Hch.
  apply list_elem_of_fmap in Hch as (ch0 & -> & Hin).
  apply list_elem_of_filter in Hin as [Ht _].
  split; [by destruct (strip ch0) | apply strip_trimmed].
Qed.

Lemma _validate_proxy_config_channels (c : config) :
  exists c' tr, _validate_proxy_config c tt = (Return c', tt, tr)
    /\ channels c' = channels c.
Proof.
  unfold _validate_proxy_config.
  destruct (proxy_type c) as [[|t0 t']|]; [by eexists _, _ | | by eexists _, _].
  unfold bind, ret, emit.
  destruct (supported_proxy_type _); simpl;
    (destruct (str_eqb _ _ && _); simpl;
     (destruct (proxy_server c) as [[|? ?]|]; simpl;
      [by eexists _, _
      |destruct (proxy_port c) as [p|]; simpl;
       [destruct (p =? 0)%Z; simpl;
        [by eexists _, _
        |destruct ((p <? 1)%Z || (65535 <? p)%Z); simpl; by eexists _, _]
       |by eexists _, _]
      |by eexists _, _])).
Qed.

Lemma _validate_urls_returns (c : config) :
  exists tr, _validate_urls c tt = (Return tt, tt, tr).
Proof.
  unfold _validate_urls, check_url, bind, ret, emit.
  destruct (portfolio_url c) as [|? ?]; simpl;
    [|destruct (is_http_url _); simpl];
    (destruct (cv_url c) as [[|? ?]|]; simpl;
     [|destruct (is_http_url _); simpl|]); by eexists.
Qed.

Lemma optional_str_returns (env : environ) (name : string) :
  exists v, optional_str env name tt = (Return v, tt, []).
Proof.
  unfold optional_str. destruct (env !! name) as [[|? ?]|]; by eexists.
Qed.

Lemma optional_int_returns (env : environ) (name : string) :
  exists v tr, optional_int env name tt = (Return v, tt, tr).
Proof.
  unfold optional_int.
  destruct (env !! name) as [[|? ?]|]; [by eexists _, _ | | by eexists _, _].
  destruct (parse_int _); by eexists _, _.
Qed.

Lemma required_str_set (env : environ) (name : string) (v : str) :
  env !! name = Some v -> truthy v = true ->
  required_str env name tt = (Return v, tt, []).
Proof. intros Hv Ht. unfold required_str. rewrite Hv. by destruct v. Qed.

Lemma required_int_set (env : environ) (name : string) (v : str) (n : Z) :
  env !! name = Some v -> truthy v = true -> parse_int v = Some n ->
  required_int env name tt = (Return n, tt, []).
Proof.
  intros Hv Ht Hn. unfold required_int. rewrite Hv.
  destruct v; [done|]. by rewrite Hn.
Qed.

(** What is left of [validate_config] once the required settings are
    read and the channel list is not empty: it returns, with that list. *)
Lemma validate_config_tail (env : environ) (id : Z) (hash key portfolio : str)
    (chans : list str) :
  exists c tr,
    (let! cv := optional_str env "CV_URL" in
     let! ptype := optional_str env "PROXY_TYPE" in
     let! pserver := optional_str env "PROXY_SERVER" in
     let! pport := optional_int env "PROXY_PORT" in
     let! psecret := optional_str env "PROXY_SECRET" in
     let! resume := optional_str env "RESUME_FILENAME" in
     let c := {| api_id := id; api_hash := hash; gemini_api_key := key;
                 channels := chans; portfolio_url := portfolio;
                 cv_url := cv; proxy_type := ptype; proxy_server := pserver;
                 proxy_port := pport; proxy_secret := psecret;
                 resume_filename :=
                   match resume with
                   | Some r => r
                   | None => default_resume_filename
                   end |} in
     let! c' := _validate_proxy_config c in
     do! _validate_urls c' in
     do! emit (INFO, ValidationCompleted) in
     ret c') tt = (Return c, tt, tr)
    /\ channels c = chans.
Proof.
  destruct (optional_str_returns env "CV_URL") as [cv Hcv].
  destruct (optional_str_returns env "PROXY_TYPE") as [pt Hpt].
  destruct (optional_str_returns env "PROXY_SERVER") as [ps Hps].
  destruct (optional_int_returns env "PROXY_PORT") as (pp & tr1 & Hpp).
  destruct (optional_str_returns env "PROXY_SECRET") as [psec Hpsec].
  destruct (optional_str_returns env "RESUME_FILENAME") as [rf Hrf].
  set (c := {| api_id := id; api_hash := hash; gemini_api_key := key;
               channels := chans; portfolio_url := portfolio;
               cv_url := cv; proxy_type := pt; proxy_server := ps;
               proxy_port := pp; proxy_secret := psec;
               resume_filename :=
                 match rf with
                 | Some r => r
                 | None => default_resume_filename
                 end |}).
  destruct (_validate_proxy_config_channels c) as (c' & tr2 & Hc' & Hch).
  destruct (_validate_urls_returns c') as [tr3 Hurls].
  exists c'. eexists. split; [|exact Hch].
  eapply bind_Return; [exact Hcv|].
  eapply bind_Return; [exact Hpt|].
  eapply bind_Return; [exact Hps|].
  eapply bind_Return; [exact Hpp|].
  eapply bind_Return; [exact Hpsec|].
  eapply bind_Return; [exact Hrf|].
  cbv zeta.
  eapply bind_Return; [exact Hc'|].
  eapply bind_Return; [exact Hurls|].
  reflexivity.
Qed.

(** C7. For every channel-list string, read with the other required
    settings present and well typed: the entries are the comma-separated
    pieces, stripped, without the empty ones and in the order of the text;
    each is non-empty with no white space at its ends; [validate_config]
    returns a configuration holding exactly these entries when there is
    one at least, and raises [ValueError] when there is none. *)
Theorem validate_config_channels (env : environ) (id hash key s portfolio : str) (n : Z) :
  env !! "API_ID" = Some id -> truthy id = true -> parse_int id = Some n ->
  env !! "API_HASH" = Some hash -> truthy hash = true ->
  env !! "GEMINI_API_KEY" = Some key -> truthy key = true ->
  env !! "CHANNELS" = Some s ->
  env !! "PORTFOLIO_URL" = Some portfolio -> truthy portfolio = true ->
  Forall (fun ch => ch <> [] /\ trimmed ch) (channel_entries s)
  /\ (channel_entries s <> [] ->
      exists c tr, validate_config env tt = (Return c, tt, tr)
                   /\ channels c = channel_entries s)
  /\ (channel_entries s = [] ->
      exists msg tr, validate_config env tt = (Raise (ValueError msg), tt, tr)).
Proof.
  intros Hid Tid Pid Hhash Thash Hkey Tkey Hs Hp Tp.
  split; [apply channel_entries_trimmed|].
  rewrite <- parse_channels_entries.
  destruct (truthy s) eqn:Ts; cycle 1.
  { destruct s; [|done]. split; [done|]. intros _. eexists _, _.
    unfold validate_config.
    erewrite bind_silent by (eapply required_int_set; eassumption).
    do 2 (erewrite bind_silent by (eapply required_str_set; eassumption)).
    apply bind_Raise. unfold required_str. by rewrite Hs. }
  assert (Hrun : forall r tr,
    match parse_channels s with
    | [] => raise (St:=unit) (Ev:=ConfigValidator.log) (A:=config)
              (ValueError "No valid channels found in CHANNELS environment variable") tt
    | _ :: _ =>
      (let! cv := optional_str env "CV_URL" in
       let! ptype := optional_str env "PROXY_TYPE" in
       let! pserver := optional_str env "PROXY_SERVER" in
       let! pport := optional_int env "PROXY_PORT" in
       let! psecret := optional_str env "PROXY_SECRET" in
       let! resume := optional_str env "RESUME_FILENAME" in
       let c := {| api_id := n; api_hash := hash; gemini_api_key := key;
                   channels := parse_channels s; portfolio_url := portfolio;
                   cv_url := cv; proxy_type := ptype; proxy_server := pserver;
                   proxy_port := pport; proxy_secret := psecret;
                   resume_filename :=
                     match resume with
                     | Some r => r
                     | None => default_resume_filename
                     end |} in
       let! c' := _validate_proxy_config c in
       do! _validate_urls c' in
       do! emit (INFO, ValidationCompleted) in
       ret c') tt
    end = (r, tt, tr) ->
    validate_config env tt = (r, tt, tr)).
  { intros r tr Hrest. unfold validate_config.
    erewrite bind_silent by (eapply required_int_set; eassumption).
    do 4 (erewrite bind_silent by (eapply required_str_set; eassumption)).
    cbv beta zeta. by destruct (parse_channels s). }
  split.
  - intros Hne.
    destruct (validate_config_tail env n hash key portfolio (parse_channels s))
      as (c & tr & Heq & Hch).
    exists c, tr. split; [|exact Hch].
    apply Hrun. destruct (parse_channels s); [done | exact Heq].
  - intros Hnil. eexists _, _. apply Hrun. rewrite Hnil. reflexivity.
Qed.

End ConfigValidatorFacts.

(* ================================================================== *)
(** * Properties of session_handler.py *)
(* ================================================================== *)

Section SessionHandlerFacts.
Import ConfigValidator SessionHandler.
Context `{Unicode}.

Lemma create_client_without_proxy (c : config) (construct : option exn)
    (tr : list SessionHandler.log) :
  _get_proxy_config c tt = (Return None, tt, tr) ->
  create_client c construct tt
  = (constructed construct (client_without_proxy c), tt,
     (tr ++ [(INFO, CreatingWithoutProxy)])%list).
Proof.
  intros Hp. unfold create_client. rewrite bind_run, Hp.
  destruct construct; by rewrite ?app_nil_r.
Qed.

(** C6, as the code has it. With proxy type [mtproto] (in any letter
    case) and a secret that [bytes.fromhex] rejects, [_get_proxy_config]
    returns [None] and raises nothing. The error about the secret's
    format is logged, and nothing else, when type, server and port are
    all set; when the server or the port is missing the method has
    already returned [None] at its first test and nothing is logged.
    [create_client] then takes the branch without a proxy: it logs that
    and ends as the constructor does, with the client without a proxy
    when the constructor returns. *)
Theorem mtproto_invalid_secret_no_proxy (c : config) (t secret : str) :
  proxy_type c = Some t -> lower t = utf8 "mtproto" ->
  proxy_secret c = Some secret -> fromhex secret = None ->
  exists tr,
    _get_proxy_config c tt = (Return None, tt, tr)
    /\ (forall construct,
        create_client c construct tt
        = (constructed construct (client_without_proxy c), tt,
           (tr ++ [(INFO, CreatingWithoutProxy)])%list))
    /\ (all_set c = true -> tr = [(ERROR, InvalidProxySecretFormat)])
    /\ (all_set c = false -> tr = []).
Proof.
  intros Ht Hl Hs Hhex.
  assert (Hget : exists tr,
    _get_proxy_config c tt = (Return None, tt, tr)
    /\ (all_set c = true -> tr = [(ERROR, InvalidProxySecretFormat)])
    /\ (all_set c = false -> tr = [])).
  { unfold _get_proxy_config. rewrite Ht.
    destruct (proxy_server c) as [server|] eqn:Hserver;
      [|exists []; repeat split; try done;
        unfold all_set; rewrite Hserver, andb_false_r; done].
    destruct (proxy_port c) as [port|] eqn:Hport;
      [|exists []; repeat split; try done;
        unfold all_set; rewrite Hport, andb_false_r; done].
    destruct (all_set c) eqn:Hall; [|by exists []].
    exists [(ERROR, InvalidProxySecretFormat)].
    split; [|done].
    cbv zeta. rewrite Hl.
    change (str_eqb (utf8 "mtproto") (utf8 "socks5")) with false.
    change (str_eqb (utf8 "mtproto") (utf8 "http")) with false.
    change (str_eqb (utf8 "mtproto") (utf8 "mtproto")) with true.
    cbv iota. rewrite Hs.
    assert (truthy_opt (Some secret) = true) as ->.
    { destruct secret; [by rewrite fromhex_empty in Hhex | done]. }
    rewrite Hhex.
    reflexivity. }
  destruct Hget as (tr & Hget & Hlog).
  exists tr. split; [exact Hget|]. split; [|exact Hlog].
  intros construct. by apply create_client_without_proxy.
Qed.

End SessionHandlerFacts.

(* ================================================================== *)
(** * Properties of message_processor.py: generation and delivery *)
(* ================================================================== *)

Section DeliveryFacts.
Import ConfigValidator MessageProcessor.

Ltac unfold_proc :=
  unfold send_response_to_user, _send_resume_file, send_link_if_set,
    generate_custom_message, model_generate_content,
    client_send_message, client_send_file, client_get_entity, finish,
    try_except, bind, ret, raise, emit, get, modify.

Ltac when_in_goal t tac :=
  match goal with
  | |- context [t] => tac
  | _ => idtac
  end.

(** Cases on everything the world answers during a delivery. *)
Ltac each_outcome sc self :=
  when_in_goal (get_entity sc)
    ltac:(destruct (get_entity sc) as [?|[]] eqn:?; cbv beta iota);
  when_in_goal (send_text sc)
    ltac:(destruct (send_text sc) as [[]|] eqn:?; cbv beta iota);
  try match goal with
  | |- context [find ?f ?l] =>
    destruct (find f l) as [[|? ?]|] eqn:?; cbv beta iota
  end;
  when_in_goal (truthy (portfolio_url (config self)))
    ltac:(destruct (truthy (portfolio_url (config self))) eqn:?; cbv beta iota);
  when_in_goal (send_file sc)
    ltac:(destruct (send_file sc) as [?|] eqn:?; cbv beta iota);
  when_in_goal (send_link sc)
    ltac:(destruct (send_link sc) as [[]|] eqn:?; cbv beta iota).

Ltac find_elem :=
  solve [repeat first [apply list_elem_of_here | apply list_elem_of_further]].

Ltac split_elem :=
  cbn [app] in *;
  repeat match goal with
  | H : _ ∈ [] |- _ => by apply elem_of_nil in H
  | H : _ ∈ _ :: _ |- _ => apply elem_of_cons in H as [H|H]
  | H : ex _ |- _ => destruct H
  | H : _ \/ _ |- _ => destruct H
  end.

(** ** [generate_custom_message] *)

(** C8. When the processor holds no model, or the completion request (or
    reading its text) raises, [generate_custom_message] returns the fixed
    template; the object is left as it was and nothing is raised. The
    template does not depend on the job text: two calls that fall back,
    on any texts, in any states, return the same string. *)
Theorem generate_custom_message_fallback (sc : scenario) (job_text : str)
    (self : processor) :
  (model self = None ->
   generate_custom_message sc job_text self
   = (Return _get_fallback_message, self, []))
  /\ (forall e, model self <> None -> generate_content sc = Raise e ->
      generate_custom_message sc job_text self
      = (Return _get_fallback_message, self,
         [GenerateContent (prompt_for job_text) (Raise e);
          Log ERROR (ErrorGeneratingResponse e)]))
  /\ (forall sc' job_text' self' r r' s s' tr tr',
      (model self = None \/ exists e, generate_content sc = Raise e) ->
      (model self' = None \/ exists e, generate_content sc' = Raise e) ->
      generate_custom_message sc job_text self = (r, s, tr) ->
      generate_custom_message sc' job_text' self' = (r', s', tr') ->
      r = Return _get_fallback_message /\ r' = r).
Proof.
  assert (Hfb : forall sc job_text self,
    (model self = None \/ exists e, generate_content sc = Raise e) ->
    exists tr, generate_custom_message sc job_text self
               = (Return _get_fallback_message, self, tr)).
  { intros sc0 t0 self0 Hc. unfold_proc.
    destruct (model self0) as [?|]; [|by eexists].
    destruct Hc as [?|[e He]]; [done|]. rewrite He. by eexists. }
  repeat split.
  - intros Hm. unfold_proc. by rewrite Hm.
  - intros e Hm He. unfold_proc. destruct (model self); [|done]. by rewrite He.
  - destruct (Hfb sc job_text self) as [? Heq]; [done|]. congruence.
  - destruct (Hfb sc job_text self) as [? Heq]; [done|].
    destruct (Hfb sc' job_text' self') as [? Heq']; [done|]. congruence.
Qed.


(** A model is there only when a key is set and the client was set up. *)
Lemma init_without_model (cfg : ConfigValidator.config) (configure : option exn) :
  truthy (gemini_api_key cfg) = false \/ configure <> None ->
  model (fst (__init__ cfg configure)) = None.
Proof.
  unfold __init__. intros [->|Hc]; [done|].
  destruct (truthy _); [|done]. by destruct configure.
Qed.

(** ** [send_response_to_user] *)

(** The only field a delivery writes is the time of the last message to
    the handle, and only when it returns [True]. *)
Lemma send_response_state (sc : scenario) (username message : str)
    (self : processor) :
  match send_response_to_user sc username message self with
  | (Return true, self', _) =>
    rate_limited self (now sc) username = false
    /\ self' = set_last_message_time
                 (<[username := now sc]> (last_message_time self)) self
  | (_, self', _) => self' = self
  end.
Proof.
  unfold_proc.
  destruct (rate_limited self (now sc) username) eqn:Hrl; [done|].
  each_outcome sc self; done.
Qed.

Lemma send_response_rate_limited (sc : scenario) (username message : str)
    (self : processor) :
  rate_limited self (now sc) username = true ->
  send_response_to_user sc username message self
  = (Return false, self, [Log INFO (RateLimitingSkipping username)]).
Proof. intros Hrl. unfold_proc. by rewrite Hrl. Qed.

Lemma rate_limited_false (self : processor) (t : Q) (username : str) :
  rate_limited self t username = false ->
  (rate_limit_delay self
   <= t - default 0%Q (last_message_time self !! username))%Q.
Proof. unfold rate_limited. by destruct (Qlt_le_dec _ _). Qed.

Lemma cooling_send (sc : scenario) (username message u : str)
    (self : processor) (t : Q) :
  cooling self u t ->
  cooling (send_response_to_user sc username message self).1.2 u t.
Proof.
  intros Hc.
  pose proof (send_response_state sc username message self) as Hst.
  destruct (send_response_to_user sc username message self) as [[r self'] tr].
  simpl. destruct r as [[|]|]; [|by subst..].
  destruct Hc as [Hd (t0 & Ht0 & Hle)].
  destruct Hst as [Hrl ->]. split; [done|]. simpl.
  destruct (decide (username = u)) as [->|Hne].
  - exists (now sc). split; [by rewrite lookup_insert_eq|].
    apply rate_limited_false in Hrl. rewrite Ht0, Hd in Hrl. simpl in Hrl. lra.
  - exists t0. by rewrite lookup_insert_ne.
Qed.

Lemma cooling_send_all (calls : list (scenario * str * str)) (u : str)
    (self : processor) (t : Q) :
  cooling self u t -> cooling (send_all self calls) u t.
Proof.
  revert self. induction calls as [|[[sc username] message] calls IH];
    intros self Hc; [done|].
  simpl. apply IH. by apply cooling_send.
Qed.

Ltac use_outcomes :=
  unfold attachment_raises, link_raises, resume_path;
  repeat match goal with
  | H : ?x = _ |- _ => rewrite H
  end.

(** A delivery returns [True] exactly when the reply text went out and
    the attachment step after it raised nothing; the only handle it logs
    as written to is its own, once the text has gone to the entity that
    handle resolved to; and unless it returns [True] it leaves the
    object as it was. *)
Lemma send_response_completes (sc : scenario) (username message : str)
    (self self' : processor) (r : result bool) (tr : list action) :
  send_response_to_user sc username message self = (r, self', tr) ->
  (r = Return true <->
   Log INFO (MessageSentTo username) ∈ tr /\ attachment_raises sc self = None)
  /\ (forall u, Log INFO (MessageSentTo u) ∈ tr ->
      u = username
      /\ exists to, get_entity sc = Return to
                    /\ SendMessage to message None ∈ tr)
  /\ (r <> Return true -> self' = self).
Proof.
  unfold_proc.
  destruct (rate_limited self (now sc) username) eqn:Hrl;
    [|each_outcome sc self];
    intros [= <- <- <-]; cbn [app]; use_outcomes;
    (split; [split|split]).
  all: try (intros [=]).
  all: try (intros [Hin Hat]).
  all: try (intros u Hin).
  all: try (intros Hne).
  all: try done.
  all: try (by split_elem).
  all: try (split; [find_elem | done]).
  all: try (split_elem; simplify_eq; split; [done|];
            eexists; split; [done | find_elem]).
Qed.

(** C2, as the code has it. A delivery returns [True] exactly when the
    reply text went out and the attachment step after it raised nothing.
    Once a delivery to a handle at time [t] has returned [True], and
    whatever deliveries are attempted afterwards, a delivery to the same
    handle at a time [t'] with [t' - t < 30] is skipped: it returns
    [False], calls no service, logs the skip and leaves the object as it
    was. A delivery that does not return [True], the one whose reply text
    went out before the portfolio link could not be sent included,
    leaves the object as it was: no time is written, and the next
    delivery is decided as if it had not taken place. *)
Theorem cooldown_skips_send (sc : scenario) (username message : str)
    (self self1 : processor) (r1 : result bool) (tr1 : list action)
    (calls : list (scenario * str * str)) (sc2 : scenario) (message2 : str) :
  rate_limit_delay self = 30%Q ->
  send_response_to_user sc username message self = (r1, self1, tr1) ->
  (now sc2 - now sc < 30)%Q ->
  (r1 = Return true <->
   Log INFO (MessageSentTo username) ∈ tr1 /\ attachment_raises sc self = None)
  /\ (Log INFO (MessageSentTo username) ∈ tr1 ->
      exists to, get_entity sc = Return to /\ SendMessage to message None ∈ tr1)
  /\ (r1 = Return true ->
      let self2 := send_all self1 calls in
      send_response_to_user sc2 username message2 self2
      = (Return false, self2, [Log INFO (RateLimitingSkipping username)]))
  /\ (r1 <> Return true -> self1 = self).
Proof.
  intros Hd Hsend Hlt.
  destruct (send_response_completes sc username message self self1 r1 tr1 Hsend)
    as (Hiff & Hsent & Hsame).
  split; [done|]. split; [intros Hin; by destruct (Hsent _ Hin)|].
  split; [|done].
  intros -> self2.
  apply send_response_rate_limited.
  assert (Hc : cooling self2 username (now sc)).
  { apply cooling_send_all.
    pose proof (send_response_state sc username message self) as Hst.
    rewrite Hsend in Hst. destruct Hst as [_ ->].
    split; [done|]. exists (now sc). simpl.
    split; [by rewrite lookup_insert_eq | apply Qle_refl]. }
  destruct Hc as [Hd2 (t0 & Ht0 & Hle)].
  unfold rate_limited. rewrite Ht0, Hd2. simpl.
  destruct (Qlt_le_dec _ _); [done|]. lra.
Qed.

(** C3, as the code has it. The record [Message sent to] is logged exactly
    when the text was sent. After it, the time is written against the
    handle if the attachment step raises nothing (file sent; file refused
    and the link sent instead or no link configured; no file found and
    the link sent or no link configured); if the link itself cannot be
    sent the call ends without writing the time. Without a text sent the
    time is never written. *)
Theorem timestamp_recorded_after_text (sc : scenario) (username message : str)
    (self self' : processor) (r : result bool) (tr : list action) :
  send_response_to_user sc username message self = (r, self', tr) ->
  (Log INFO (MessageSentTo username) ∈ tr <->
   rate_limited self (now sc) username = false
   /\ send_text sc = None
   /\ exists to, get_entity sc = Return to /\ SendMessage to message None ∈ tr)
  /\ (Log INFO (MessageSentTo username) ∈ tr ->
      attachment_raises sc self = None ->
      r = Return true
      /\ last_message_time self'
         = <[username := now sc]> (last_message_time self))
  /\ (Log INFO (MessageSentTo username) ∈ tr ->
      attachment_raises sc self <> None ->
      r <> Return true /\ last_message_time self' = last_message_time self)
  /\ (Log INFO (MessageSentTo username) ∉ tr ->
      r <> Return true /\ last_message_time self' = last_message_time self).
Proof.
  unfold_proc.
  destruct (rate_limited self (now sc) username) eqn:Hrl;
    [|each_outcome sc self];
    intros [= <- <- <-]; cbn [app]; use_outcomes;
    (split;
     [split;
      [first [ by intros; split_elem
             | intros _; repeat split; eexists; split; [done | set_solver] ]
      |first [ by intros (? & ? & ? & ? & ?) | intros _; set_solver ]]
     |]);
    repeat split; try done; try (by intros; split_elem); set_solver.
Qed.

(** ** Exceptions during a delivery *)

(** C4, as the code has it. Nothing but a flood-wait leaves
    [send_response_to_user]. A flood-wait raised by resolving the handle,
    by sending the text or by sending the portfolio link is raised again
    as it is, after a warning; any other exception raised there is logged
    and turned into [False]. An exception raised by sending the resume
    file, a flood-wait included, is caught inside [_send_resume_file] and
    logged, and the call still returns [True] unless a message fails. *)
Theorem flood_wait_reraised (sc : scenario) (username message : str)
    (self self' : processor) (r : result bool) (tr : list action) :
  send_response_to_user sc username message self = (r, self', tr) ->
  (forall e, r = Raise e -> is_flood_wait e = true /\ raised_by_client tr e)
  /\ (forall e, raised_by_client tr e -> is_flood_wait e = true ->
      r = Raise e
      /\ exists seconds, e = FloodWaitError seconds
                         /\ Log WARNING (FloodWait seconds) ∈ tr)
  /\ (forall e, raised_by_client tr e -> is_flood_wait e = false ->
      r = Return false
      /\ (Log ERROR (ErrorSendingMessage username e) ∈ tr
          \/ Log WARNING (UserNotFound username) ∈ tr
          \/ Log WARNING (UserPrivacyRestricted username) ∈ tr))
  /\ (forall e, raised_by_send_file tr e ->
      Log ERROR (ErrorSendingResume username e) ∈ tr
      /\ ((forall e', ~ raised_by_client tr e') -> r = Return true)).
Proof.
  unfold_proc. unfold raised_by_client, raised_by_send_file.
  destruct (rate_limited self (now sc) username) eqn:Hrl;
    [|each_outcome sc self];
    intros [= <- <- <-]; cbn [app]; repeat split.
  all: try (intros e [= <-]).
  all: try (intros e He Hfw).
  all: try (intros e He).
  all: try (intros Hnone).
  all: split_elem; simplify_eq; try done.
  all: try (by eexists; split; [done | set_solver]).
  all: try set_solver.
  all: exfalso; eapply Hnone; right; eexists _, _; find_elem.
Qed.

End DeliveryFacts.

(* ================================================================== *)
(** * Properties of message_processor.py: the callback *)
(* ================================================================== *)

Section CallbackFacts.
Import ConfigValidator MessageProcessor.
Context `{Unicode} `{SetLayout}.

(** ** The set *)

Lemma set_add_length (x : Z) (l : list Z) :
  NoDup l -> x ∉ l -> length (set_add x l) = S (length l).
Proof.
  intros Hnd Hx.
  change (S (length l)) with (length (x :: l)).
  apply Permutation_length, NoDup_Permutation.
  - by apply NoDup_set_add.
  - by constructor.
  - intros y. rewrite elem_of_set_add, elem_of_cons. done.
Qed.

Lemma last_n_length {A} (n : nat) (l : list A) :
  (n <= length l)%nat -> length (last_n n l) = n.
Proof. intros Hn. unfold last_n. rewrite length_drop. lia. Qed.

Lemma last_n_sublist {A} (n : nat) (l : list A) : sublist (last_n n l) l.
Proof. apply sublist_drop. Qed.

Lemma truncated_NoDup (l : list Z) : NoDup l -> NoDup (truncated l).
Proof.
  intros Hnd. unfold truncated.
  destruct (1000 <? length l)%nat; [apply NoDup_set_of_list | done].
Qed.

(** Past the mark, exactly 500 elements of the set are kept. *)
Lemma truncated_length (l : list Z) :
  NoDup l -> (1000 < length l)%nat ->
  length (truncated l) = 500%nat /\ forall y, y ∈ truncated l -> y ∈ l.
Proof.
  intros Hnd Hlen. unfold truncated.
  destruct (Nat.ltb_spec 1000 (length l)) as [_|?]; [|lia].
  split.
  - rewrite <- (last_n_length 500 l) at 2 by lia.
    apply Permutation_length, NoDup_Permutation.
    + apply NoDup_set_of_list.
    + eapply sublist_NoDup; [exact Hnd | apply last_n_sublist].
    + intros y. apply elem_of_set_of_list.
  - intros y Hy. rewrite elem_of_set_of_list in Hy.
    eapply elem_of_sublist; [exact Hy | apply last_n_sublist].
Qed.

Lemma mark_processed_eq (id : Z) (self : processor) :
  mark_processed id self
  = (Return tt,
     set_processed_messages
       (truncated (set_add id (processed_messages self))) self, []).
Proof.
  unfold mark_processed, truncated, bind, modify, get, ret. simpl.
  by destruct (1000 <? _)%nat.
Qed.

(** ** What one handling does *)

Lemma replied_app (t1 t2 : list action) :
  replied (t1 ++ t2) = replied t1 || replied t2.
Proof. apply existsb_app. Qed.

Lemma generate_custom_message_quiet (sc : scenario) (text : str)
    (self : processor) :
  exists msg tr, generate_custom_message sc text self = (Return msg, self, tr)
                 /\ replied tr = false.
Proof.
  unfold generate_custom_message, model_generate_content, try_except, bind,
    ret, emit, raise, get.
  destruct (model self); [destruct (generate_content sc)|]; by eexists _, _.
Qed.

Lemma send_response_quiet (sc : scenario) (username message : str)
    (self : processor) :
  replied (send_response_to_user sc username message self).2 = false.
Proof.
  unfold send_response_to_user, _send_resume_file, send_link_if_set,
    client_send_message, client_send_file, client_get_entity, finish,
    try_except, bind, ret, raise, emit, get, modify.
  destruct (rate_limited self (now sc) username); [done|].
  destruct (get_entity sc) as [?|[]]; try done;
  destruct (send_text sc) as [[]|]; try done;
  destruct (find _ _) as [[|? ?]|];
  destruct (truthy _); destruct (send_file sc) as [?|];
  destruct (send_link sc) as [[]|]; done.
Qed.

(** Generating and sending: either the reply went out, the id is recorded
    and the set cut back if it has grown past the mark, or the object is
    as before. *)
Lemma respond_cases (sc : scenario) (ev : event) (text username : str)
    (self : processor) :
  exists r self' tr,
    respond sc ev text username self = (r, self', tr)
    /\ ((replied tr = true /\ r = Return tt
         /\ processed_messages self'
            = truncated (set_add (message_id ev) (processed_messages self)))
        \/ (replied tr = false /\ self' = self)).
Proof.
  unfold respond.
  destruct (generate_custom_message_quiet sc text self)
    as (msg & tr0 & Hgen & Hq0).
  pose proof (send_response_state sc username msg self) as Hst.
  pose proof (send_response_quiet sc username msg self) as Hq1.
  destruct (send_response_to_user sc username msg self)
    as [[r1 self1] tr1] eqn:Hsend.
  simpl in Hq1.
  destruct r1 as [[|]|e].
  - destruct Hst as [_ ->]. eexists _, _, _. split.
    + eapply bind_Return; [exact Hgen|].
      eapply bind_Return; [exact Hsend|].
      eapply bind_Return; [reflexivity|].
      apply mark_processed_eq.
    + left. rewrite !replied_app, Hq0, Hq1. done.
  - subst self1. eexists _, _, _. split.
    + eapply bind_Return; [exact Hgen|].
      eapply bind_Return; [exact Hsend|]. reflexivity.
    + right. rewrite !replied_app, Hq0, Hq1. done.
  - subst self1. eexists _, _, _. split.
    + eapply bind_Return; [exact Hgen|].
      eapply bind_Raise. exact Hsend.
    + right. rewrite !replied_app, Hq0, Hq1. done.
Qed.

Ltac unchanged := eexists _, _; split; [reflexivity | right].

(** [process_message] never raises. It either replies, and then the id
    was new and is added to the set, or leaves the object as it was. *)
Lemma process_message_cases (sc : scenario) (ev : event) (self : processor) :
  exists self' tr,
    process_message sc ev self = (Return tt, self', tr)
    /\ ((replied tr = true /\ (message_id ev ∉ processed_messages self)
         /\ processed_messages self'
            = truncated (set_add (message_id ev) (processed_messages self)))
        \/ (replied tr = false /\ self' = self)).
Proof.
  unfold process_message.
  unfold try_except, bind at 1, get.
  destruct (bool_decide (message_id ev ∈ processed_messages self)) eqn:Hin;
    [by unchanged|].
  apply bool_decide_eq_false in Hin.
  destruct (message_text ev) as [[|c t]|]; [by unchanged| |by unchanged].
  destruct (length (strip (c :: t)) <? 10)%nat; [by unchanged|].
  unfold bind at 1, emit.
  destruct (negb (contains_ui_keywords (c :: t))); [by unchanged|].
  unfold bind at 1.
  destruct (extract_contact_info (c :: t) !! "username") as [[|u us]|];
    [by unchanged| |by unchanged].
  unfold bind at 1.
  destruct (respond_cases sc ev (c :: t) (u :: us) self)
    as (r & self' & tr & -> & Hcases).
  destruct Hcases as [(Hr & -> & Hpm)|(Hr & ->)].
  - eexists _, _. split; [reflexivity|]. left.
    split; [|done]. cbn [app]. exact Hr.
  - destruct r as [[]|e]; eexists _, _; (split; [reflexivity|]); right;
      (split; [|done]); cbn [app replied existsb is_success_log orb];
      fold (replied tr); rewrite ?replied_app, Hr; done.
Qed.


(** C10. An event without text, with empty text, or whose text stripped
    of white space has fewer than 10 characters is dropped at once:
    [process_message] returns with the object unchanged and nothing
    logged or sent; not even the record that precedes the keyword check
    is written. *)
Theorem process_message_skips_short (sc : scenario) (ev : event)
    (self : processor) :
  (message_text ev = None
   \/ exists text, message_text ev = Some text
                   /\ (text = [] \/ (length (strip text) < 10)%nat)) ->
  process_message sc ev self = (Return tt, self, []).
Proof.
  intros Hshort. unfold process_message, try_except, bind, get.
  destruct (bool_decide _); [done|].
  destruct Hshort as [->|(text & -> & [->|Hlen])]; [done..|].
  destruct text; [done|].
  apply Nat.ltb_lt in Hlen. by rewrite Hlen.
Qed.

(** ** The set stays bounded *)

(** After every handling the set holds each id once and at most 1000 of
    them; a handling that pushes it past 1000 leaves 500, all of them
    among those it held. Which 500 is for the layout of the set to say. *)
Lemma processed_messages_bounded (sc : scenario) (ev : event)
    (self : processor) :
  NoDup (processed_messages self) ->
  (length (processed_messages self) <= 1000)%nat ->
  let self' := (process_message sc ev self).1.2 in
  NoDup (processed_messages self')
  /\ (length (processed_messages self') <= 1000)%nat
  /\ (length (processed_messages self) = 1000%nat ->
      self' <> self ->
      length (processed_messages self') = 500%nat
      /\ forall y, y ∈ processed_messages self' ->
                   y = message_id ev \/ y ∈ processed_messages self).
Proof.
  intros Hnd Hlen.
  destruct (process_message_cases sc ev self) as (self' & tr & -> & Hcases).
  simpl. destruct Hcases as [(_ & Hnew & ->)|(_ & ->)]; [|done].
  pose proof (set_add_length (message_id ev) _ Hnd Hnew) as Hadd.
  pose proof (NoDup_set_add (message_id ev) _ Hnd) as Hnd'.
  split; [by apply truncated_NoDup|].
  destruct (decide (length (processed_messages self) = 1000%nat)) as [Heq|Hne].
  - destruct (truncated_length (set_add (message_id ev) (processed_messages self)))
      as [H500 Hsub]; [done | lia |].
    split; [lia|]. intros _ _. split; [done|].
    intros y Hy. apply Hsub in Hy. by apply elem_of_set_add in Hy.
  - split; [|done]. unfold truncated.
    destruct (Nat.ltb_spec 1000 (length (set_add (message_id ev)
                                           (processed_messages self)))); lia.
Qed.

(** ** Runs *)

(** So the bound holds all along a run that starts within it, as one
    that starts from a new processor does. *)
Lemma processed_messages_bounded_run (inputs : list (scenario * event))
    (self : processor) :
  NoDup (processed_messages self) ->
  (length (processed_messages self) <= 1000)%nat ->
  NoDup (processed_messages (state_after self inputs))
  /\ (length (processed_messages (state_after self inputs)) <= 1000)%nat.
Proof.
  revert self. induction inputs as [|[sc ev] inputs IH]; intros self Hnd Hlen;
    [done|].
  cbn [state_after].
  destruct (processed_messages_bounded sc ev self Hnd Hlen) as (Hnd' & Hlen' & _).
  by apply IH.
Qed.









End CallbackFacts.

(* ================================================================== *)
(** * Properties of message_processor.py: the handle pattern *)
(* ================================================================== *)

Section HandleFacts.
Import ConfigValidator MessageProcessor Re.
Context `{Unicode} `{SetLayout}.

Lemma handle_run_prefix (s : str) : handle_run s `prefix_of` s.
Proof.
  induction s as [|c s IH]; simpl; [done|].
  destruct (handle_char c); [by apply prefix_cons | apply prefix_nil].
Qed.

Lemma handle_run_all (s : str) : Forall (fun c => handle_char c = true) (handle_run s).
Proof.
  induction s as [|c s IH]; simpl; [constructor|].
  destruct (handle_char c) eqn:Hc; by constructor.
Qed.

(** The run is maximal: what follows it does not extend it. *)
Lemma handle_run_maximal (s : str) :
  exists tl, s = (handle_run s ++ tl)%list
             /\ forall c, head tl = Some c -> handle_char c = false.
Proof.
  induction s as [|c s (tl & Hs & Hhd)]; simpl.
  - by exists [].
  - destruct (handle_char c) eqn:Hc.
    + exists tl. simpl. by rewrite <- Hs.
    + exists (c :: s). split; [done|]. simpl. congruence.
Qed.

Lemma take_handle_run (s : str) : take (length (handle_run s)) s = handle_run s.
Proof.
  induction s as [|c s IH]; simpl; [done|].
  destruct (handle_char c); simpl; [by rewrite IH | done].
Qed.

Lemma eat_pos p s i c : pos (eat p s i c) = (i + length (handle_run s))%nat.
Proof.
  revert p i. induction s as [|ch s IH]; intros p i; simpl; [lia|].
  destruct (handle_char ch); simpl; [rewrite IH|]; lia.
Qed.

Lemma eat_caps p s i c : caps (eat p s i c) = c.
Proof.
  revert p i. induction s as [|ch s IH]; intros p i; simpl; [done|].
  by destruct (handle_char ch).
Qed.

(** The repetition takes the whole run when what follows the pattern
    accepts that. *)
Lemma star_loop_handle (fuel : nat) p s i c k x :
  (length s <= fuel)%nat ->
  k (eat p s i c) = Some x ->
  star_loop (rmatch (Chr handle_char)) fuel
    {| prev := p; rest := s; pos := i; caps := c |} k = Some x.
Proof.
  revert p s i. induction fuel as [|fuel IH]; intros p s i Hlen Hk.
  - destruct s; [done | simpl in Hlen; lia].
  - destruct s as [|ch s]; simpl in *; [by rewrite Hk|].
    destruct (handle_char ch) eqn:Hch; [|by rewrite Hk].
    unfold advance. simpl.
    destruct (Nat.ltb_spec i (S i)) as [_|?]; [|lia].
    rewrite IH; [done | lia | done].
Qed.

(** At an [@] followed by a handle character the pattern matches, with
    the run as its group. *)
Lemma rmatch_username_at p d ds i :
  handle_char d = true ->
  rmatch username_re
    {| prev := p; rest := chr "@" :: d :: ds; pos := i; caps := [] |} Some
  = Some (close_group 1 (S i) (eat (Some d) ds (S (S i)) [])).
Proof.
  intros Hd. simpl. rewrite Hd. unfold advance. simpl.
  by apply star_loop_handle.
Qed.

(** Anywhere else it does not. *)
Lemma rmatch_username_other p c tl i k :
  c <> chr "@" ->
  rmatch username_re {| prev := p; rest := c :: tl; pos := i; caps := [] |} k
  = None.
Proof.
  intros Hc. unfold username_re, Lit. cbn [rmatch rest].
  destruct (N.eqb_spec (chr "@") c) as [Heq|_]; [by subst | done].
Qed.

Lemma search_username (text pre : str) p d ds i :
  chr "@" ∉ pre -> handle_char d = true ->
  search_from username_re text p (pre ++ chr "@" :: d :: ds)%list i
  = Some {| m_text := text;
            m_start := length pre + i;
            m_end := S (S (length pre + i)) + length (handle_run ds);
            m_caps := [(1, (S (length pre + i),
                            S (S (length pre + i)) + length (handle_run ds)))]%nat |}.
Proof.
  intros Hpre Hd. revert p i.
  induction pre as [|c pre IH]; intros p i.
  - cbn [app search_from]. rewrite rmatch_username_at by done.
    cbn [close_group pos caps]. by rewrite eat_pos, eat_caps.
  - apply not_elem_of_cons in Hpre as [Hc Hpre].
    cbn [app search_from]. rewrite rmatch_username_other by done.
    rewrite IH by done. cbn [length]. by rewrite !Nat.add_succ_r.
Qed.

(** The handle found after the first [@] of a text, when a letter, a
    digit or an underscore follows it. *)
Lemma extract_username_first_at (pre suf : str) (d : char) (ds : str) :
  chr "@" ∉ pre -> suf = d :: ds -> handle_char d = true ->
  extract_username (pre ++ chr "@" :: suf) = Some (handle_run suf).
Proof.
  intros Hpre -> Hd. unfold extract_username, search.
  rewrite (search_username _ pre None d ds 0) by done.
  unfold group, slice. cbn [assoc m_caps m_text Nat.eqb].
  f_equal. rewrite Nat.add_0_r.
  replace (S (S (length pre)) + length (handle_run ds) - S (length pre))%nat
    with (S (length (handle_run ds))) by (clear; lia).
  replace (S (length pre)) with (length (pre ++ [chr "@"])%list)
    by (rewrite length_app; simpl; clear; lia).
  rewrite (cons_middle (chr "@") pre (d :: ds)), app_assoc, drop_app_length.
  simpl. rewrite Hd. by rewrite take_handle_run.
Qed.

Lemma handle_run_app (s t : str) :
  (exists c, c ∈ s /\ handle_char c = false) ->
  handle_run (s ++ t) = handle_run s.
Proof.
  intros (c & Hin & Hc). induction s as [|x s IH]; [by apply elem_of_nil in Hin|].
  simpl. destruct (handle_char x) eqn:Hx; [|done].
  f_equal. apply IH. apply elem_of_cons in Hin as [->|Hin]; [congruence | done].
Qed.

Lemma put_if_set_other (key key' : string) (v : option str)
    (d : gmap string str) :
  key <> key' -> put_if_set key v d !! key' = d !! key'.
Proof. intros Hne. destruct v; simpl; [by rewrite lookup_insert_ne | done]. Qed.

Lemma extract_contact_info_username (text : str) :
  extract_contact_info text !! "username"
  = match extract_username text with
    | Some (c :: u) => Some (c :: u)
    | _ => None
    end.
Proof.
  unfold extract_contact_info.
  rewrite !put_if_set_other by done.
  destruct (extract_username text) as [[|? ?]|];
    [done | by rewrite lookup_insert_eq | done].
Qed.

(** Unless the cooldown stops it, a delivery starts by resolving the
    handle. *)
Lemma send_response_resolves (sc : scenario) (username message : str)
    (self : processor) :
  rate_limited self (now sc) username = false ->
  GetEntity username (get_entity sc)
  ∈ (send_response_to_user sc username message self).2.
Proof.
  intros Hrl.
  unfold send_response_to_user, _send_resume_file, send_link_if_set,
    client_send_message, client_send_file, client_get_entity, finish,
    try_except, bind, ret, raise, emit, get, modify.
  rewrite Hrl.
  destruct (get_entity sc) as [?|[]]; try (by left);
  destruct (send_text sc) as [[]|]; try (by left);
  destruct (find _ _) as [[|? ?]|];
  destruct (truthy _); destruct (send_file sc) as [?|];
  destruct (send_link sc) as [[]|]; by left.
Qed.

Lemma respond_resolves (sc : scenario) (ev : event) (text username : str)
    (self : processor) :
  exists r self' tr,
    respond sc ev text username self = (r, self', tr)
    /\ (rate_limited self (now sc) username = false ->
        GetEntity username (get_entity sc) ∈ tr).
Proof.
  unfold respond.
  destruct (generate_custom_message_quiet sc text self)
    as (msg & tr0 & Hgen & _).
  pose proof (send_response_resolves sc username msg self) as Hres.
  destruct (send_response_to_user sc username msg self)
    as [[r1 self1] tr1] eqn:Hsend.
  simpl in Hres.
  destruct r1 as [success|e].
  - destruct ((if success
               then do! emit (Log INFO (SuccessfullyProcessed username)) in
                    mark_processed (message_id ev)
               else ret tt) self1) as [[r2 self2] tr2] eqn:Hrest.
    eexists _, _, _. split.
    + eapply bind_Return; [exact Hgen|].
      eapply bind_Return; [exact Hsend|]. exact Hrest.
    + intros Hrl. rewrite !elem_of_app. auto.
  - eexists _, _, _. split.
    + eapply bind_Return; [exact Hgen|]. eapply bind_Raise. exact Hsend.
    + intros Hrl. rewrite !elem_of_app. auto.
Qed.

(** A posting that passes the tests and yields a handle is answered:
    the handle is logged and the delivery to it is started. *)
Lemma process_message_found (sc : scenario) (ev : event) (self : processor)
    (text handle : str) :
  message_text ev = Some text ->
  message_id ev ∉ processed_messages self ->
  (10 <= length (strip text))%nat ->
  contains_ui_keywords text = true ->
  extract_contact_info text !! "username" = Some handle ->
  truthy handle = true ->
  exists self' tr,
    process_message sc ev self = (Return tt, self', tr)
    /\ Log INFO (FoundUsername handle) ∈ tr
    /\ (rate_limited self (now sc) handle = false ->
        GetEntity handle (get_entity sc) ∈ tr).
Proof.
  intros Htext Hnew Hlen Hkw Hinfo Hh.
  unfold process_message, try_except. unfold bind at 1, get.
  rewrite bool_decide_eq_false_2 by done. rewrite Htext.
  destruct text as [|c t]; [simpl in Hlen; lia|].
  destruct (Nat.ltb_spec (length (strip (c :: t))) 10) as [?|_]; [lia|].
  unfold bind at 1, emit. rewrite Hkw. cbn [negb].
  unfold bind at 1. rewrite Hinfo.
  destruct handle as [|u us]; [done|].
  unfold bind at 1.
  destruct (respond_resolves sc ev (c :: t) (u :: us) self)
    as (r & self' & tr & -> & Hres).
  destruct r as [[]|e]; eexists _, _; (split; [reflexivity|]);
    cbn [app]; (split; [set_solver|]); intros Hrl; specialize (Hres Hrl);
    set_solver.
Qed.

(** C9. The handle pattern does not set e-mail addresses apart. In a
    text where an address [local@domain] holds the first [@], and the
    domain starts with a letter or a digit and has a dot, as the domain
    of an address does, [extract_username] returns the longest run of
    letters, digits and underscores after the [@]: a non-empty prefix of
    the domain. The contact information holds it as the user name, and a
    posting that passes the other tests is answered to that name: the
    handle is logged as found and, unless the cooldown applies, the
    delivery begins by resolving it. *)
Theorem handle_taken_from_email (pre local domain post : str)
    (d : char) (ds : str) :
  chr "@" ∉ pre -> chr "@" ∉ local ->
  domain = d :: ds -> is_alnum d = true -> chr "." ∈ domain ->
  let text := (pre ++ local ++ chr "@" :: domain ++ post)%list in
  let handle := handle_run domain in
  extract_username text = Some handle
  /\ handle <> []
  /\ handle `prefix_of` domain
  /\ handle = handle_run (domain ++ post)
  /\ extract_contact_info text !! "username" = Some handle
  /\ forall sc ev self,
       message_text ev = Some text ->
       message_id ev ∉ processed_messages self ->
       (10 <= length (strip text))%nat ->
       contains_ui_keywords text = true ->
       exists self' tr,
         process_message sc ev self = (Return tt, self', tr)
         /\ Log INFO (FoundUsername handle) ∈ tr
         /\ (rate_limited self (now sc) handle = false ->
             GetEntity handle (get_entity sc) ∈ tr).
Proof.
  intros Hpre Hlocal Hdom Hd Hdot text handle.
  assert (Hhc : handle_char d = true).
  { unfold handle_char. unfold is_alnum in Hd. by rewrite Hd. }
  assert (Hrun : handle_run (domain ++ post) = handle).
  { apply handle_run_app. by exists (chr "."). }
  assert (Hex : extract_username text = Some handle).
  { unfold text. rewrite app_assoc.
    rewrite (extract_username_first_at (pre ++ local) (domain ++ post) d
               (ds ++ post)).
    - by rewrite Hrun.
    - by apply not_elem_of_app.
    - by rewrite Hdom.
    - done. }
  assert (Hne : truthy handle = true).
  { unfold handle. rewrite Hdom. simpl. by rewrite Hhc. }
  assert (Hci : extract_contact_info text !! "username" = Some handle).
  { rewrite extract_contact_info_username, Hex. by destruct handle. }
  repeat split; try done.
  - by destruct handle.
  - apply handle_run_prefix.
  - intros sc ev self Htext Hnew Hlen Hkw.
    by apply (process_message_found sc ev self text handle).
Qed.

End HandleFacts.

(* ================================================================== *)
(** * The code on concrete inputs *)
(* ================================================================== *)

Section Runs.
Import ConfigValidator SessionHandler MessageProcessor Runtime.

Ltac holds := apply (bool_decide_unpack _); vm_compute; exact I.

Ltac fails :=
  let Hin := fresh in
  intros Hin; apply (bool_decide_pack _) in Hin; vm_compute in Hin; exact Hin.

Ltac in_list :=
  vm_compute;
  solve [repeat first [apply list_elem_of_here | apply list_elem_of_further]].

(** ** The set after the mark is passed *)

(** C5, where the code departs from it. One posting with id 2000 is
    answered, then a thousand with ids 1 to 1000, each a minute after the
    other. All are answered, so the ids enter the set in that order and
    the last insertion makes 1001. With the layout of a table of small
    integers, the 500 ids kept are 502 to 1000 and 2000: the very first
    id stays, while 501, one of the 500 latest, is forgotten. *)
Theorem truncation_keeps_by_table_order :
  let ids := (2000 :: seqZ 1 1000)%Z in
  let kept :=
    processed_messages
      (state_after (H:=ascii_tables) (H0:=by_value) fresh two_channels) in
  forallb (fun out => replied out.1)
          (run (H:=ascii_tables) (H0:=by_value) fresh two_channels) = true
  /\ map (fun i => message_id i.2) two_channels = ids
  /\ last_n 500 ids = seqZ 501 500
  /\ kept = (seqZ 502 499 ++ [2000%Z])%list
  /\ 2000%Z ∈ kept
  /\ 501%Z ∉ kept.
Proof.
  cbv zeta.
  assert (Hkept : processed_messages
            (state_after (H:=ascii_tables) (H0:=by_value) fresh two_channels)
          = (seqZ 502 499 ++ [2000%Z])%list) by (vm_compute; reflexivity).
  rewrite Hkept.
  split; [vm_compute; reflexivity|].
  split; [vm_compute; reflexivity|].
  split; [vm_compute; reflexivity|].
  split; [reflexivity|].
  split; [holds | fails].
Qed.

(** Were the set enumerated in order of arrival, the same run would keep
    the 500 latest ids: the order of the table is all that is at stake. *)
Lemma truncation_keeps_latest_in_order :
  processed_messages
    (state_after (H:=ascii_tables) (H0:=in_order) fresh two_channels)
  = seqZ 501 500.
Proof. vm_compute. reflexivity. Qed.

(** ** The same id twice *)


(** The first of the two is answered, so the bound is met. *)
Example same_id_first_replied :
  replies (H:=ascii_tables) (H0:=by_value) 7 fresh (arrivals [7; 7]%Z) = 1%nat.
Proof. vm_compute. reflexivity. Qed.

(** A handling that sent the text but could not send the link records
    nothing, and the same id is then answered a second time. *)
Example same_id_after_failed_link :
  let first := process_message (H:=ascii_tables) (H0:=by_value)
                 (link_down 100) (posting_event 7) fresh in
  let second := process_message (H:=ascii_tables) (H0:=by_value)
                  (calm 200) (posting_event 7) first.1.2 in
  replied first.2 = false
  /\ processed_messages first.1.2 = []
  /\ SendMessage (Entity 7) _get_fallback_message None ∈ first.2
  /\ SendMessage (Entity 7) _get_fallback_message None ∈ second.2
  /\ replied second.2 = true.
Proof.
  cbv zeta. split; [vm_compute; reflexivity|]. split; [vm_compute; reflexivity|].
  split; [in_list|]. split; [in_list|]. vm_compute. reflexivity.
Qed.


(** ** Two deliveries within the cooldown *)

(** C2 as stated fails: the first delivery sends the reply text and then
    cannot send the portfolio link, so it returns [False] and writes no
    time; a second delivery to the same handle one second later is not
    skipped and sends the reply text again. Two messages are delivered
    within the window. *)
Lemma reply_delivered_twice_within_cooldown :
  let first := send_response_to_user (link_down 100) jane
                 _get_fallback_message fresh in
  let second := send_response_to_user (calm 101) jane
                  _get_fallback_message first.1.2 in
  (now (calm 101) - now (link_down 100) < 30)%Q
  /\ SendMessage (Entity 7) _get_fallback_message None ∈ first.2
  /\ first.1.1 = Return false
  /\ SendMessage (Entity 7) _get_fallback_message None ∈ second.2
  /\ second.1.1 = Return true.
Proof.
  cbv zeta. split; [reflexivity|]. split; [in_list|].
  split; [vm_compute; reflexivity|]. split; [in_list|].
  vm_compute. reflexivity.
Qed.

Lemma cooldown_skips_send_witness :
  rate_limit_delay fresh = 30%Q
  /\ (now (calm 110) - now (calm 100) < 30)%Q
  /\ let self1 :=
       (send_response_to_user (calm 100) jane _get_fallback_message fresh).1.2 in
     send_response_to_user (calm 110) jane _get_fallback_message self1
     = (Return false, self1, [Log INFO (RateLimitingSkipping jane)]).
Proof.
  split; [reflexivity|]. split; [reflexivity|].
  refine (proj1 (proj2 (proj2
    (cooldown_skips_send (calm 100) jane _get_fallback_message fresh
       (send_response_to_user (calm 100) jane _get_fallback_message fresh).1.2
       (Return true)
       (send_response_to_user (calm 100) jane _get_fallback_message fresh).2
       [] (calm 110) _get_fallback_message _ _ _))) eq_refl);
    [reflexivity | vm_compute; reflexivity | reflexivity].
Defined.

(** ** The time of the last message *)

(** C3 as stated fails: the text is sent, no resume file is found, the
    portfolio link cannot be sent, and the time is not written. *)
Lemma timestamp_not_recorded_when_link_fails :
  ~ (forall sc username message self r self' tr,
       send_response_to_user sc username message self = (r, self', tr) ->
       Log INFO (MessageSentTo username) ∈ tr ->
       last_message_time self' !! username = Some (now sc)).
Proof.
  intros Hall.
  pose (out := send_response_to_user (link_down 100) jane
                 _get_fallback_message fresh).
  specialize (Hall (link_down 100) jane _get_fallback_message fresh
                out.1.1 out.1.2 out.2).
  assert (Hrec : last_message_time out.1.2 !! jane = Some (now (link_down 100))).
  { apply Hall; [vm_compute; reflexivity|].
    in_list. }
  vm_compute in Hrec. discriminate Hrec.
Qed.

Lemma timestamp_recorded_after_text_witness :
  exists r self' tr,
    send_response_to_user (calm 100) jane _get_fallback_message fresh
    = (r, self', tr)
    /\ (Log INFO (MessageSentTo jane) ∈ tr ->
        attachment_raises (calm 100) fresh = None ->
        r = Return true
        /\ last_message_time self'
           = <[jane := now (calm 100)]> (last_message_time fresh)).
Proof.
  eexists _, _, _. split; [vm_compute; reflexivity|].
  refine (proj1 (proj2 (timestamp_recorded_after_text (calm 100) jane
                          _get_fallback_message fresh _ _ _ _))).
  vm_compute. reflexivity.
Defined.

(** ** Exceptions during a delivery *)

(** C4 as stated fails: the resume file is sent, the client raises a
    flood-wait, and the call returns [True]. *)
Lemma flood_wait_on_file_not_reraised :
  ~ (forall sc username message self r self' tr seconds,
       send_response_to_user sc username message self = (r, self', tr) ->
       raised_by_client tr (FloodWaitError seconds)
       \/ raised_by_send_file tr (FloodWaitError seconds) ->
       r = Raise (FloodWaitError seconds)).
Proof.
  intros Hall.
  pose (out := send_response_to_user (file_flood 100) jane
                 _get_fallback_message fresh).
  specialize (Hall (file_flood 100) jane _get_fallback_message fresh
                out.1.1 out.1.2 out.2 5%Z).
  assert (Hraise : out.1.1 = Raise (FloodWaitError 5)).
  { apply Hall; [vm_compute; reflexivity|].
    right. eexists _, _, _. in_list. }
  vm_compute in Hraise. discriminate Hraise.
Qed.

Lemma flood_wait_reraised_witness :
  exists r self' tr,
    send_response_to_user (file_flood 100) jane _get_fallback_message fresh
    = (r, self', tr)
    /\ forall e, raised_by_send_file tr e ->
       Log ERROR (ErrorSendingResume jane e) ∈ tr
       /\ ((forall e', ~ raised_by_client tr e') -> r = Return true).
Proof.
  eexists _, _, _. split; [vm_compute; reflexivity|].
  refine (proj2 (proj2 (proj2 (flood_wait_reraised (file_flood 100) jane
                                 _get_fallback_message fresh _ _ _ _)))).
  vm_compute. reflexivity.
Defined.

(** ** The other claims at an input *)

(** C6 as stated fails: the proxy type is [mtproto] and the secret is
    not hexadecimal, but no server and no port are set. [validate_config]
    returns this configuration, and [_get_proxy_config] returns [None]
    for it at its first test: no error is logged, nor anything else. *)
Lemma mtproto_invalid_secret_not_logged :
  exists c tr,
    validate_config (H:=ascii_tables) secret_only_environ tt = (Return c, tt, tr)
    /\ proxy_type c = Some (utf8 "mtproto")
    /\ proxy_secret c = Some (utf8 "zz")
    /\ fromhex (utf8 "zz") = None
    /\ proxy_server c = None /\ proxy_port c = None
    /\ _get_proxy_config (H:=ascii_tables) c tt = (Return None, tt, []).
Proof.
  eexists _, _. split; [vm_compute; reflexivity|].
  repeat (split; [reflexivity|]). reflexivity.
Qed.

Lemma mtproto_invalid_secret_no_proxy_witness :
  proxy_type mtproto_config = Some (utf8 "MTProto")
  /\ lower (Unicode:=ascii_tables) (utf8 "MTProto") = utf8 "mtproto"
  /\ proxy_secret mtproto_config = Some (utf8 "not-hex")
  /\ fromhex (utf8 "not-hex") = None
  /\ exists tr,
       _get_proxy_config (H:=ascii_tables) mtproto_config tt
       = (Return None, tt, tr)
       /\ (forall construct,
           create_client (H:=ascii_tables) mtproto_config construct tt
           = (constructed construct (client_without_proxy mtproto_config), tt,
              (tr ++ [(INFO, CreatingWithoutProxy)])%list))
       /\ (all_set mtproto_config = true ->
           tr = [(ERROR, InvalidProxySecretFormat)])
       /\ (all_set mtproto_config = false -> tr = []).
Proof.
  repeat (split; [reflexivity|]).
  apply (mtproto_invalid_secret_no_proxy (H:=ascii_tables) mtproto_config
           (utf8 "MTProto") (utf8 "not-hex")); reflexivity.
Defined.

Lemma validate_config_channels_witness :
  example_environ !! "CHANNELS"
  = Some (utf8 " @design_jobs, @ux_iran ,, freelance ,")
  /\ channel_entries (utf8 " @design_jobs, @ux_iran ,, freelance ,")
     = [utf8 "@design_jobs"; utf8 "@ux_iran"; utf8 "freelance"]
  /\ exists c tr,
       validate_config (H:=ascii_tables) example_environ tt = (Return c, tt, tr)
       /\ channels c
          = channel_entries (utf8 " @design_jobs, @ux_iran ,, freelance ,").
Proof.
  split; [vm_compute; reflexivity|]. split; [vm_compute; reflexivity|].
  apply (validate_config_channels (H:=ascii_tables) example_environ
           (utf8 "12345") (utf8 "0123456789abcdef") (utf8 "key")
           (utf8 " @design_jobs, @ux_iran ,, freelance ,")
           (utf8 "https://example.com/portfolio") 12345);
    try (vm_compute; reflexivity).
  vm_compute. discriminate.
Defined.

Lemma generate_custom_message_fallback_witness :
  model fresh = None
  /\ generate_custom_message (calm 100) posting fresh
     = (Return _get_fallback_message, fresh, []).
Proof.
  split; [reflexivity|].
  apply (generate_custom_message_fallback (calm 100) posting fresh).
  reflexivity.
Defined.

Lemma handle_taken_from_email_witness :
  (chr "@" ∉ utf8 "UI designer wanted, send your CV to ")
  /\ (chr "@" ∉ utf8 "jobs")
  /\ is_alnum (chr "e") = true
  /\ (chr "." ∈ utf8 "example.com")
  /\ extract_username (H:=ascii_tables)
       (utf8 "UI designer wanted, send your CV to " ++ utf8 "jobs"
        ++ chr "@" :: utf8 "example.com" ++ utf8 " today")%list
     = Some (utf8 "example").
Proof.
  assert (H1 : chr "@" ∉ utf8 "UI designer wanted, send your CV to ") by fails.
  assert (H2 : chr "@" ∉ utf8 "jobs") by fails.
  assert (H3 : chr "." ∈ utf8 "example.com") by holds.
  repeat (split; [done|]).
  apply (handle_taken_from_email (H:=ascii_tables) (H0:=by_value)
           (utf8 "UI designer wanted, send your CV to ") (utf8 "jobs")
           (utf8 "example.com") (utf8 " today")
           (chr "e") (utf8 "xample.com") H1 H2 eq_refl eq_refl H3).
Defined.

(** The address is one for the code's own pattern too, and a domain that
    starts with a hyphen, which that pattern lets through, gives no
    handle. *)
Example email_and_handle_both_found :
  whole (Re.search (H:=ascii_tables) (email_re)
           (utf8 "UI designer wanted, send your CV to jobs@example.com today"))
  = Some (utf8 "jobs@example.com")
  /\ extract_username (H:=ascii_tables) (utf8 "write to a@-b.co") = None
  /\ whole (Re.search (H:=ascii_tables) (email_re) (utf8 "write to a@-b.co"))
     = Some (utf8 "a@-b.co").
Proof.
  split; [vm_compute; reflexivity|]. split; vm_compute; reflexivity.
Qed.

Lemma process_message_skips_short_witness :
  (length (strip (utf8 "  UI @bob ")) < 10)%nat
  /\ process_message (H:=ascii_tables) (H0:=by_value) (calm 100)
       {| message_text := Some (utf8 "  UI @bob "); message_id := 1 |} fresh
     = (Return tt, fresh, []).
Proof.
  assert (Hlen : (length (strip (utf8 "  UI @bob ")) < 10)%nat)
    by (vm_compute; lia).
  split; [exact Hlen|].
  apply (process_message_skips_short (H:=ascii_tables) (H0:=by_value)).
  right. exists (utf8 "  UI @bob "). split; [reflexivity | by right].
Defined.

(** Scenario A of the specification. *)
Example scenario_A :
  contains_ui_keywords (H:=ascii_tables) posting = true
  /\ extract_username (H:=ascii_tables) posting = Some jane
  /\ (process_message (H:=ascii_tables) (H0:=by_value) (calm 100)
        (posting_event 1) fresh).2
     = [Log DEBUG (ProcessingMessage posting);
        Log INFO JobPostingDetected;
        Log INFO (FoundUsername jane);
        GetEntity jane (Return (Entity 7));
        SendMessage (Entity 7) _get_fallback_message None;
        Log INFO (MessageSentTo jane);
        Log WARNING ResumeFileNotFound;
        SendMessage (Entity 7)
          (portfolio_link (utf8 "https://example.com/portfolio")) None;
        Log INFO (SuccessfullyProcessed jane)].
Proof.
  split; [vm_compute; reflexivity|]. split; vm_compute; reflexivity.
Qed.

End Runs.

(* ================================================================== *)
(** * More of config_validator.py and session_handler.py *)
(* ================================================================== *)

Section ConfigurationFacts.
Import ConfigValidator SessionHandler.
Context `{Unicode}.

Lemma bind_inv {St Ev A B} (m : M (St:=St) (Ev:=Ev) A) (f : A -> M B)
    (s s' : St) (b : B) (t : list Ev) :
  bind m f s = (Return b, s', t) ->
  exists a s1 t1 t2,
    m s = (Return a, s1, t1) /\ f a s1 = (Return b, s', t2)
    /\ t = (t1 ++ t2)%list.
Proof.
  unfold bind. destruct (m s) as [[[a|e] s1] t1]; [|done].
  destruct (f a s1) as [[r s2] t2] eqn:Hf. intros [= -> -> <-].
  by eexists _, _, _, _.
Qed.

Lemma required_str_cases (env : environ) (name : string) :
  required_str env name tt
  = match optional env name with
    | Some v => (Return v, tt, [])
    | None => (Raise (ValueError ("Required environment variable " ++ name
                                   ++ " is missing")), tt, [])
    end.
Proof. unfold required_str, optional. by destruct (env !! name) as [[|? ?]|]. Qed.

Lemma required_int_cases (env : environ) (name : string) :
  required_int env name tt
  = match optional env name with
    | Some v =>
      match parse_int v with
      | Some n => (Return n, tt, [])
      | None => (Raise (ValueError ("Invalid type for " ++ name
                                     ++ ": expected int")), tt, [])
      end
    | None => (Raise (ValueError ("Required environment variable " ++ name
                                   ++ " is missing")), tt, [])
    end.
Proof.
  unfold required_int, optional. destruct (env !! name) as [[|? ?]|]; try done.
  by destruct (parse_int _).
Qed.

Lemma optional_str_cases (env : environ) (name : string) :
  optional_str env name tt = (Return (optional env name), tt, []).
Proof. unfold optional_str, optional. by destruct (env !! name) as [[|? ?]|]. Qed.

Lemma optional_int_cases (env : environ) (name : string) :
  exists tr,
    optional_int env name tt
    = (Return (match optional env name with
               | Some v => parse_int v
               | None => None
               end), tt, tr)
    /\ (tr = [] \/ (tr = [(WARNING, InvalidOptionalType name "int")]
                   /\ exists v, optional env name = Some v
                                /\ parse_int v = None)).
Proof.
  unfold optional_int, optional.
  destruct (env !! name) as [[|c v]|]; try (by eexists; split; [|left]).
  destruct (parse_int (c :: v)) eqn:Hp; [by eexists; split; [|left]|].
  eexists. split; [reflexivity|]. right. split; [done|]. by exists (c :: v).
Qed.

(** [_validate_proxy_config] never raises. It touches the proxy type
    and the proxy port only, and only to clear them. A type left in
    place is one of the three supported, in any letter case, and has a
    secret with it when it is MTProto; a port left in place beside a
    type and a server is within 1..65535. *)
Lemma _validate_proxy_config_cases (c : config) :
  exists c' tr,
    _validate_proxy_config c tt = (Return c', tt, tr)
    /\ same_but_proxy c c'
    /\ (proxy_type c' = proxy_type c \/ proxy_type c' = None)
    /\ (proxy_port c' = proxy_port c \/ proxy_port c' = None)
    /\ (forall t, proxy_type c' = Some t -> truthy t = true ->
        supported_proxy_type t = true
        /\ (lower t = utf8 "mtproto" -> truthy_opt (proxy_secret c) = true))
    /\ (forall p, proxy_port c' = Some p ->
        truthy_opt (proxy_type c) = true ->
        truthy_opt (proxy_server c) = true ->
        p <> 0%Z -> (1 <= p <= 65535)%Z).
Proof.
  unfold _validate_proxy_config, same_but_proxy.
  destruct (proxy_type c) as [[|t0 t']|] eqn:Ht.
  1, 3: eexists _, _; (split; [reflexivity|]); rewrite ?Ht;
    repeat split; auto; intros; simplify_eq; done.
  unfold bind, ret, emit.
  destruct (supported_proxy_type (t0 :: t')) eqn:Hsup; simpl;
    (destruct (str_eqb (lower (t0 :: t')) (utf8 "mtproto")) eqn:Hmt; simpl;
     [destruct (truthy_opt (proxy_secret c)) eqn:Hsec; simpl|]);
    (destruct (proxy_server c) as [[|s0 s']|] eqn:Hsrv; simpl;
     [|destruct (proxy_port c) as [p|] eqn:Hp; simpl;
       [destruct (Z.eqb_spec p 0); simpl;
        [|destruct (Z.ltb_spec p 1); destruct (Z.ltb_spec 65535 p); simpl]|]|]);
    eexists _, _; (split; [reflexivity|]); simpl; rewrite ?Ht, ?Hp;
    repeat split; auto; intros; simplify_eq; try done; try lia.
  all: unfold str_eqb in Hmt; apply bool_decide_eq_false in Hmt; done.
Qed.

Lemma bind_eq {St Ev A B} (m : M (St:=St) (Ev:=Ev) A) (f : A -> M B) (s : St) :
  bind m f s
  = match m s with
    | (Return a, s1, t1) =>
      match f a s1 with (r, s2, t2) => (r, s2, (t1 ++ t2)%list) end
    | (Raise e, s1, t1) => (Raise e, s1, t1)
    end.
Proof. reflexivity. Qed.

Ltac step_bind := rewrite bind_eq; cbv beta.

(** What is left of [validate_config] after the required variables and
    the channel list. *)
Lemma optional_truthy (env : environ) (name : string) (v : str) :
  optional env name = Some v -> truthy v = true.
Proof.
  unfold optional. destruct (env !! name) as [[|? ?]|]; [done| |done].
  by intros [= <-].
Qed.

Lemma check_url_warns (url_key : string) (url : option str) :
  exists tr,
    check_url url_key url tt = (Return tt, tt, tr)
    /\ (forall u, url = Some u -> truthy u = true -> is_http_url u = false ->
        tr = [(WARNING, InvalidURLFormat url_key u)])
    /\ (forall u, url = Some u -> is_http_url u = true -> tr = []).
Proof.
  unfold check_url. destruct url as [[|c u]|].
  - eexists. split; [reflexivity|]. split; [by intros ? [= <-] | done].
  - destruct (is_http_url (c :: u)) eqn:Hu; eexists;
      (split; [reflexivity|]); split; intros ? [= <-]; congruence.
  - by eexists.
Qed.

Lemma _validate_urls_warns (c : config) :
  exists tr,
    _validate_urls c tt = (Return tt, tt, tr)
    /\ (truthy (portfolio_url c) = true -> is_http_url (portfolio_url c) = false ->
        (WARNING, InvalidURLFormat "portfolio_url" (portfolio_url c)) ∈ tr)
    /\ (forall u, cv_url c = Some u -> truthy u = true -> is_http_url u = false ->
        (WARNING, InvalidURLFormat "cv_url" u) ∈ tr).
Proof.
  destruct (check_url_warns "portfolio_url" (Some (portfolio_url c)))
    as (tr1 & H1 & Hw1 & _).
  destruct (check_url_warns "cv_url" (cv_url c)) as (tr2 & H2 & Hw2 & _).
  exists (tr1 ++ tr2)%list. split; [|split].
  - unfold _validate_urls. rewrite bind_eq, H1, H2. reflexivity.
  - intros Ht Hu. rewrite (Hw1 _ eq_refl Ht Hu). by left.
  - intros u Hcv Ht Hu. rewrite (Hw2 u Hcv Ht Hu).
    apply elem_of_app. right. by left.
Qed.

Lemma validate_config_rest (env : environ) (id : Z) (hash key portfolio : str)
    (chans : list str) :
  exists tr,
    (let! cv := optional_str env "CV_URL" in
     let! ptype := optional_str env "PROXY_TYPE" in
     let! pserver := optional_str env "PROXY_SERVER" in
     let! pport := optional_int env "PROXY_PORT" in
     let! psecret := optional_str env "PROXY_SECRET" in
     let! resume := optional_str env "RESUME_FILENAME" in
     let c := {| api_id := id; api_hash := hash; gemini_api_key := key;
                 channels := chans; portfolio_url := portfolio;
                 cv_url := cv; proxy_type := ptype; proxy_server := pserver;
                 proxy_port := pport; proxy_secret := psecret;
                 resume_filename :=
                   match resume with
                   | Some r => r
                   | None => default_resume_filename
                   end |} in
     let! c' := _validate_proxy_config c in
     do! _validate_urls c' in
     do! emit (INFO, ValidationCompleted) in
     ret c') tt
    = (Return (validated
                 {| api_id := id; api_hash := hash; gemini_api_key := key;
                    channels := chans; portfolio_url := portfolio;
                    cv_url := optional env "CV_URL";
                    proxy_type := optional env "PROXY_TYPE";
                    proxy_server := optional env "PROXY_SERVER";
                    proxy_port := match optional env "PROXY_PORT" with
                                  | Some v => parse_int v
                                  | None => None
                                  end;
                    proxy_secret := optional env "PROXY_SECRET";
                    resume_filename :=
                      default default_resume_filename
                        (optional env "RESUME_FILENAME") |}), tt, tr)
    /\ last tr = Some (INFO, ValidationCompleted)
    /\ (forall v, optional env "PROXY_PORT" = Some v -> parse_int v = None ->
        (WARNING, InvalidOptionalType "PROXY_PORT" "int") ∈ tr)
    /\ (truthy portfolio = true -> is_http_url portfolio = false ->
        (WARNING, InvalidURLFormat "portfolio_url" portfolio) ∈ tr)
    /\ (forall u, optional env "CV_URL" = Some u -> is_http_url u = false ->
        (WARNING, InvalidURLFormat "cv_url" u) ∈ tr).
Proof.
  destruct (optional_int_cases env "PROXY_PORT") as (tr1 & Hpp & Htr1).
  set (c := {| api_id := id; api_hash := hash; gemini_api_key := key;
               channels := chans; portfolio_url := portfolio;
               cv_url := optional env "CV_URL";
               proxy_type := optional env "PROXY_TYPE";
               proxy_server := optional env "PROXY_SERVER";
               proxy_port := match optional env "PROXY_PORT" with
                             | Some v => parse_int v
                             | None => None
                             end;
               proxy_secret := optional env "PROXY_SECRET";
               resume_filename :=
                 default default_resume_filename
                   (optional env "RESUME_FILENAME") |}).
  destruct (_validate_proxy_config_cases c)
    as (c' & tr2 & Hc' & (_ & _ & _ & _ & Hpf & Hcv & _) & _).
  destruct (_validate_urls_warns c') as (tr3 & Hurls & Hw1 & Hw2).
  rewrite Hpf in Hw1. rewrite Hcv in Hw2. simpl in Hw1, Hw2.
  exists (tr1 ++ tr2 ++ tr3 ++ [(INFO, ValidationCompleted)])%list.
  split; [|split; [|split; [|split]]].
  - unfold validated. rewrite Hc'. simpl.
    do 3 (step_bind; rewrite optional_str_cases; cbv beta iota).
    step_bind. rewrite Hpp. cbv beta iota.
    do 2 (step_bind; rewrite optional_str_cases; cbv beta iota).
    cbv zeta.
    replace (match optional env "RESUME_FILENAME" with
             | Some r => r
             | None => default_resume_filename
             end)
      with (default default_resume_filename (optional env "RESUME_FILENAME"))
      by (by destruct (optional env "RESUME_FILENAME")).
    fold c. step_bind. rewrite Hc'. cbv beta iota.
    step_bind. rewrite Hurls. cbv beta iota.
    unfold bind, emit, ret. cbn [app]. reflexivity.
  - by rewrite !app_assoc, last_snoc.
  - intros v Hv Hnone. unfold optional_int in Hpp.
    destruct Htr1 as [->|[-> _]]; [|set_solver].
    unfold optional in Hv. destruct (env !! "PROXY_PORT") as [[|c0 v0]|]; try done.
    injection Hv as <-. rewrite Hnone in Hpp. done.
  - intros Ht Hu. rewrite !elem_of_app. right. right. left. by apply Hw1.
  - intros u Hcvu Hu. rewrite !elem_of_app. right. right. left.
    apply Hw2; [done | by eapply optional_truthy | done].
Qed.

(** The result of [validate_config], in full. *)
Lemma validate_config_result (env : environ) :
  if accepts env then
    exists id tr,
      (optional env "API_ID" ≫= parse_int) = Some id
      /\ validate_config env tt = (Return (validated (raw_config env id)), tt, tr)
      /\ last tr = Some (INFO, ValidationCompleted)
      /\ (forall v, optional env "PROXY_PORT" = Some v -> parse_int v = None ->
          (WARNING, InvalidOptionalType "PROXY_PORT" "int") ∈ tr)
      /\ (forall u, optional env "PORTFOLIO_URL" = Some u ->
          is_http_url u = false ->
          (WARNING, InvalidURLFormat "portfolio_url" u) ∈ tr)
      /\ (forall u, optional env "CV_URL" = Some u -> is_http_url u = false ->
          (WARNING, InvalidURLFormat "cv_url" u) ∈ tr)
  else
    exists msg, validate_config env tt = (Raise (ValueError msg), tt, []).
Proof.
  unfold accepts, validate_config, raw_config.
  step_bind. rewrite required_int_cases.
  destruct (optional env "API_ID") as [ids|]; [|by eexists].
  destruct (parse_int ids) as [id|] eqn:Hid; [|by eexists].
  rewrite bool_decide_eq_true_2 by done. cbv beta iota.
  step_bind. rewrite required_str_cases.
  destruct (optional env "API_HASH") as [hash|]; [|by eexists].
  rewrite bool_decide_eq_true_2 by done. cbv beta iota.
  step_bind. rewrite required_str_cases.
  destruct (optional env "GEMINI_API_KEY") as [key|]; [|by eexists].
  rewrite bool_decide_eq_true_2 by done. cbv beta iota.
  step_bind. rewrite required_str_cases.
  destruct (optional env "CHANNELS") as [chans|]; [|by eexists].
  cbv beta iota.
  step_bind. rewrite required_str_cases.
  destruct (optional env "PORTFOLIO_URL") as [portfolio|] eqn:Hportfolio;
    [|rewrite andb_false_r; by eexists].
  rewrite (bool_decide_eq_true_2 (is_Some (Some portfolio))) by done.
  cbv beta iota zeta.
  destruct (parse_channels chans) as [|ch chs] eqn:Hch.
  { rewrite bool_decide_eq_true_2 by done. simpl. by eexists. }
  rewrite bool_decide_eq_false_2 by done. simpl andb. cbv iota.
  destruct (validate_config_rest env id hash key portfolio (ch :: chs))
    as (tr & Hrest & Hlast & Hwarn & Hurl & Hcv).
  exists id, tr. split; [by simpl|].
  split; [|split; [done|split; [done|split; [|done]]]].
  - simpl default. rewrite Hch. cbv zeta in Hrest. rewrite Hrest. reflexivity.
  - intros u [= <-] Hu. apply Hurl; [|done].
    by apply (optional_truthy env "PORTFOLIO_URL").
Qed.

(** X1. [validate_config] returns a configuration exactly for the
    environments in which the five required variables are set and not
    empty, [API_ID] reads as an integer and the channel list has an entry
    left; it then ends by logging that validation is complete. For every
    other environment it raises [ValueError], and has logged nothing
    before. *)
Theorem validate_config_accepts (env : environ) :
  (accepts env = true
   /\ exists c tr, validate_config env tt = (Return c, tt, tr)
                   /\ last tr = Some (INFO, ValidationCompleted))
  \/ (accepts env = false
      /\ exists msg, validate_config env tt = (Raise (ValueError msg), tt, [])).
Proof.
  pose proof (validate_config_result env) as Hres.
  destruct (accepts env); [left | right]; (split; [done|]).
  - destruct Hres as (id & tr & _ & Hrun & Hlast & _). by eexists _, _.
  - done.
Qed.

Lemma validated_same (c : config) :
  same_but_proxy c (validated c)
  /\ (proxy_type (validated c) = proxy_type c \/ proxy_type (validated c) = None)
  /\ (proxy_port (validated c) = proxy_port c \/ proxy_port (validated c) = None)
  /\ (forall t, proxy_type (validated c) = Some t -> truthy t = true ->
      supported_proxy_type t = true
      /\ (lower t = utf8 "mtproto" -> truthy_opt (proxy_secret c) = true))
  /\ (forall p, proxy_port (validated c) = Some p ->
      truthy_opt (proxy_type c) = true ->
      truthy_opt (proxy_server c) = true ->
      p <> 0%Z -> (1 <= p <= 65535)%Z).
Proof.
  destruct (_validate_proxy_config_cases c) as (c' & tr & Hc' & Hrest).
  unfold validated. by rewrite Hc'.
Qed.

Lemma validate_config_Return (env : environ) (c : config)
    (tr : list ConfigValidator.log) :
  validate_config env tt = (Return c, tt, tr) ->
  accepts env = true
  /\ exists id, (optional env "API_ID" ≫= parse_int) = Some id
                /\ c = validated (raw_config env id).
Proof.
  intros Hrun. pose proof (validate_config_result env) as Hres.
  destruct (accepts env).
  - split; [done|]. destruct Hres as (id & tr' & Hid & Hrun' & _).
    exists id. split; [done|]. congruence.
  - destruct Hres as [msg Hraise]. congruence.
Qed.

(** X2. The configuration [validate_config] returns holds what the
    environment holds: the identifier is the integer read from [API_ID],
    the hash, the key and the portfolio link are the variables as they
    are, the channels are the cleaned list, an optional variable that is
    unset or empty is [None], and the resume file name is never empty:
    it is [RESUME_FILENAME] or else the default. Only the proxy type and
    port may have been cleared. *)
Theorem validate_config_fields (env : environ) (c : config)
    (tr : list ConfigValidator.log) :
  validate_config env tt = (Return c, tt, tr) ->
  (optional env "API_ID" ≫= parse_int) = Some (api_id c)
  /\ optional env "API_HASH" = Some (api_hash c)
  /\ optional env "GEMINI_API_KEY" = Some (gemini_api_key c)
  /\ optional env "PORTFOLIO_URL" = Some (portfolio_url c)
  /\ (parse_channels <$> optional env "CHANNELS") = Some (channels c)
  /\ cv_url c = optional env "CV_URL"
  /\ proxy_server c = optional env "PROXY_SERVER"
  /\ proxy_secret c = optional env "PROXY_SECRET"
  /\ resume_filename c
     = default default_resume_filename (optional env "RESUME_FILENAME")
  /\ truthy (resume_filename c) = true
  /\ (proxy_type c = optional env "PROXY_TYPE" \/ proxy_type c = None)
  /\ (proxy_port c = (optional env "PROXY_PORT" ≫= parse_int)
      \/ proxy_port c = None).
Proof.
  intros Hrun.
  destruct (validate_config_Return env c tr Hrun) as (Hacc & id & Hid & ->).
  destruct (validated_same (raw_config env id))
    as ((E1 & E2 & E3 & E4 & E5 & E6 & E7 & E8 & E9) & Ht & Hp & _).
  rewrite E1, E2, E3, E4, E5, E6, E7, E8, E9. simpl.
  unfold accepts in Hacc.
  repeat (apply andb_true_iff in Hacc as [Hacc ?]).
  destruct (optional env "API_HASH") as [hash|]; [|done].
  destruct (optional env "GEMINI_API_KEY") as [key|]; [|done].
  destruct (optional env "PORTFOLIO_URL") as [portfolio|]; [|done].
  destruct (optional env "CHANNELS") as [chans|]; [|done].
  repeat split; try done.
  destruct (optional env "RESUME_FILENAME") as [r|] eqn:Hr; [|done].
  by apply optional_truthy in Hr.
Qed.

(** X3. An optional variable that does not convert is not fatal: with
    the required settings in order and a [PROXY_PORT] that is not an
    integer, [validate_config] still returns, with no proxy port, after
    a warning that names the variable. *)
Theorem proxy_port_not_int_dropped (env : environ) (v : str) :
  accepts env = true ->
  optional env "PROXY_PORT" = Some v -> parse_int v = None ->
  exists c tr,
    validate_config env tt = (Return c, tt, tr)
    /\ proxy_port c = None
    /\ (WARNING, InvalidOptionalType "PROXY_PORT" "int") ∈ tr.
Proof.
  intros Hacc Hv Hnone. pose proof (validate_config_result env) as Hres.
  rewrite Hacc in Hres. destruct Hres as (id & tr & _ & Hrun & _ & Hwarn & _).
  eexists _, _. split; [exact Hrun|]. split; [|by eapply Hwarn].
  destruct (validated_same (raw_config env id)) as (_ & _ & [->| ->] & _);
    [|done].
  simpl. by rewrite Hv.
Qed.

(** X29. A link that is not an http or https address is not fatal
    either: with the required settings in order, [validate_config]
    returns the configuration with the link as it is, after a warning
    that shows it. This holds for the portfolio link and for the
    optional CV link. *)
Theorem url_not_http_warned (env : environ) :
  accepts env = true ->
  exists c tr,
    validate_config env tt = (Return c, tt, tr)
    /\ (forall u, optional env "PORTFOLIO_URL" = Some u ->
        is_http_url u = false ->
        portfolio_url c = u
        /\ (WARNING, InvalidURLFormat "portfolio_url" u) ∈ tr)
    /\ (forall u, optional env "CV_URL" = Some u -> is_http_url u = false ->
        cv_url c = Some u
        /\ (WARNING, InvalidURLFormat "cv_url" u) ∈ tr).
Proof.
  intros Hacc. pose proof (validate_config_result env) as Hres.
  rewrite Hacc in Hres.
  destruct Hres as (id & tr & _ & Hrun & _ & _ & Hurl & Hcv).
  eexists _, tr. split; [exact Hrun|].
  destruct (validated_same (raw_config env id))
    as ((_ & _ & _ & _ & Hp & Hc & _) & _).
  split.
  - intros u Hu Hhttp. split; [|by apply Hurl].
    rewrite Hp. simpl. by rewrite Hu.
  - intros u Hu Hhttp. split; [|by apply Hcv].
    rewrite Hc. simpl. by rewrite Hu.
Qed.

(** X5. The proxy settings of a configuration [validate_config]
    returned have been checked: a proxy type still in place is one of
    the three supported, in any letter case, and has a secret with it
    when it is MTProto; a port still in place, other than 0, is within
    1..65535 whenever [PROXY_TYPE] and [PROXY_SERVER] are set. *)
Theorem validate_config_proxy_checked (env : environ) (c : config)
    (tr : list ConfigValidator.log) :
  validate_config env tt = (Return c, tt, tr) ->
  (forall t, proxy_type c = Some t ->
     supported_proxy_type t = true
     /\ (lower t = utf8 "mtproto" -> is_Some (proxy_secret c)))
  /\ (forall p, proxy_port c = Some p ->
      is_Some (optional env "PROXY_TYPE") ->
      is_Some (optional env "PROXY_SERVER") ->
      p <> 0%Z -> (1 <= p <= 65535)%Z).
Proof.
  intros Hval.
  destruct (validate_config_Return env c tr Hval) as (_ & id & _ & Hc).
  destruct (validated_same (raw_config env id))
    as ((_ & _ & _ & _ & _ & _ & _ & Hsec & _) & Htype & _ & Hsup & Hrange).
  rewrite <- Hc in Hsec, Htype, Hsup, Hrange.
  simpl in Hsec, Htype, Hsup, Hrange. split.
  - intros t Ht. rewrite Ht in Htype. destruct Htype as [Htype|]; [|done].
    symmetry in Htype. destruct (Hsup t Ht (optional_truthy _ _ _ Htype))
      as [Hs Hm].
    split; [done|]. intros Hl. specialize (Hm Hl). rewrite Hsec.
    by destruct (optional env "PROXY_SECRET").
  - intros p Hp [t Ht] [srv Hsrv] Hp0. apply Hrange; try done.
    + rewrite Ht. simpl. by eapply optional_truthy.
    + rewrite Hsrv. simpl. by eapply optional_truthy.
Qed.

(** ** The proxy tuple *)

(** When a tuple is built, nothing is logged, and the tuple is made of
    the settings. *)
Lemma _get_proxy_config_Some (c : config) (p : proxy_tuple)
    (tr : list SessionHandler.log) :
  _get_proxy_config c tt = (Return (Some p), tt, tr) ->
  tr = [] /\ all_set c = true
  /\ proxy_server c = Some (tuple_server p)
  /\ proxy_port c = Some (tuple_port p)
  /\ exists t, proxy_type c = Some t
     /\ match p with
        | Proxy6 kind _ _ rdns username password =>
          lower t = kind /\ (kind = utf8 "socks5" \/ kind = utf8 "http")
          /\ rdns = true /\ username = None /\ password = None
        | Proxy3 _ _ secret_bytes =>
          lower t = utf8 "mtproto"
          /\ exists secret, proxy_secret c = Some secret
                            /\ fromhex secret = Some secret_bytes
        end.
Proof.
  unfold _get_proxy_config.
  destruct (proxy_type c) as [t|] eqn:Ht; [|done].
  destruct (proxy_server c) as [server|] eqn:Hs; [|done].
  destruct (proxy_port c) as [port|] eqn:Hp; [|done].
  destruct (all_set c) eqn:Hall; [|done].
  cbv zeta. unfold try_except, bind, ret, emit, raise, str_eqb.
  case_bool_decide as H1; [intros [= <- <-]; repeat split; eauto 10|].
  case_bool_decide as H2; [intros [= <- <-]; repeat split; eauto 10|].
  case_bool_decide as H3; [|done].
  destruct (proxy_secret c) as [secret|]; [|done].
  destruct (fromhex secret) as [bytes|] eqn:Hhex; destruct secret;
    simpl; try done.
  intros [= <- <-]. repeat split; eauto 10.
Qed.

Lemma _get_proxy_config_missing (c : config) :
  all_set c = false -> _get_proxy_config c tt = (Return None, tt, []).
Proof.
  intros Hall. unfold _get_proxy_config. rewrite Hall.
  by destruct (proxy_type c), (proxy_server c), (proxy_port c).
Qed.

Lemma _get_proxy_config_returns (c : config) :
  exists r tr, _get_proxy_config c tt = (Return r, tt, tr).
Proof.
  unfold _get_proxy_config.
  destruct (proxy_type c) as [t|]; [|by eexists _, _].
  destruct (proxy_server c) as [server|]; [|by eexists _, _].
  destruct (proxy_port c) as [port|]; [|by eexists _, _].
  destruct (all_set c); [|by eexists _, _].
  cbv zeta. unfold try_except, bind, ret, emit, raise.
  destruct (str_eqb _ _); [by eexists _, _|].
  destruct (str_eqb _ _); [by eexists _, _|].
  destruct (str_eqb _ _); [|by eexists _, _].
  destruct (proxy_secret c) as [secret|]; [|by eexists _, _].
  destruct (fromhex secret); destruct secret; by eexists _, _.
Qed.

Lemma create_client_returns (c : config) :
  exists r tr,
    _get_proxy_config c tt = (Return r, tt, tr)
    /\ forall construct,
         create_client c construct tt
         = (constructed construct
              {| session := session_name; client_api_id := api_id c;
                 client_api_hash := api_hash c; proxy := r |}, tt,
            (tr ++ [(INFO, match r with
                           | Some p => CreatingWithProxy p
                           | None => CreatingWithoutProxy
                           end)])%list).
Proof.
  destruct (_get_proxy_config_returns c) as (r & tr & Hget).
  exists r, tr. split; [done|]. intros construct.
  unfold create_client. rewrite bind_run, Hget.
  destruct r, construct; by rewrite ?app_nil_r.
Qed.

(** X7. [_get_proxy_config] never raises, whatever the configuration,
    and [create_client] raises nothing but what the constructor of the
    client raises. The constructor is given the tuple
    [_get_proxy_config] returned, after the record that says so; when
    it returns, that is the client. No tuple is built, in silence, as
    soon as the type, the server or the port is missing (a port 0
    counts as missing). *)
Theorem proxy_config_total (c : config) :
  exists r tr,
    _get_proxy_config c tt = (Return r, tt, tr)
    /\ (forall construct,
        create_client c construct tt
        = (constructed construct
             {| session := session_name; client_api_id := api_id c;
                client_api_hash := api_hash c; proxy := r |}, tt,
           (tr ++ [(INFO, match r with
                          | Some p => CreatingWithProxy p
                          | None => CreatingWithoutProxy
                          end)])%list))
    /\ (all_set c = false -> r = None /\ tr = []).
Proof.
  destruct (create_client_returns c) as (r & tr & Hget & Hcreate).
  exists r, tr. split; [done|]. split; [done|].
  intros Hall. rewrite (_get_proxy_config_missing c Hall) in Hget.
  by simplify_eq.
Qed.

(** X4. Validation and the session handler together: a proxy tuple built
    from a configuration [validate_config] returned carries the server
    of the environment and a port within 1..65535, and is either a
    SOCKS5 or HTTP tuple (remote DNS on, no credentials) for a type that
    lower-cases to that name, or an MTProto tuple with the secret of the
    environment decoded from hexadecimal. Nothing is logged when it is
    built. *)
Theorem validated_proxy_tuple (env : environ) (c : config)
    (tr : list ConfigValidator.log) (p : proxy_tuple)
    (tr' : list SessionHandler.log) :
  validate_config env tt = (Return c, tt, tr) ->
  _get_proxy_config c tt = (Return (Some p), tt, tr') ->
  tr' = []
  /\ optional env "PROXY_SERVER" = Some (tuple_server p)
  /\ (optional env "PROXY_PORT" ≫= parse_int) = Some (tuple_port p)
  /\ (1 <= tuple_port p <= 65535)%Z
  /\ exists t, optional env "PROXY_TYPE" = Some t
     /\ match p with
        | Proxy6 kind _ _ rdns username password =>
          lower t = kind /\ (kind = utf8 "socks5" \/ kind = utf8 "http")
          /\ rdns = true /\ username = None /\ password = None
        | Proxy3 _ _ secret_bytes =>
          lower t = utf8 "mtproto"
          /\ exists secret, optional env "PROXY_SECRET" = Some secret
                            /\ fromhex secret = Some secret_bytes
        end.
Proof.
  intros Hval Hget.
  destruct (validate_config_Return env c tr Hval) as (_ & id & _ & Hc).
  destruct (validated_same (raw_config env id))
    as ((_ & _ & _ & _ & _ & _ & Hsrv & Hsec & _) & Htype & Hport & _ & Hrange).
  rewrite <- Hc in Hsrv, Hsec, Htype, Hport, Hrange.
  simpl in Hsrv, Hsec, Htype, Hport, Hrange.
  change (match optional env "PROXY_PORT" with
          | Some v => parse_int v
          | None => None
          end) with (optional env "PROXY_PORT" ≫= parse_int) in Hport.
  destruct (_get_proxy_config_Some c p tr' Hget)
    as (-> & Hall & Hs & Hp & t & Ht & Hshape).
  rewrite Ht in Htype. rewrite Hp in Hport.
  destruct Htype as [Htype|]; [|done]. destruct Hport as [Hport|]; [|done].
  unfold all_set in Hall. rewrite Ht, Hs, Hp in Hall.
  apply andb_true_iff in Hall as [[Ht' Hs']%andb_true_iff Hp'].
  apply negb_true_iff, Z.eqb_neq in Hp'.
  split; [done|]. split; [congruence|]. split; [congruence|].
  split.
  - apply Hrange; [done | by rewrite <- Htype | by rewrite <- Hsrv, Hs | done].
  - exists t. split; [done|]. destruct p; [done|].
    destruct Hshape as (Hl & hex & Hsecret & Hhex).
    split; [done|]. exists hex. split; [congruence | done].
Qed.

(** X8. A SOCKS5 or HTTP proxy needs no secret: with type (in any letter
    case), server and port set, the tuple is built from them whatever
    the secret is, with nothing logged. *)
Theorem socks_http_proxy_tuple (c : config) (t server : str) (port : Z) :
  proxy_type c = Some t -> proxy_server c = Some server ->
  proxy_port c = Some port -> all_set c = true ->
  lower t = utf8 "socks5" \/ lower t = utf8 "http" ->
  _get_proxy_config c tt
  = (Return (Some (Proxy6 (lower t) server port true None None)), tt, []).
Proof.
  intros Ht Hs Hp Hall Hl. unfold _get_proxy_config.
  rewrite Ht, Hs, Hp, Hall. cbv zeta.
  destruct Hl as [-> | ->]; reflexivity.
Qed.

(** Decoding gives bytes, one for every two digits. *)
Lemma fromhex_bytes (s : str) (bs : list N) :
  fromhex s = Some bs ->
  Forall (fun b => (b < 256)%N) bs /\ (2 * length bs <= length s)%nat.
Proof.
  revert bs. induction s as [s IH] using (induction_ltof1 _ (@length N)).
  unfold ltof in IH. intros bs. destruct s as [|c tl]; simpl.
  { intros [= <-]. split; [constructor | simpl; lia]. }
  destruct (hex_space c).
  { intros Hs. destruct (IH tl ltac:(simpl; lia) bs Hs). split; [done | lia]. }
  destruct (hex_digit c) as [hi|] eqn:Hhi; [|done].
  destruct tl as [|c' tl']; [done|].
  destruct (hex_digit c') as [lo|] eqn:Hlo; [|done].
  destruct (fromhex tl') as [bs'|] eqn:Hrest; [|done].
  intros [= <-].
  destruct (IH tl' ltac:(simpl; lia) bs' Hrest) as [Hall Hlen].
  split; [|simpl; lia]. constructor; [|done].
  assert (Hd : forall ch d, hex_digit ch = Some d -> (d < 16)%N).
  { intros ch d. unfold hex_digit, in_range, chr.
    repeat case_match; intros [= <-];
      repeat match goal with
      | Hb : (_ && _) = true |- _ => apply andb_true_iff in Hb as [? ?]
      | Hb : (_ <=? _)%N = true |- _ => apply N.leb_le in Hb
      end; simpl in *; lia. }
  pose proof (Hd _ _ Hhi). pose proof (Hd _ _ Hlo). lia.
Qed.

(** X9. An MTProto proxy whose secret is hexadecimal: the tuple holds
    the server, the port and the secret decoded, two digits to a byte. *)
Theorem mtproto_proxy_tuple (c : config) (t server secret : str) (port : Z)
    (secret_bytes : list N) :
  proxy_type c = Some t -> proxy_server c = Some server ->
  proxy_port c = Some port -> all_set c = true ->
  lower t = utf8 "mtproto" ->
  proxy_secret c = Some secret -> truthy secret = true ->
  fromhex secret = Some secret_bytes ->
  _get_proxy_config c tt = (Return (Some (Proxy3 server port secret_bytes)), tt, [])
  /\ Forall (fun b => (b < 256)%N) secret_bytes
  /\ (2 * length secret_bytes <= length secret)%nat.
Proof.
  intros Ht Hs Hp Hall Hl Hsec Htr Hhex.
  split; [|by apply fromhex_bytes]. unfold _get_proxy_config.
  rewrite Ht, Hs, Hp, Hall. cbv zeta. rewrite Hl.
  change (str_eqb (utf8 "mtproto") (utf8 "socks5")) with false.
  change (str_eqb (utf8 "mtproto") (utf8 "http")) with false.
  change (str_eqb (utf8 "mtproto") (utf8 "mtproto")) with true.
  cbv iota. rewrite Hsec. simpl truthy_opt. rewrite Htr, Hhex. reflexivity.
Qed.

(** X10. An MTProto proxy without a secret (unset or empty) gives no
    proxy: [None] is returned after one error record, and the client is
    created without a proxy, whenever its constructor returns. *)
Theorem mtproto_without_secret_no_proxy (c : config) (t : str) :
  proxy_type c = Some t -> all_set c = true ->
  lower t = utf8 "mtproto" -> truthy_opt (proxy_secret c) = false ->
  _get_proxy_config c tt
  = (Return None, tt, [(ERROR, MTProtoRequiresProxySecret)])
  /\ (forall construct,
      create_client c construct tt
      = (constructed construct (client_without_proxy c), tt,
         [(ERROR, MTProtoRequiresProxySecret); (INFO, CreatingWithoutProxy)])).
Proof.
  intros Ht Hall Hl Hsec.
  assert (Hget : _get_proxy_config c tt
                 = (Return None, tt, [(ERROR, MTProtoRequiresProxySecret)])).
  { unfold _get_proxy_config. rewrite Ht.
    unfold all_set in Hall. rewrite Ht in Hall.
    destruct (proxy_server c) as [server|] eqn:Hs;
      [|by rewrite andb_false_r in Hall].
    destruct (proxy_port c) as [port|] eqn:Hp;
      [|by rewrite andb_false_r in Hall].
    unfold all_set. rewrite Ht, Hs, Hp, Hall. cbv zeta. rewrite Hl.
    change (str_eqb (utf8 "mtproto") (utf8 "socks5")) with false.
    change (str_eqb (utf8 "mtproto") (utf8 "http")) with false.
    change (str_eqb (utf8 "mtproto") (utf8 "mtproto")) with true.
    cbv iota. rewrite Hsec. reflexivity. }
  split; [done|]. intros construct.
  by rewrite (create_client_without_proxy c construct _ Hget).
Qed.

(** X6. The summary and the session agree on a disabled proxy: when
    [print_config_summary] reports the proxy as disabled, [create_client]
    creates the client without a proxy, whenever its constructor
    returns, and logs nothing else. The summary itself is seven
    informational records and never raises. *)
Theorem summary_disabled_no_proxy (c : config) :
  exists tr,
    print_config_summary c tt = (Return tt, tt, tr)
    /\ length tr = 7%nat
    /\ Forall (fun r => r.1 = INFO) tr
    /\ ((INFO, SummaryProxy false) ∈ tr ->
        forall construct,
          create_client c construct tt
          = (constructed construct (client_without_proxy c), tt,
             [(INFO, CreatingWithoutProxy)])).
Proof.
  eexists. split; [reflexivity|]. split; [reflexivity|].
  split; [by repeat constructor|].
  intros Hin construct.
  assert (Htype : truthy_opt (proxy_type c) = false).
  { repeat (apply elem_of_cons in Hin as [Hin|Hin]; [by simplify_eq|]).
    by apply elem_of_nil in Hin. }
  apply (create_client_without_proxy c construct []), _get_proxy_config_missing.
  unfold all_set. by rewrite Htype.
Qed.

(** X11. [cleanup_session] never raises. It leaves every other file
    alone; the session file is still there afterwards only if the
    removal failed, and then a warning carries the error; where there
    was no session file nothing happens and nothing is logged, so a
    second call after a removal does nothing. *)
Theorem cleanup_session_never_raises (remove : option exn) (files : gset str) :
  exists files' tr,
    cleanup_session remove files = (Return tt, files', tr)
    /\ (forall f, f <> session_file -> f ∈ files' <-> f ∈ files)
    /\ (session_file ∈ files' ->
        session_file ∈ files
        /\ exists e, remove = Some e
                     /\ tr = [(WARNING, CouldNotRemoveSessionFile e)])
    /\ (session_file ∉ files -> files' = files /\ tr = [])
    /\ (session_file ∉ files' ->
        cleanup_session remove files' = (Return tt, files', [])).
Proof.
  assert (Habsent : forall fs, session_file ∉ fs ->
            cleanup_session remove fs = (Return tt, fs, [])).
  { intros fs Hfs. unfold cleanup_session, bind, get, ret.
    by rewrite bool_decide_eq_false_2. }
  destruct (decide (session_file ∈ files)) as [Hin|Hout].
  - destruct remove as [e|].
    + exists files, [(WARNING, CouldNotRemoveSessionFile e)].
      split; [|split; [done|split; [by eauto|split; [done|done]]]].
      unfold cleanup_session, bind, get, ret.
      by rewrite bool_decide_eq_true_2.
    + exists (files ∖ {[session_file]}), [(INFO, SessionFileCleanedUp)].
      split; [|split; [|split; [|split]]].
      * unfold cleanup_session, bind, get, ret.
        by rewrite bool_decide_eq_true_2.
      * intros f Hf. rewrite elem_of_difference, elem_of_singleton. tauto.
      * rewrite elem_of_difference, elem_of_singleton. tauto.
      * done.
      * apply Habsent.
  - exists files, []. split; [by apply Habsent|].
    split; [done|]. split; [done|]. split; [done|]. intros _. by apply Habsent.
Qed.

End ConfigurationFacts.
(* ================================================================== *)
(** * More on message_processor.py *)
(* ================================================================== *)

Section ProcessorFacts.
Import ConfigValidator MessageProcessor Re.
Context `{Unicode} `{SetLayout}.

(** ** The handle pattern, on any text *)

Lemma rmatch_username_bare p tl i k :
  handle_run tl = [] ->
  rmatch username_re
    {| prev := p; rest := chr "@" :: tl; pos := i; caps := [] |} k = None.
Proof.
  intros Hrun. unfold username_re, Lit, Plus. cbn [rmatch rest].
  rewrite N.eqb_refl. unfold advance. cbn [rmatch rest].
  destruct tl as [|d ds]; [done|].
  simpl in Hrun. by destruct (handle_char d).
Qed.

Lemma search_from_username (pre s : str) (p : option char) :
  (search_from username_re (pre ++ s) p s (length pre) ≫= group 1)
  = first_handle s.
Proof.
  revert pre p. induction s as [|c tl IH]; intros pre p; [done|].
  assert (Hnext : (search_from username_re (pre ++ c :: tl) (Some c) tl
                     (S (length pre)) ≫= group 1) = first_handle tl).
  { rewrite <- (IH (pre ++ [c])%list (Some c)).
    rewrite <- app_assoc, length_app. simpl.
    by replace (length pre + 1)%nat with (S (length pre)) by lia. }
  cbn [search_from first_handle].
  destruct (N.eqb_spec c (chr "@")) as [->|Hc].
  - destruct tl as [|d ds].
    { rewrite rmatch_username_bare by done. exact Hnext. }
    destruct (handle_char d) eqn:Hd.
    + rewrite rmatch_username_at by done.
      cbn [close_group pos caps handle_run]. rewrite Hd, eat_pos, eat_caps.
      cbn [mbind option_bind group assoc m_caps m_text Nat.eqb].
      unfold slice. f_equal.
      replace (S (S (length pre)) + length (handle_run ds) - S (length pre))%nat
        with (S (length (handle_run ds))) by (clear; lia).
      replace (S (length pre)) with (length (pre ++ [chr "@"])%list)
        by (rewrite length_app; simpl; clear; lia).
      rewrite (cons_middle (chr "@") pre (d :: ds)), app_assoc, drop_app_length.
      simpl. by rewrite take_handle_run.
    + rewrite rmatch_username_bare by (simpl; by rewrite Hd).
      cbn [handle_run]. rewrite Hd. exact Hnext.
  - rewrite rmatch_username_other by done. exact Hnext.
Qed.

Lemma extract_username_first_handle (text : str) :
  extract_username text = first_handle text.
Proof.
  unfold extract_username, search.
  rewrite <- (search_from_username [] text None). simpl.
  by destruct (search_from _ _ _ _ _).
Qed.

(** What [first_handle] finds is what follows an [@]: a run that is not
    empty, made of handle characters, and not continued; and nothing
    before that [@] would have done. *)
Lemma first_handle_Some (s h : str) :
  first_handle s = Some h ->
  h <> [] /\ Forall (fun c => handle_char c = true) h
  /\ exists pre post,
       s = (pre ++ chr "@" :: h ++ post)%list
       /\ (forall c, head post = Some c -> handle_char c = false)
       /\ first_handle pre = None.
Proof.
  induction s as [|c tl IH]; [done|]. cbn [first_handle].
  destruct (N.eqb_spec c (chr "@")) as [->|Hc].
  - destruct (handle_run tl) as [|d ds] eqn:Hrun.
    + intros Hh. destruct (IH Hh) as (Hne & Hall & pre & post & -> & Hpost & Hpre).
      split; [done|]. split; [done|].
      exists (chr "@" :: pre), post. split; [done|]. split; [done|].
      cbn [first_handle]. rewrite N.eqb_refl.
      assert (handle_run pre = []) as ->; [|done].
      destruct pre as [|x pre]; [done|]. simpl in *.
      by destruct (handle_char x).
    + intros [= <-]. split; [done|].
      split; [rewrite <- Hrun; apply handle_run_all|].
      destruct (handle_run_maximal tl) as (post & Htl & Hpost).
      exists [], post. rewrite <- Hrun. simpl. by rewrite <- Htl.
  - intros Hh. destruct (IH Hh) as (Hne & Hall & pre & post & -> & Hpost & Hpre).
    split; [done|]. split; [done|].
    exists (c :: pre), post. split; [done|]. split; [done|].
    cbn [first_handle]. by destruct (N.eqb_spec c (chr "@")).
Qed.

(** X12. [extract_username] on any text: it scans for the first [@]
    that a letter, a digit or an underscore follows and returns the run
    of such characters after it. So a handle it returns is never empty,
    holds such characters only, stands in the text right after an [@]
    and stops where the text has another kind of character or ends; and
    the text before that [@] yields no handle. *)
Theorem extract_username_scan (text : str) :
  extract_username text = first_handle text
  /\ forall h, extract_username text = Some h ->
       h <> [] /\ Forall (fun c => handle_char c = true) h
       /\ exists pre post,
            text = (pre ++ chr "@" :: h ++ post)%list
            /\ (forall c, head post = Some c -> handle_char c = false)
            /\ extract_username pre = None.
Proof.
  split; [apply extract_username_first_handle|].
  intros h. rewrite extract_username_first_handle. intros Hh.
  destruct (first_handle_Some text h Hh)
    as (Hne & Hall & pre & post & Htext & Hpost & Hpre).
  split; [done|]. split; [done|]. exists pre, post.
  by rewrite extract_username_first_handle.
Qed.

(** ** Deliveries *)

Ltac unfold_proc :=
  unfold send_response_to_user, _send_resume_file, send_link_if_set,
    generate_custom_message, model_generate_content,
    client_send_message, client_send_file, client_get_entity,
    MessageProcessor.finish, try_except, bind, ret, raise, emit, get, modify.

Ltac when_in_goal t tac :=
  match goal with
  | |- context [t] => tac
  | _ => idtac
  end.

Ltac each_outcome sc self :=
  when_in_goal (get_entity sc)
    ltac:(destruct (get_entity sc) as [?|[]] eqn:?; cbv beta iota);
  when_in_goal (send_text sc)
    ltac:(destruct (send_text sc) as [[]|] eqn:?; cbv beta iota);
  try match goal with
  | |- context [find ?f ?l] =>
    destruct (find f l) as [[|? ?]|] eqn:?; cbv beta iota
  end;
  when_in_goal (truthy (portfolio_url (config self)))
    ltac:(destruct (truthy (portfolio_url (config self))) eqn:?; cbv beta iota);
  when_in_goal (send_file sc)
    ltac:(destruct (send_file sc) as [?|] eqn:?; cbv beta iota);
  when_in_goal (send_link sc)
    ltac:(destruct (send_link sc) as [[]|] eqn:?; cbv beta iota).

Ltac split_elem :=
  cbn [app] in *;
  repeat match goal with
  | H : _ ∈ [] |- _ => by apply elem_of_nil in H
  | H : _ ∈ _ :: _ |- _ => apply elem_of_cons in H as [H|H]
  | H : ex _ |- _ => destruct H
  | H : _ \/ _ |- _ => destruct H
  end.

(** X13. What a delivery asks of the client, and what it never asks.
    The only handle resolved is the one given, and only outside the
    cooldown. Every message and file goes to the entity that handle
    resolved to. A message is either the reply itself or, once the reply
    has gone out, the portfolio link as text, which is sent only when a
    link is configured and no file went through. A file is sent only
    after the reply has gone out; it is the first candidate path that
    exists, with the caption that carries the link. At most four calls
    are made. *)
Theorem delivery_requests (sc : scenario) (username message : str)
    (self : processor) :
  let tr := (send_response_to_user sc username message self).2 in
  let url := portfolio_url (config self) in
  (forall u o, GetEntity u o ∈ tr ->
     u = username /\ o = get_entity sc
     /\ rate_limited self (now sc) username = false)
  /\ (forall to text o, SendMessage to text o ∈ tr ->
      get_entity sc = Return to
      /\ ((text = message /\ o = send_text sc)
          \/ (text = portfolio_link url /\ o = send_link sc
              /\ send_text sc = None /\ truthy url = true
              /\ forall path caption, SendFile to path caption None ∉ tr)))
  /\ (forall to path caption o, SendFile to path caption o ∈ tr ->
      get_entity sc = Return to /\ send_text sc = None
      /\ resume_path sc self = Some path /\ path <> []
      /\ caption = resume_caption url /\ o = send_file sc)
  /\ (length (List.filter is_client_call tr) <= 4)%nat.
Proof.
  unfold resume_path. unfold_proc.
  destruct (rate_limited self (now sc) username) eqn:Hrl;
    [|each_outcome sc self]; cbn [snd app List.filter is_client_call length];
    (split; [|split; [|split; [|lia]]]).
  all: intros; split_elem; simplify_eq; try done.
  all: try (split; [done|]).
  all: try (by left).
  all: right; repeat (split; [done|]); intros; intros ?; split_elem; done.
Qed.

End ProcessorFacts.

(* ================================================================== *)
(** * More on message_processor.py: one posting, and runs *)
(* ================================================================== *)

Section PostingFacts.
Import ConfigValidator MessageProcessor Re.
Context `{Unicode} `{SetLayout}.

(** ** The shape of a handling *)

(** A posting that gets past the tests is handled in three steps: the
    three records, the reply text, the delivery. *)
Lemma process_message_answer (sc : scenario) (ev : event) (self : processor)
    (text handle : str) :
  answerable self ev text handle ->
  exists msg gen_tr,
    generate_custom_message sc text self = (Return msg, self, gen_tr)
    /\ replied gen_tr = false
    /\ process_message sc ev self
       = let out := send_response_to_user sc handle msg self in
         let rest := after_delivery ev handle out.1.1 out.1.2 in
         (Return tt, rest.1,
          ([Log DEBUG (ProcessingMessage (take 100 text));
            Log INFO JobPostingDetected;
            Log INFO (FoundUsername handle)]
           ++ gen_tr ++ out.2 ++ rest.2)%list).
Proof.
  intros (Hnew & Htext & Hlen & Hkw & Hhandle).
  destruct (generate_custom_message_quiet sc text self)
    as (msg & gen_tr & Hgen & Hq).
  exists msg, gen_tr. split; [done|]. split; [done|].
  assert (Hh : handle <> []).
  { rewrite extract_username_first_handle in Hhandle.
    by destruct (first_handle_Some _ _ Hhandle). }
  unfold process_message, try_except. unfold bind at 1, get.
  rewrite bool_decide_eq_false_2 by done. rewrite Htext.
  destruct text as [|c t]; [simpl in Hlen; lia|].
  destruct (Nat.ltb_spec (length (strip (c :: t))) 10) as [?|_]; [lia|].
  unfold bind at 1, emit. rewrite Hkw. cbn [negb].
  unfold bind at 1.
  rewrite extract_contact_info_username, Hhandle.
  destruct handle as [|u us]; [done|].
  unfold bind at 1. unfold respond.
  unfold bind at 1. rewrite Hgen.
  unfold bind at 1.
  destruct (send_response_to_user sc (u :: us) msg self)
    as [[[[|]|e] self1] send_tr]; cbn [fst snd after_delivery].
  - unfold bind at 1, emit. rewrite mark_processed_eq. reflexivity.
  - reflexivity.
  - cbn [app]. by rewrite <- !app_assoc.
Qed.

(** Any other event is dropped: only log records, and the object as it
    was. *)
Lemma process_message_dropped (sc : scenario) (ev : event) (self : processor) :
  (exists text handle, answerable self ev text handle)
  \/ (exists tr, process_message sc ev self = (Return tt, self, tr)
                 /\ Forall (fun a => is_request a = false) tr
                 /\ replied tr = false).
Proof.
  unfold answerable, process_message, try_except. unfold bind at 1, get.
  destruct (bool_decide (message_id ev ∈ processed_messages self)) eqn:Hin;
    [right; by eexists|].
  apply bool_decide_eq_false in Hin.
  destruct (message_text ev) as [[|c t]|];
    [right; by eexists| |right; by eexists].
  destruct (Nat.ltb_spec (length (strip (c :: t))) 10) as [?|Hlen];
    [right; by eexists|].
  unfold bind at 1, emit.
  destruct (contains_ui_keywords (c :: t)) eqn:Hkw; cbn [negb];
    [|right; eexists; split; [reflexivity|]; by repeat constructor].
  unfold bind at 1. rewrite extract_contact_info_username.
  destruct (extract_username (c :: t)) as [[|u us]|] eqn:Hu.
  - right; eexists; split; [reflexivity|]; by repeat constructor.
  - left. by exists (c :: t), (u :: us).
  - right; eexists; split; [reflexivity|]; by repeat constructor.
Qed.

(** ** What the traces hold *)

Ltac each_action :=
  cbn [fst snd app];
  repeat first [apply Forall_nil_2
               | apply Forall_cons_2;
                 [simpl; first [exact I | by repeat split
                               | repeat split; congruence | idtac]|]].

Lemma generate_custom_message_actions (sc : scenario) (text : str)
    (self : processor) :
  Forall (generation_action sc self text)
         (generate_custom_message sc text self).2.
Proof.
  unfold generate_custom_message, model_generate_content, try_except, bind,
    ret, emit, raise, get.
  destruct (model self) eqn:Hm; [|constructor].
  destruct (generate_content sc) eqn:Hg; each_action.
Qed.

Lemma _send_resume_file_actions (sc : scenario) (to : entity)
    (username : str) (self : processor) (P : action -> Prop) :
  (forall to text o, P (SendMessage to text o)) ->
  (forall to path caption o, P (SendFile to path caption o)) ->
  (forall l m, P (Log l m)) ->
  (_send_resume_file sc to username self).1.2 = self
  /\ Forall P (_send_resume_file sc to username self).2.
Proof.
  intros Hmsg Hfile Hlog.
  unfold _send_resume_file, send_link_if_set, client_send_message,
    client_send_file, MessageProcessor.finish, try_except, bind, ret, raise,
    emit, get, modify.
  destruct (find _ _) as [[|? ?]|];
    destruct (truthy _); try destruct (send_file sc);
    destruct (send_link sc); (split; [done|]); each_action.
Qed.

Lemma send_response_actions (sc : scenario) (username message : str)
    (self : processor) :
  Forall (delivery_action self (now sc) username)
         (send_response_to_user sc username message self).2.
Proof.
  pose proof (_send_resume_file_actions sc) as Hfile.
  unfold send_response_to_user.
  unfold client_send_message, client_get_entity, MessageProcessor.finish,
    try_except, bind, ret, raise, emit, get, modify.
  destruct (rate_limited self (now sc) username) eqn:Hrl; [each_action|].
  destruct (get_entity sc) as [to|[]]; try (by each_action).
  destruct (send_text sc) as [[]|]; try (by each_action).
  destruct (Hfile to username self (delivery_action self (now sc) username))
    as [Hstate Hall]; try done.
  destruct (_send_resume_file sc to username self) as [[[[]|e] self1] tr1];
    simpl in Hstate, Hall; subst self1.
  - each_action. by rewrite app_nil_r.
  - destruct e; each_action; apply Forall_app; split; try done; each_action.
Qed.

(** ** One handling *)

(** A handling never raises, and it is all or nothing: either it did not
    reply and the object is as it was, or it replied to a posting that
    got past the tests, outside the cooldown of its handle, and recorded
    both the time for the handle and the id. *)
Lemma process_message_outcome (sc : scenario) (ev : event) (self : processor) :
  exists self' tr,
    process_message sc ev self = (Return tt, self', tr)
    /\ ((replied tr = false /\ self' = self)
        \/ (replied tr = true
            /\ exists text handle,
                 answerable self ev text handle
                 /\ rate_limited self (now sc) handle = false
                 /\ self' = answered self ev handle (now sc))).
Proof.
  destruct (process_message_dropped sc ev self)
    as [(text & handle & Hans)|(tr & Hrun & _ & Hq)];
    [|exists self, tr; by auto].
  destruct (process_message_answer sc ev self text handle Hans)
    as (msg & gen_tr & Hgen & Hq & ->).
  pose proof (send_response_state sc handle msg self) as Hst.
  pose proof (send_response_quiet sc handle msg self) as Hqs.
  destruct (send_response_to_user sc handle msg self)
    as [[[[|]|e] self1] send_tr]; cbn [fst snd after_delivery] in *;
    eexists _, _; (split; [reflexivity|]);
    cbn [app replied existsb is_success_log orb]; fold (replied gen_tr);
    fold (replied (gen_tr ++ send_tr ++ []));
    rewrite ?replied_app, ?Hq, ?Hqs.
  - right. split; [done|]. exists text, handle.
    destruct Hst as [Hrl ->]. split; [done|]. split; [done|]. reflexivity.
  - left. by subst.
  - left. by subst.
Qed.

(** X14. A handling never raises and never touches the configuration,
    the cooldown length or the model. If it logs no success it leaves
    the whole object as it was; if it logs one, the posting had got past
    the tests, its handle was outside the cooldown, and both writes were
    made: the time of the handling against the handle, and the id into
    the set (cut back if it has grown past the mark). *)
Theorem process_message_frame (sc : scenario) (ev : event) (self : processor) :
  let out := process_message sc ev self in
  out.1.1 = Return tt
  /\ config out.1.2 = config self
  /\ rate_limit_delay out.1.2 = rate_limit_delay self
  /\ model out.1.2 = model self
  /\ (replied out.2 = false -> out.1.2 = self)
  /\ (replied out.2 = true ->
      exists text handle,
        answerable self ev text handle
        /\ rate_limited self (now sc) handle = false
        /\ last_message_time out.1.2
           = <[handle := now sc]> (last_message_time self)
        /\ processed_messages out.1.2
           = truncated (set_add (message_id ev) (processed_messages self))).
Proof.
  destruct (process_message_outcome sc ev self) as (self' & tr & -> & Hcases).
  cbn [fst snd].
  destruct Hcases as [[Hq ->]|(Hr & text & handle & Hans & Hrl & ->)].
  - split; [done|]. split; [done|]. split; [done|]. split; [done|].
    split; [done|]. by rewrite Hq.
  - split; [done|]. split; [done|]. split; [done|]. split; [done|].
    split; [by rewrite Hr|]. intros _. by exists text, handle.
Qed.

(** X15. Every request made while an event is handled is accounted for
    by the posting: there is a request only if the id is new and the
    text, at least 10 characters long once stripped, holds a keyword and
    a handle. A completion is requested for that text only, and only
    with a model; the client is called outside the cooldown of that
    handle only, and the only handle it is asked to resolve is that
    one. *)
Theorem process_message_requests (sc : scenario) (ev : event)
    (self : processor) (a : action) :
  a ∈ (process_message sc ev self).2 -> is_request a = true ->
  exists text handle,
    answerable self ev text handle
    /\ match a with
       | GenerateContent p o =>
         p = prompt_for text /\ o = generate_content sc /\ model self <> None
       | GetEntity u _ =>
         u = handle /\ rate_limited self (now sc) handle = false
       | _ => rate_limited self (now sc) handle = false
       end.
Proof.
  intros Hin Hreq.
  destruct (process_message_dropped sc ev self)
    as [(text & handle & Hans)|(tr & Hrun & Hlogs & _)].
  2: { rewrite Hrun in Hin. simpl in Hin.
       rewrite Forall_forall in Hlogs. by rewrite (Hlogs a Hin) in Hreq. }
  exists text, handle. split; [done|].
  destruct (process_message_answer sc ev self text handle Hans)
    as (msg & gen_tr & Hgen & _ & Hrun).
  rewrite Hrun in Hin. cbn [snd] in Hin.
  pose proof (generate_custom_message_actions sc text self) as Hg.
  rewrite Hgen in Hg. cbn [snd] in Hg.
  pose proof (send_response_actions sc handle msg self) as Hs.
  rewrite Forall_forall in Hg, Hs.
  rewrite !elem_of_app in Hin.
  destruct Hin as [Hin|[Hin|[Hin|Hin]]].
  - repeat (apply elem_of_cons in Hin as [->|Hin]; [done|]).
    by apply elem_of_nil in Hin.
  - specialize (Hg a Hin). by destruct a.
  - specialize (Hs a Hin). by destruct a.
  - destruct (send_response_to_user sc handle msg self) as [[[[|]|e] ?] ?];
      cbn [fst snd after_delivery] in Hin;
      repeat (apply elem_of_cons in Hin as [->|Hin]; [done|]);
      by apply elem_of_nil in Hin.
Qed.

End PostingFacts.

(* ================================================================== *)
(** * More on message_processor.py: the cooldown and the runs *)
(* ================================================================== *)

Section CooldownFacts.
Import ConfigValidator MessageProcessor Re.
Context `{Unicode} `{SetLayout}.

(** ** The reply text *)

Lemma lstrip_all_space (s : str) :
  Forall (fun c => isspace c = true) s -> lstrip s = [].
Proof.
  induction 1 as [|c s Hc _ IH]; [done|]. simpl. by rewrite Hc.
Qed.

(** X16. With a model, and a completion that comes back, the reply is
    the completion stripped of white space at both ends, whatever it is:
    the template is not used, not even when the completion is blank, in
    which case the reply is the empty text. *)
Theorem completion_returned_stripped (sc : scenario) (job_text text : str)
    (self : processor) :
  model self <> None -> generate_content sc = Return text ->
  generate_custom_message sc job_text self
  = (Return (strip text), self,
     [GenerateContent (prompt_for job_text) (Return text)])
  /\ trimmed (strip text)
  /\ (Forall (fun c => isspace c = true) text -> strip text = []).
Proof.
  intros Hm Hg. split; [|split].
  - unfold generate_custom_message, model_generate_content, try_except, bind,
      ret, emit, raise, get.
    destruct (model self); [|done]. by rewrite Hg.
  - apply strip_trimmed.
  - intros Hall. unfold strip. by rewrite lstrip_all_space.
Qed.

(** ** The cooldown *)

Lemma send_response_starts (sc : scenario) (username message : str)
    (self : processor) :
  rate_limited self (now sc) username = false ->
  head (send_response_to_user sc username message self).2
  = Some (GetEntity username (get_entity sc)).
Proof.
  intros Hrl. unfold send_response_to_user.
  unfold client_send_message, client_get_entity, MessageProcessor.finish,
    try_except, bind, ret, raise, emit, get, modify.
  rewrite Hrl.
  destruct (get_entity sc) as [to|[]]; try done.
  destruct (send_text sc) as [[]|]; try done.
  by destruct (_send_resume_file sc to username self) as [[[[]|[]] ?] ?].
Qed.

(** X17. The cooldown test is exact. With [last] the time recorded for
    the handle, or 0 when none is, a delivery at a time less than
    [rate_limit_delay] after [last] is skipped: it returns [False] after
    one record and touches nothing. From [rate_limit_delay] on, it
    starts by asking the client to resolve the handle. So a handle never
    written to is skipped while the clock reads less than the
    cooldown. *)
Theorem cooldown_exact (sc : scenario) (username message : str)
    (self : processor) :
  let last := default 0%Q (last_message_time self !! username) in
  let out := send_response_to_user sc username message self in
  ((now sc - last < rate_limit_delay self)%Q ->
   out = (Return false, self, [Log INFO (RateLimitingSkipping username)]))
  /\ ((rate_limit_delay self <= now sc - last)%Q ->
      head out.2 = Some (GetEntity username (get_entity sc)))
  /\ (last_message_time self !! username = None ->
      (now sc < rate_limit_delay self)%Q ->
      out = (Return false, self, [Log INFO (RateLimitingSkipping username)])).
Proof.
  intros last out.
  assert (Hskip : (now sc - last < rate_limit_delay self)%Q ->
    out = (Return false, self, [Log INFO (RateLimitingSkipping username)])).
  { intros Hlt. apply send_response_rate_limited. unfold rate_limited.
    fold last. destruct (Qlt_le_dec _ _) as [_|Hle]; [done|]. lra. }
  split; [done|]. split.
  - intros Hle. apply send_response_starts. unfold rate_limited.
    fold last. destruct (Qlt_le_dec _ _) as [Hlt|_]; [lra | done].
  - intros Hnone Hlt. apply Hskip. unfold last. rewrite Hnone. simpl. lra.
Qed.

(** X18. The cooldown is kept per handle: a delivery to one handle,
    however it ends, leaves the time recorded for every other handle,
    and so the cooldown test for it, as they were. *)
Theorem cooldown_per_handle (sc : scenario) (username message other : str)
    (self : processor) (t : Q) :
  other <> username ->
  let self' := (send_response_to_user sc username message self).1.2 in
  last_message_time self' !! other = last_message_time self !! other
  /\ rate_limited self' t other = rate_limited self t other.
Proof.
  intros Hne self'.
  pose proof (send_response_state sc username message self) as Hst.
  unfold self'.
  destruct (send_response_to_user sc username message self)
    as [[[[|]|e] self1] tr]; cbn [fst snd]; try (by subst).
  destruct Hst as [_ ->]. unfold rate_limited. simpl.
  by rewrite lookup_insert_ne.
Qed.

(** ** Runs *)

Lemma elem_of_truncated (l : list Z) (y : Z) : y ∈ truncated l -> y ∈ l.
Proof.
  unfold truncated. destruct (1000 <? length l)%nat; [|done].
  rewrite elem_of_set_of_list. intros Hy.
  eapply elem_of_sublist; [exact Hy | apply last_n_sublist].
Qed.

Lemma answerable_unique (self self' : processor) (ev : event)
    (text text' handle handle' : str) :
  answerable self ev text handle -> answerable self' ev text' handle' ->
  text' = text /\ handle' = handle.
Proof.
  intros (_ & Ht & _ & _ & Hh) (_ & Ht' & _ & _ & Hh').
  assert (text' = text) as -> by congruence. split; congruence.
Qed.

(** Where the settings, the ids and the times of a run come from. *)
Lemma state_after_origin (inputs : list (scenario * event)) (self : processor) :
  let self' := state_after self inputs in
  config self' = config self
  /\ rate_limit_delay self' = rate_limit_delay self
  /\ model self' = model self
  /\ (forall id, id ∈ processed_messages self' ->
      id ∈ processed_messages self
      \/ exists sc ev, (sc, ev) ∈ inputs /\ message_id ev = id)
  /\ (forall u t, last_message_time self' !! u = Some t ->
      last_message_time self !! u = Some t
      \/ exists sc ev text,
           (sc, ev) ∈ inputs /\ now sc = t
           /\ message_text ev = Some text /\ extract_username text = Some u).
Proof.
  revert self. induction inputs as [|[sc ev] inputs IH]; intros self.
  { simpl. by auto 10. }
  cbn [state_after]. cbv zeta.
  destruct (IH (process_message sc ev self).1.2)
    as (Hc & Hd & Hm & Hids & Htimes).
  destruct (process_message_outcome sc ev self) as (self1 & tr & Hrun & Hcases).
  rewrite Hrun in *. cbn [fst snd] in *.
  destruct Hcases as [[_ ->]|(_ & text & handle & Hans & _ & ->)].
  - split; [done|]. split; [done|]. split; [done|]. split.
    + intros id Hid. destruct (Hids id Hid) as [?|(sc' & ev' & Hin & Heq)];
        [by left|]. right. exists sc', ev'. split; [by right | done].
    + intros u t Hu.
      destruct (Htimes u t Hu) as [?|(sc' & ev' & text' & Hin & Hrest)];
        [by left|]. right. exists sc', ev', text'. split; [by right | done].
  - split; [done|]. split; [done|]. split; [done|]. split.
    + intros id Hid. destruct (Hids id Hid) as [Hin|(sc' & ev' & Hin & Heq)].
      * simpl in Hin. apply elem_of_truncated, elem_of_set_add in Hin.
        destruct Hin as [->|Hin]; [|by left].
        right. exists sc, ev. split; [by left | done].
      * right. exists sc', ev'. split; [by right | done].
    + intros u t Hu.
      destruct (Htimes u t Hu) as [Hl|(sc' & ev' & text' & Hin & Hrest)].
      * simpl in Hl. destruct (decide (handle = u)) as [->|Hne].
        -- rewrite lookup_insert_eq in Hl. injection Hl as <-.
           right. exists sc, ev, text. split; [by left|].
           destruct Hans as (_ & Ht & _ & _ & Hh). done.
        -- rewrite lookup_insert_ne in Hl by done. by left.
      * right. exists sc', ev', text'. split; [by right | done].
Qed.

(** X19. What holds all along a run of the callback on an object fresh
    from [__init__], whatever arrives and whatever the services answer:
    the configuration and the model are those of the start and the
    cooldown stays 30 seconds; the set holds each id once, at most 1000
    of them, and only ids of events that arrived; a time recorded for a
    handle is the time of the handling of an event whose text yields
    that handle. *)
Theorem run_invariants (cfg : ConfigValidator.config) (configure : option exn)
    (inputs : list (scenario * event)) :
  let self0 := (__init__ cfg configure).1 in
  let self := state_after self0 inputs in
  config self = cfg
  /\ rate_limit_delay self = 30%Q
  /\ model self = model self0
  /\ NoDup (processed_messages self)
  /\ (length (processed_messages self) <= 1000)%nat
  /\ (forall id, id ∈ processed_messages self ->
      exists sc ev, (sc, ev) ∈ inputs /\ message_id ev = id)
  /\ (forall u t, last_message_time self !! u = Some t ->
      exists sc ev text,
        (sc, ev) ∈ inputs /\ now sc = t
        /\ message_text ev = Some text /\ extract_username text = Some u).
Proof.
  intros self0 self.
  assert (Hinit : config self0 = cfg /\ rate_limit_delay self0 = 30%Q
                  /\ processed_messages self0 = []
                  /\ last_message_time self0 = ∅).
  { unfold self0, __init__.
    destruct (truthy (gemini_api_key cfg)); [destruct configure|]; done. }
  destruct Hinit as (Hc0 & Hd0 & Hp0 & Hl0).
  destruct (state_after_origin inputs self0) as (Hc & Hd & Hm & Hids & Htimes).
  destruct (processed_messages_bounded_run inputs self0) as [Hnd Hlen].
  { rewrite Hp0. constructor. }
  { rewrite Hp0. simpl. lia. }
  fold self in Hc, Hd, Hm, Hids, Htimes, Hnd, Hlen.
  split; [congruence|]. split; [congruence|]. split; [done|].
  split; [done|]. split; [done|]. split.
  - intros id Hid. destruct (Hids id Hid) as [Hin|?]; [|done].
    rewrite Hp0 in Hin. by apply elem_of_nil in Hin.
  - intros u t Hu. destruct (Htimes u t Hu) as [Hin|?]; [|done].
    by rewrite Hl0, lookup_empty in Hin.
Qed.

(** The cooldown of a handle outlasts whatever is handled meanwhile. *)
Lemma cooling_process_message (sc : scenario) (ev : event) (self : processor)
    (u : str) (t : Q) :
  cooling self u t -> cooling (process_message sc ev self).1.2 u t.
Proof.
  intros Hc.
  destruct (process_message_outcome sc ev self) as (self1 & tr & -> & Hcases).
  cbn [fst snd].
  destruct Hcases as [[_ ->]|(_ & text & handle & _ & Hrl & ->)]; [done|].
  destruct Hc as [Hd (t0 & Ht0 & Hle)]. split; [done|]. simpl.
  destruct (decide (handle = u)) as [->|Hne].
  - exists (now sc). split; [by rewrite lookup_insert_eq|].
    apply rate_limited_false in Hrl. rewrite Ht0, Hd in Hrl. simpl in Hrl. lra.
  - exists t0. by rewrite lookup_insert_ne.
Qed.

Lemma cooling_state_after (inputs : list (scenario * event)) (self : processor)
    (u : str) (t : Q) :
  cooling self u t -> cooling (state_after self inputs) u t.
Proof.
  revert self. induction inputs as [|[sc ev] inputs IH]; intros self Hc;
    [done|].
  cbn [state_after]. apply IH. by apply cooling_process_message.
Qed.

Lemma generate_custom_message_asks (sc : scenario) (text : str)
    (self : processor) :
  model self <> None ->
  GenerateContent (prompt_for text) (generate_content sc)
  ∈ (generate_custom_message sc text self).2.
Proof.
  intros Hm.
  unfold generate_custom_message, model_generate_content, try_except, bind,
    ret, emit, raise, get.
  destruct (model self); [|done].
  destruct (generate_content sc); by left.
Qed.

(** X20. A second posting that names a handle just answered stays
    unanswered and unmarked. Once the handling of a posting has replied
    to a handle at time [t], and whatever is handled afterwards, a new
    posting that gets past the tests with the same handle, handled less
    than 30 seconds after [t], ends at the cooldown test: the reply text
    is still produced (with a model, the completion is requested), the
    client is not called, the skip is the last record, and the object is
    left as it was, so the id of the posting is not recorded. *)
Theorem repost_within_cooldown (sc : scenario) (ev : event) (self : processor)
    (text handle : str) (mid : list (scenario * event))
    (sc2 : scenario) (ev2 : event) (text2 : str) :
  rate_limit_delay self = 30%Q ->
  answerable self ev text handle ->
  replied (process_message sc ev self).2 = true ->
  let self2 := state_after (process_message sc ev self).1.2 mid in
  answerable self2 ev2 text2 handle ->
  (now sc2 - now sc < 30)%Q ->
  let out := process_message sc2 ev2 self2 in
  out.1.2 = self2
  /\ replied out.2 = false
  /\ last out.2 = Some (Log INFO (RateLimitingSkipping handle))
  /\ Forall (fun a => is_client_call a = false) out.2
  /\ (model self2 <> None ->
      GenerateContent (prompt_for text2) (generate_content sc2) ∈ out.2).
Proof.
  intros Hd Hans Hrep self2 Hans2 Hlt out.
  assert (Hcool : cooling self2 handle (now sc)).
  { apply cooling_state_after.
    destruct (process_message_outcome sc ev self) as (self1 & tr & Hrun & Hcases).
    rewrite Hrun in Hrep |- *. cbn [fst snd] in *.
    destruct Hcases as [[Hq _]|(_ & text' & handle' & Hans' & _ & ->)];
      [congruence|].
    destruct (answerable_unique _ _ _ _ _ _ _ Hans Hans') as [_ ->].
    split; [done|]. exists (now sc). simpl.
    split; [by rewrite lookup_insert_eq | apply Qle_refl]. }
  assert (Hrl : rate_limited self2 (now sc2) handle = true).
  { destruct Hcool as [Hd2 (t0 & Ht0 & Hle)].
    unfold rate_limited. rewrite Ht0, Hd2. simpl.
    destruct (Qlt_le_dec _ _); [done|]. lra. }
  destruct (process_message_answer sc2 ev2 self2 text2 handle Hans2)
    as (msg & gen_tr & Hgen & Hq & Hrun).
  rewrite (send_response_rate_limited sc2 handle msg self2 Hrl) in Hrun.
  cbn [fst snd after_delivery] in Hrun.
  pose proof (generate_custom_message_actions sc2 text2 self2) as Hg.
  pose proof (generate_custom_message_asks sc2 text2 self2) as Hask.
  rewrite Hgen in Hg, Hask. cbn [snd] in Hg, Hask.
  unfold out. rewrite Hrun. cbn [fst snd].
  split; [done|]. split.
  { cbn [app replied existsb is_success_log orb]. fold (replied (gen_tr ++
      [Log INFO (RateLimitingSkipping handle)] ++ [])).
    rewrite replied_app, Hq. done. }
  split.
  { rewrite app_nil_r. cbn [app].
    change (?a :: ?b :: ?c :: gen_tr ++ ?l)%list
      with ([a; b; c] ++ gen_tr ++ l)%list.
    by rewrite !app_assoc, last_snoc. }
  split.
  { repeat (apply Forall_cons_2; [done|]). apply Forall_app. split.
    - eapply Forall_impl; [exact Hg|]. by intros [].
    - by repeat constructor. }
  intros Hm. rewrite !elem_of_app. right. left. by apply Hask.
Qed.

End CooldownFacts.

(* ================================================================== *)
(** * Properties of main.py *)
(* ================================================================== *)

Section MainFacts.
Import MessageProcessor Main.
Context `{Unicode} `{SetLayout}.

Lemma bot_bind_eq {A B} (m : Bot A) (f : A -> Bot B) (b : bot) :
  bind m f b
  = match m b with
    | (Return a, b1, t1) =>
      match f a b1 with (r, b2, t2) => (r, b2, (t1 ++ t2)%list) end
    | (Raise e, b1, t1) => (Raise e, b1, t1)
    end.
Proof. reflexivity. Qed.

(** ** The callback *)

Lemma message_handler_eq (sc : scenario) (ev : event) (b : bot)
    (p : processor) :
  message_processor b = Some p ->
  message_handler sc ev b
  = (Return tt,
     set_message_processor (Some (process_message sc ev p).1.2) b,
     map Processing (process_message sc ev p).2).
Proof.
  intros Hp. unfold message_handler, try_except, on_processor. rewrite Hp.
  destruct (process_message_outcome sc ev p) as (p' & tr & -> & _).
  reflexivity.
Qed.

(** X21. The callback registered for new messages never raises and
    never sleeps: [process_message] catches every exception itself, so
    the handler for the rate-limit error is never entered. With a
    processor in place, what the callback does is what
    [process_message] does, on the bot's processor. *)
Theorem message_handler_never_sleeps (sc : scenario) (ev : event) (b : bot) :
  let out := message_handler sc ev b in
  out.1.1 = Return tt
  /\ (forall seconds, Sleep seconds ∉ out.2)
  /\ (forall seconds, Log WARNING (RateLimitedWaiting seconds) ∉ out.2)
  /\ (forall p, message_processor b = Some p ->
      out = (Return tt,
             set_message_processor (Some (process_message sc ev p).1.2) b,
             map Processing (process_message sc ev p).2)).
Proof.
  destruct (message_processor b) as [p|] eqn:Hp.
  - rewrite (message_handler_eq sc ev b p Hp). cbn [fst snd].
    split; [done|]. split; [|split].
    + intros seconds Hin. apply list_elem_of_fmap in Hin as (a & Ha & _). done.
    + intros seconds Hin. apply list_elem_of_fmap in Hin as (a & Ha & _). done.
    + by intros p' [= <-].
  - unfold message_handler, try_except, on_processor. rewrite Hp.
    cbn. split; [done|]. split; [|split]; try done.
    + intros seconds Hin. apply elem_of_cons in Hin as [?|Hin]; [done|].
      by apply elem_of_nil in Hin.
    + intros seconds Hin. apply elem_of_cons in Hin as [?|Hin]; [done|].
      by apply elem_of_nil in Hin.
Qed.

(** ** Joining the channels *)

Lemma join_channel_eq (w : world) (i : nat) (channel : str)
    (entities : list entity) (b : bot) :
  exists tr,
    join_channel w i channel entities b
    = (Return (entities ++ resolved_at w i channel)%list, b, tr)
    /\ List.filter is_client_request tr = requests_at w i channel
    /\ Forall (fun a => is_disconnect a = false) tr.
Proof.
  unfold join_channel, resolved_at, requests_at.
  destruct (truthy (strip channel)); cbn [negb].
  2: { eexists. rewrite app_nil_r. by repeat split. }
  unfold try_except, bind, ret, raise, emit, finish.
  destruct (join_request w i), (channel_entity w i);
    eexists; (split; [rewrite ?app_nil_r; reflexivity|]);
    (split; [reflexivity | by repeat constructor]).
Qed.

Lemma join_from_eq (w : world) (channels : list str) (i : nat)
    (entities : list entity) (b : bot) :
  exists tr,
    join_from w i channels entities b
    = (Return (entities ++ resolved_from w i channels)%list, b, tr)
    /\ List.filter is_client_request tr = channel_requests w i channels
    /\ Forall (fun a => is_disconnect a = false) tr.
Proof.
  revert i entities. induction channels as [|channel tl IH]; intros i entities.
  { eexists. simpl. unfold ret. rewrite app_nil_r. by repeat split. }
  destruct (join_channel_eq w i channel entities b) as (tr1 & Hone & Hreq1 & Hd1).
  destruct (IH (S i) (entities ++ resolved_at w i channel)%list)
    as (tr2 & Hrest & Hreq2 & Hd2).
  exists (tr1 ++ tr2)%list. split; [|split].
  - cbn [join_from resolved_from]. rewrite bot_bind_eq, Hone, Hrest.
    by rewrite <- app_assoc.
  - cbn [channel_requests]. by rewrite List.filter_app, Hreq1, Hreq2.
  - by apply Forall_app.
Qed.

Lemma strip_of_trimmed (s : str) : trimmed s -> strip s = s.
Proof.
  intros [Hhd Hlast].
  assert (Hl : forall t : str,
            (forall c, head t = Some c -> isspace c = false) -> lstrip t = t).
  { intros [|c t] Ht; [done|]. simpl. by rewrite (Ht c). }
  unfold strip, rstrip. rewrite (Hl s Hhd).
  rewrite Hl; [apply rev_involutive|].
  intros c Hc. apply Hlast. by rewrite <- head_rev_last.
Qed.

(** X23. [join_channels] never raises and leaves the bot as it is. It
    goes through the configured channels in order; for each one whose
    name is not blank it asks the client to join it and then, whatever
    the answer to that, to resolve it; the list it returns holds the
    entities that resolved, in the order of the channels. No channel of
    a configuration returned by [validate_config] has a blank name, so
    none of those is passed over. *)
Theorem join_channels_resolved (w : world) (b : bot)
    (cfg : ConfigValidator.config) :
  config b = Some cfg ->
  (exists tr,
     join_channels w b
     = (Return (resolved_from w 0 (ConfigValidator.channels cfg)), b, tr)
     /\ List.filter is_client_request tr
        = channel_requests w 0 (ConfigValidator.channels cfg))
  /\ (forall env tr0,
       ConfigValidator.validate_config env tt = (Return cfg, tt, tr0) ->
       Forall (fun channel => truthy (strip channel) = true)
              (ConfigValidator.channels cfg)).
Proof.
  intros Hcfg. split.
  - destruct (join_from_eq w (ConfigValidator.channels cfg) 0 [] b)
      as (tr & Hrun & Hreq & _).
    exists tr. split; [|done].
    unfold join_channels. rewrite bot_bind_eq. unfold get. by rewrite Hcfg, Hrun.
  - intros env tr0 Hval.
    destruct (validate_config_Return env cfg tr0 Hval) as (Hacc & id & _ & ->).
    destruct (validated_same (raw_config env id))
      as ((_ & _ & _ & -> & _) & _).
    simpl. rewrite parse_channels_entries.
    eapply Forall_impl; [apply channel_entries_trimmed|].
    intros ch [Hne Htr]. rewrite strip_of_trimmed by done. by destruct ch.
Qed.

(** ** Starting up *)

Lemma initialize_accepted (w : world) (b : bot) :
  accepts (environ w) = true ->
  exists cfg vtr cl str,
    ConfigValidator.validate_config (environ w) tt = (Return cfg, tt, vtr)
    /\ SessionHandler.create_client cfg None tt = (Return cl, tt, str)
    /\ initialize w b
       = match construct_client w with
         | None =>
           (Return true, initialized w cfg cl b,
            (map Validation vtr ++ [Log INFO ConfigurationLoaded]
             ++ map Session str
             ++ map Processing
                  (MessageProcessor.__init__ cfg (configure w)).2)%list)
         | Some e =>
           (Return false,
            set_session_handler (Some cfg) (set_config (Some cfg) b),
            (map Validation vtr ++ [Log INFO ConfigurationLoaded]
             ++ map Session str
             ++ [Log ERROR (FailedToInitialize e)])%list)
         end.
Proof.
  intros Hacc. pose proof (validate_config_result (environ w)) as Hval.
  rewrite Hacc in Hval. destruct Hval as (id & vtr & _ & Hval & _).
  set (cfg := validated (raw_config (environ w) id)) in *.
  destruct (create_client_returns cfg) as (r & ptr & _ & Hcl).
  eexists cfg, vtr, _, _. split; [done|]. split; [exact (Hcl None)|].
  unfold initialize, try_except. rewrite bot_bind_eq.
  unfold component at 1. rewrite Hval.
  unfold bind, modify, emit, ret, component.
  rewrite (Hcl (construct_client w)).
  destruct (construct_client w) as [e|]; cbn [fst snd constructed].
  - f_equal. cbn [app]. by rewrite <- !app_assoc.
  - unfold initialized. f_equal. cbn [app]. by rewrite !app_nil_r.
Qed.

Lemma initialize_rejected (w : world) (b : bot) :
  accepts (environ w) = false ->
  exists msg,
    initialize w b
    = (Return false, b, [Log ERROR (FailedToInitialize (ValueError msg))]).
Proof.
  intros Hacc. pose proof (validate_config_result (environ w)) as Hval.
  rewrite Hacc in Hval. destruct Hval as (msg & Hval).
  exists msg. unfold initialize, try_except. rewrite bot_bind_eq.
  unfold component at 1. by rewrite Hval.
Qed.

Lemma initialization_quiet (vtr : list ConfigValidator.log)
    (str : list SessionHandler.log) (tail : list action) :
  Forall (fun a => is_client_request a = false) tail ->
  Forall (fun a => is_client_request a = false)
         (map Validation vtr ++ [Log INFO ConfigurationLoaded]
          ++ map Session str ++ tail).
Proof.
  intros Htail. rewrite !Forall_app. split; [|split; [|split]].
  - apply Forall_fmap. by apply Forall_true.
  - by repeat constructor.
  - apply Forall_fmap. by apply Forall_true.
  - done.
Qed.

Lemma init_quiet (cfg : ConfigValidator.config) (configure : option exn) :
  Forall (fun a => is_client_request a = false)
         (map Processing (MessageProcessor.__init__ cfg configure).2).
Proof.
  unfold MessageProcessor.__init__.
  destruct (truthy _); [destruct configure|]; by repeat constructor.
Qed.

(** X24. [initialize] never raises and asks nothing of the client. It
    returns [True] exactly when [validate_config] accepts the
    environment and the constructor of the client returns; the bot then
    holds the configuration, the client [create_client] made for it and
    a new processor. When the configuration is rejected the bot is as it
    was and the one record logged carries the [ValueError]. When the
    constructor raises, the configuration is kept, no client and no
    processor are set, and the last record carries what was raised. *)
Theorem initialize_outcome (w : world) (b : bot) :
  if accepts (environ w) then
    exists cfg vtr cl str tr,
      ConfigValidator.validate_config (environ w) tt = (Return cfg, tt, vtr)
      /\ SessionHandler.create_client cfg None tt = (Return cl, tt, str)
      /\ Forall (fun a => is_client_request a = false) tr
      /\ match construct_client w with
         | None => initialize w b = (Return true, initialized w cfg cl b, tr)
         | Some e =>
           initialize w b
           = (Return false,
              set_session_handler (Some cfg) (set_config (Some cfg) b), tr)
           /\ last tr = Some (Log ERROR (FailedToInitialize e))
         end
  else
    exists msg,
      initialize w b
      = (Return false, b, [Log ERROR (FailedToInitialize (ValueError msg))]).
Proof.
  destruct (accepts (environ w)) eqn:Hacc; [|by apply initialize_rejected].
  destruct (initialize_accepted w b Hacc) as (cfg & vtr & cl & str & Hv & Hc & Hi).
  exists cfg, vtr, cl, str.
  destruct (construct_client w) as [e|].
  - eexists. split; [done|]. split; [done|]. split; [|split; [exact Hi|]].
    + apply initialization_quiet. by repeat constructor.
    + by rewrite !app_assoc, last_snoc.
  - eexists. split; [done|]. split; [done|]. split; [|exact Hi].
    apply initialization_quiet, init_quiet.
Qed.

Lemma join_channels_eq (w : world) (b : bot) (cfg : ConfigValidator.config) :
  config b = Some cfg ->
  exists tr,
    join_channels w b
    = (Return (resolved_from w 0 (ConfigValidator.channels cfg)), b, tr)
    /\ List.filter is_client_request tr
       = channel_requests w 0 (ConfigValidator.channels cfg)
    /\ Forall (fun a => is_disconnect a = false) tr.
Proof.
  intros Hcfg.
  destruct (join_from_eq w (ConfigValidator.channels cfg) 0 [] b)
    as (tr & Hrun & Hreq & Hd).
  exists tr. split; [|done].
  unfold join_channels. rewrite bot_bind_eq. unfold get. by rewrite Hcfg, Hrun.
Qed.

Lemma filter_none {A} (f : A -> bool) (l : list A) :
  Forall (fun a => f a = false) l -> List.filter f l = [].
Proof.
  induction 1 as [|a l Ha _ IH]; [done|]. simpl. by rewrite Ha.
Qed.

Ltac close_start :=
  repeat match goal with
  | |- _ /\ _ => split
  | |- Forall _ (_ ++ _) => apply Forall_app
  | |- Forall _ (_ :: _) => apply Forall_cons_2
  | |- Forall _ [] => apply Forall_nil_2
  | |- Forall _ (map Processing _) => apply Forall_fmap, Forall_true; done
  end;
  try done;
  try (rewrite ?List.filter_app;
       repeat match goal with
       | H : List.filter _ ?l = _ |- context [List.filter _ ?l] => rewrite H
       end;
       cbn [List.filter is_client_request app];
       rewrite ?app_nil_r, <- ?app_assoc; reflexivity).

Lemma start_accepted (w : world) :
  accepts (environ w) = true -> construct_client w = None ->
  exists cfg vtr cl str ok b pre,
    ConfigValidator.validate_config (environ w) tt = (Return cfg, tt, vtr)
    /\ SessionHandler.create_client cfg None tt = (Return cl, tt, str)
    /\ start w __init__
       = (match client_disconnect w with
          | Some e => Raise e
          | None => Return ok
          end, b,
          (pre ++ Disconnect (client_disconnect w)
               :: match client_disconnect w with
                  | Some _ => []
                  | None => [Log INFO BotStopped]
                  end)%list)
    /\ Forall (fun a => is_disconnect a = false) pre
    /\ is_running b = false
    /\ config b = Some cfg /\ client b = Some cl
    /\ let entities := resolved_from w 0 (ConfigValidator.channels cfg) in
       let joining := channel_requests w 0 (ConfigValidator.channels cfg) in
       match client_start w, entities with
       | Some e, _ =>
         ok = Some false
         /\ List.filter is_client_request pre = [ClientStart (Some e)]
       | None, [] =>
         ok = Some false
         /\ List.filter is_client_request pre = ClientStart None :: joining
       | None, _ :: _ =>
         ok = match run_end w with None => None | Some _ => Some false end
         /\ List.filter is_client_request pre
            = (ClientStart None :: joining ++ [OnNewMessage entities]
               ++ [RunUntilDisconnected (run_end w)])%list
         /\ channel_entities b = entities
       end.
Proof.
  intros Hacc Hcons.
  destruct (initialize_accepted w __init__ Hacc)
    as (cfg & vtr & cl & str & Hv & Hc & Hi).
  rewrite Hcons in Hi.
  exists cfg, vtr, cl, str.
  pose proof (initialization_quiet vtr str _ (init_quiet cfg (configure w)))
    as Hquiet.
  set (itr := (map Validation vtr ++ _)%list) in *.
  set (b1 := initialized w cfg cl __init__) in *.
  destruct (join_channels_eq w b1 cfg eq_refl) as (jtr & Hj & Hjr & Hjd).
  unfold start, try_finally, try_except.
  rewrite bot_bind_eq, Hi. cbn [negb].
  assert (Hitr : Forall (fun a => is_disconnect a = false) itr).
  { eapply Forall_impl; [exact Hquiet|]. by intros []. }
  apply filter_none in Hquiet.
  clearbody itr.
  unfold setup_message_handler, run_until_disconnected.
  unfold bind, emit, finish, modify, get, ret, raise; cbv beta iota.
  destruct (client_start w) as [e|] eqn:Hcs; cbv beta iota.
  - destruct (is_session_password_needed e), (client_disconnect w);
      cbn [client b1 initialized set_is_running set_message_processor set_client];
      cbv beta iota;
      eexists _, _, _; (split; [done|]); (split; [done|]);
      (split; [reflexivity|]); close_start.
  - rewrite Hj. cbv beta iota.
    destruct (resolved_from w 0 (ConfigValidator.channels cfg))
      as [|entity entities] eqn:Hents; cbv beta iota.
    + destruct (client_disconnect w);
        cbn [client b1 initialized set_is_running set_message_processor
             set_client set_channel_entities];
        cbv beta iota;
        eexists _, _, _; (split; [done|]); (split; [done|]);
        (split; [reflexivity|]); close_start.
    + destruct (run_end w) as [e|];
        [destruct (is_session_password_needed e)|];
        destruct (client_disconnect w);
        cbn [client b1 initialized set_is_running set_message_processor
             set_client set_channel_entities];
        cbv beta iota;
        eexists _, _, _; (split; [done|]); (split; [done|]);
        (split; [reflexivity|]); close_start.
Qed.

(** When the constructor of the client raises, [start] gives up before
    any request. *)
Lemma start_construct_failed (w : world) (e : exn) :
  accepts (environ w) = true -> construct_client w = Some e ->
  exists cfg vtr tr,
    ConfigValidator.validate_config (environ w) tt = (Return cfg, tt, vtr)
    /\ start w __init__
       = (Return (Some false),
          set_session_handler (Some cfg) (set_config (Some cfg) __init__), tr)
    /\ Forall (fun a => is_client_request a = false) tr
    /\ last tr = Some (Log INFO BotStopped).
Proof.
  intros Hacc Hcons.
  destruct (initialize_accepted w __init__ Hacc)
    as (cfg & vtr & cl & str & Hv & _ & Hi).
  rewrite Hcons in Hi.
  pose proof (initialization_quiet vtr str [Log ERROR (FailedToInitialize e)]
                ltac:(by repeat constructor)) as Hquiet.
  set (itr := (map Validation vtr ++ _)%list) in *. clearbody itr.
  exists cfg, vtr. eexists. split; [done|].
  unfold start, try_finally, try_except.
  rewrite bot_bind_eq, Hi. cbn [negb].
  unfold bind, emit, modify, get, ret; cbv beta iota.
  cbn [client set_is_running set_session_handler set_config __init__].
  cbv beta iota.
  split; [reflexivity|]. split.
  - rewrite !Forall_app. split; [split; [done|by repeat constructor]|].
    by repeat constructor.
  - cbn [app].
    change [Log INFO BotStopped] with ([] ++ [Log INFO BotStopped])%list at 1.
    by rewrite !app_assoc, last_snoc.
Qed.

Lemma start_rejected_eq (w : world) :
  accepts (environ w) = false ->
  exists msg,
    start w __init__
    = (Return (Some false), __init__,
       [Log ERROR (FailedToInitialize (ValueError msg));
        Log ERROR BotInitializationFailed; Log INFO BotStopped]).
Proof.
  intros Hacc. destruct (initialize_rejected w __init__ Hacc) as (msg & Hi).
  exists msg. unfold start, try_finally, try_except.
  rewrite bot_bind_eq, Hi. reflexivity.
Qed.

(** X25. With a configuration that is rejected, [start] gives up at
    once: it returns [False] after three records (the failure with its
    [ValueError], that initialization failed, that the bot stopped),
    asks nothing of the client, not even to disconnect, and leaves the
    bot as it was made. *)
Theorem start_rejected (w : world) :
  accepts (environ w) = false ->
  exists msg,
    start w __init__
    = (Return (Some false), __init__,
       [Log ERROR (FailedToInitialize (ValueError msg));
        Log ERROR BotInitializationFailed; Log INFO BotStopped])
    /\ ConfigValidator.validate_config (environ w) tt
       = (Raise (ValueError msg), tt, []).
Proof.
  intros Hacc. pose proof (validate_config_result (environ w)) as Hval.
  rewrite Hacc in Hval. destruct Hval as (msg & Hval).
  destruct (start_rejected_eq w Hacc) as (msg' & Hstart).
  exists msg. split; [|done].
  rewrite Hstart. unfold start, try_finally, try_except, initialize in Hstart.
  rewrite bot_bind_eq in Hstart. unfold try_except in Hstart.
  rewrite bot_bind_eq in Hstart.
  unfold component at 1 in Hstart. rewrite Hval in Hstart.
  by injection Hstart as <-.
Qed.

(** X26. With a configuration that is accepted, the requests [start]
    itself makes of the client come in a fixed order. If the constructor
    of the client raises, there is no client: nothing is asked, not even
    to disconnect, and [False] is returned. Otherwise the requests end
    with exactly one request to disconnect. The client is started first;
    if that fails nothing else is asked. Then come the requests about
    the channels; if no channel resolves nothing else is asked and
    [False] is returned. Otherwise the callback is registered for the
    entities that resolved and [start] waits for the disconnection; it
    then returns nothing if the wait ended well and [False] if it
    raised. Once the client exists [start] raises only what the request
    to disconnect raised, and whatever happened the bot ends up not
    running. What the callback does while [start] waits is not a step of
    [start]: each of its calls is a run of [message_handler]. *)
Theorem start_client_requests (w : world) :
  accepts (environ w) = true ->
  exists cfg vtr r b tr,
    ConfigValidator.validate_config (environ w) tt = (Return cfg, tt, vtr)
    /\ start w __init__ = (r, b, tr)
    /\ is_running b = false
    /\ match construct_client w with
       | Some _ =>
         r = Return (Some false) /\ client b = None
         /\ List.filter is_client_request tr = []
       | None =>
         (forall e, r = Raise e <-> client_disconnect w = Some e)
         /\ let entities := resolved_from w 0 (ConfigValidator.channels cfg) in
            let joining :=
              channel_requests w 0 (ConfigValidator.channels cfg) in
            List.filter is_client_request tr
            = (match client_start w, entities with
               | Some e, _ => [ClientStart (Some e)]
               | None, [] => ClientStart None :: joining
               | None, _ :: _ =>
                 ClientStart None :: joining ++ [OnNewMessage entities]
                 ++ [RunUntilDisconnected (run_end w)]
               end ++ [Disconnect (client_disconnect w)])%list
            /\ (r = Return None <->
                client_start w = None /\ entities <> [] /\ run_end w = None
                /\ client_disconnect w = None)
       end.
Proof.
  intros Hacc. destruct (construct_client w) as [e|] eqn:Hcons.
  { destruct (start_construct_failed w e Hacc Hcons)
      as (cfg & vtr & tr & Hv & Hstart & Hquiet & _).
    exists cfg, vtr. eexists _, _, tr. split; [done|]. split; [exact Hstart|].
    split; [done|]. split; [done|]. split; [done|].
    by apply filter_none. }
  destruct (start_accepted w Hacc Hcons)
    as (cfg & vtr & cl & str & ok & b & pre & Hv & _ & Hstart & Hpre & Hrun
        & _ & _ & Hcases).
  exists cfg, vtr. eexists _, b, _. split; [done|]. split; [exact Hstart|].
  split; [done|]. split.
  { intros e. destruct (client_disconnect w); split; congruence. }
  cbv zeta in *.
  assert (Htail : List.filter is_client_request
            (Disconnect (client_disconnect w)
             :: match client_disconnect w with
                | Some _ => []
                | None => [Log INFO BotStopped]
                end) = [Disconnect (client_disconnect w)]).
  { by destruct (client_disconnect w). }
  rewrite List.filter_app, Htail.
  destruct (client_start w) as [e|].
  - destruct Hcases as [-> ->]. split; [done|].
    destruct (client_disconnect w); split; try done; by intros (? & _).
  - destruct (resolved_from w 0 (ConfigValidator.channels cfg)) as [|ent ents].
    + destruct Hcases as [-> ->]. split; [done|].
      destruct (client_disconnect w); split; try done; by intros (_ & ? & _).
    + destruct Hcases as (-> & -> & Hents). split; [done|].
      destruct (client_disconnect w), (run_end w); split; try done;
        by intros (_ & _ & ? & ?).
Qed.

(** X27. [main] never raises. Once the client exists, the only exception
    that can leave [start] is one raised by the request to disconnect;
    [main] logs it and calls [stop], which does nothing since the bot is
    no longer running. So the client is asked to disconnect once when
    the configuration was accepted and the constructor of the client
    returned, and never otherwise (there is then no client to ask), and
    the bot ends up not running. *)
Theorem main_never_raises (w : world) :
  exists b tr,
    main w __init__ = (Return tt, b, tr)
    /\ is_running b = false
    /\ List.filter is_disconnect tr
       = match accepts (environ w), construct_client w with
         | true, None => [Disconnect (client_disconnect w)]
         | _, _ => []
         end
    /\ last tr
       = Some (match accepts (environ w), construct_client w,
                     client_disconnect w with
               | true, None, Some e => Log ERROR (UnexpectedErrorInMain e)
               | _, _, _ => Log INFO BotStopped
               end).
Proof.
  unfold main, try_except. rewrite bot_bind_eq.
  destruct (accepts (environ w)) eqn:Hacc.
  - destruct (construct_client w) as [e|] eqn:Hcons.
    { destruct (start_construct_failed w e Hacc Hcons)
        as (cfg & vtr & tr & _ & -> & Hquiet & Hlast).
      unfold ret. eexists _, _. split; [reflexivity|]. split; [done|].
      rewrite app_nil_r. split; [|done].
      apply filter_none. eapply Forall_impl; [exact Hquiet|]. by intros []. }
    destruct (start_accepted w Hacc Hcons)
      as (cfg & vtr & cl & str & ok & b & pre & _ & _ & -> & Hpre & Hrun
          & _ & Hcl & _).
    apply filter_none in Hpre.
    destruct (client_disconnect w) as [e|].
    + unfold stop. unfold bind, emit, get, ret. cbv beta iota. rewrite Hrun.
      eexists _, _. split; [reflexivity|]. split; [done|]. split.
      * rewrite !List.filter_app, Hpre. reflexivity.
      * cbn [app]. by rewrite last_snoc.
    + unfold ret. eexists _, _. split; [reflexivity|]. split; [done|]. split.
      * rewrite !List.filter_app, Hpre. reflexivity.
      * rewrite app_nil_r.
        change [Disconnect None; Log INFO BotStopped]
          with ([Disconnect None] ++ [Log INFO BotStopped])%list.
        by rewrite app_assoc, last_snoc.
  - destruct (start_rejected_eq w Hacc) as (msg & ->).
    unfold ret. eexists _, _. split; [reflexivity|]. split; [done|].
    split; [done|]. done.
Qed.

(** X28. [stop] disconnects at most once. It asks the client to
    disconnect only when the bot is running and has a client, and marks
    the bot as not running before it asks; so after it, however the
    request ended, another [stop] does nothing at all. *)
Theorem stop_once (w w' : world) (b : bot) :
  let out := stop w b in
  stop w' out.1.2 = (Return tt, out.1.2, [])
  /\ (length (List.filter is_disconnect out.2) <= 1)%nat
  /\ (List.filter is_disconnect out.2 <> [] ->
      is_running b = true /\ is_Some (client b)
      /\ is_running out.1.2 = false).
Proof.
  unfold stop, bind, get, modify, emit, finish, ret, raise.
  destruct (is_running b) eqn:Hrun;
    [|cbn; rewrite Hrun; split; [done|]; split; [lia | done]].
  destruct (client b) as [cl|] eqn:Hcl;
    [|cbn; rewrite Hrun, Hcl; split; [done|]; split; [lia | done]].
  destruct (client_disconnect w); cbn; (split; [done|]); (split; [lia|]);
    by eauto.
Qed.

End MainFacts.

(* ================================================================== *)
(** * More of the code on concrete inputs *)
(* ================================================================== *)

Section MoreRuns.
Import ConfigValidator SessionHandler MessageProcessor Runtime Samples.

Ltac holds := apply (bool_decide_unpack _); vm_compute; exact I.

Ltac fails :=
  let Hin := fresh in
  intros Hin; apply (bool_decide_pack _) in Hin; vm_compute in Hin; exact Hin.

Ltac in_list :=
  vm_compute;
  solve [repeat first [apply list_elem_of_here | apply list_elem_of_further]].

(** ** Configuration *)

Lemma validate_config_fields_witness :
  exists c tr,
    validate_config (H:=ascii_tables) proxied_environ tt = (Return c, tt, tr)
    /\ optional proxied_environ "API_HASH" = Some (api_hash c)
    /\ truthy (resume_filename c) = true.
Proof.
  eexists _, _. split; [vm_compute; reflexivity|].
  match goal with
  | |- context [api_hash ?c] =>
    pose proof (validate_config_fields (H:=ascii_tables) proxied_environ c _
                  ltac:(vm_compute; reflexivity)) as Hf
  end.
  split; [apply Hf | apply Hf].
Defined.

Lemma proxy_port_not_int_dropped_witness :
  accepts (H:=ascii_tables) bad_port_environ = true
  /\ optional bad_port_environ "PROXY_PORT" = Some (utf8 "10x80")
  /\ parse_int (Unicode:=ascii_tables) (utf8 "10x80") = None
  /\ exists c tr,
       validate_config (H:=ascii_tables) bad_port_environ tt = (Return c, tt, tr)
       /\ proxy_port c = None
       /\ (WARNING, InvalidOptionalType "PROXY_PORT" "int") ∈ tr.
Proof.
  assert (H1 : accepts (H:=ascii_tables) bad_port_environ = true)
    by (vm_compute; reflexivity).
  assert (H2 : optional bad_port_environ "PROXY_PORT" = Some (utf8 "10x80"))
    by (vm_compute; reflexivity).
  assert (H3 : parse_int (Unicode:=ascii_tables) (utf8 "10x80") = None)
    by (vm_compute; reflexivity).
  repeat (split; [done|]).
  exact (proxy_port_not_int_dropped (H:=ascii_tables) bad_port_environ
           (utf8 "10x80") H1 H2 H3).
Defined.

Lemma url_not_http_warned_witness :
  accepts (H:=ascii_tables) bare_link_environ = true
  /\ exists c tr,
       validate_config (H:=ascii_tables) bare_link_environ tt = (Return c, tt, tr)
       /\ portfolio_url c = utf8 "example.com/portfolio"
       /\ (WARNING, InvalidURLFormat "portfolio_url"
                      (utf8 "example.com/portfolio")) ∈ tr.
Proof.
  assert (H1 : accepts (H:=ascii_tables) bare_link_environ = true)
    by (vm_compute; reflexivity).
  split; [done|].
  destruct (url_not_http_warned (H:=ascii_tables) bare_link_environ H1)
    as (c & tr & Hrun & Hurl & _).
  exists c, tr. split; [done|].
  apply Hurl; vm_compute; reflexivity.
Defined.

Lemma validate_config_proxy_checked_witness :
  exists c tr,
    validate_config (H:=ascii_tables) proxied_environ tt = (Return c, tt, tr)
    /\ proxy_type c = Some (utf8 "SOCKS5")
    /\ supported_proxy_type (H:=ascii_tables) (utf8 "SOCKS5") = true.
Proof.
  eexists _, _. split; [vm_compute; reflexivity|].
  split; [vm_compute; reflexivity|].
  match goal with
  | |- _ =>
    refine (proj1 (proj1 (validate_config_proxy_checked (H:=ascii_tables)
                            proxied_environ _ _ ltac:(vm_compute; reflexivity))
                     (utf8 "SOCKS5") _))
  end.
  vm_compute. reflexivity.
Defined.

Lemma validated_proxy_tuple_witness :
  exists c tr,
    validate_config (H:=ascii_tables) proxied_environ tt = (Return c, tt, tr)
    /\ _get_proxy_config (H:=ascii_tables) c tt
       = (Return (Some (Proxy6 (utf8 "socks5") (utf8 "203.0.113.5") 1080 true
                          None None)), tt, [])
    /\ optional proxied_environ "PROXY_SERVER" = Some (utf8 "203.0.113.5")
    /\ (1 <= 1080 <= 65535)%Z.
Proof.
  eexists _, _. split; [vm_compute; reflexivity|].
  split; [vm_compute; reflexivity|].
  pose proof (validated_proxy_tuple (H:=ascii_tables) proxied_environ _ _
                (Proxy6 (utf8 "socks5") (utf8 "203.0.113.5") 1080 true
                   None None) []
                ltac:(vm_compute; reflexivity) ltac:(vm_compute; reflexivity))
    as (_ & Hsrv & _ & Hport & _).
  split; [exact Hsrv | exact Hport].
Defined.

(** ** Session *)

Lemma socks_http_proxy_tuple_witness :
  _get_proxy_config (H:=ascii_tables) (with_proxy (utf8 "HTTP") None) tt
  = (Return (Some (Proxy6 (lower (Unicode:=ascii_tables) (utf8 "HTTP"))
                     (utf8 "203.0.113.5") 443 true None None)), tt, []).
Proof.
  apply (socks_http_proxy_tuple (H:=ascii_tables)
           (with_proxy (utf8 "HTTP") None) (utf8 "HTTP") (utf8 "203.0.113.5")
           443); try reflexivity.
  right. vm_compute. reflexivity.
Defined.

Lemma mtproto_proxy_tuple_witness :
  _get_proxy_config (H:=ascii_tables)
    (with_proxy (utf8 "mtproto") (Some (utf8 "ee00ff10"))) tt
  = (Return (Some (Proxy3 (utf8 "203.0.113.5") 443 [238; 0; 255; 16]%N)),
     tt, []).
Proof.
  apply (mtproto_proxy_tuple (H:=ascii_tables)
           (with_proxy (utf8 "mtproto") (Some (utf8 "ee00ff10")))
           (utf8 "mtproto") (utf8 "203.0.113.5") (utf8 "ee00ff10") 443
           [238; 0; 255; 16]%N); vm_compute; reflexivity.
Defined.

Lemma mtproto_without_secret_no_proxy_witness :
  create_client (H:=ascii_tables) (with_proxy (utf8 "MTProto") None) None tt
  = (Return (client_without_proxy (with_proxy (utf8 "MTProto") None)), tt,
     [(ERROR, MTProtoRequiresProxySecret); (INFO, CreatingWithoutProxy)]).
Proof.
  refine (proj2 (mtproto_without_secret_no_proxy (H:=ascii_tables)
                   (with_proxy (utf8 "MTProto") None) (utf8 "MTProto")
                   _ _ _ _) None);
    vm_compute; reflexivity.
Defined.

(** ** Postings *)

Lemma process_message_requests_witness :
  exists text handle,
    answerable (H:=ascii_tables) fresh (posting_event 1) text handle
    /\ jane = handle
    /\ rate_limited fresh (now (calm 100)) handle = false.
Proof.
  destruct (process_message_requests (H:=ascii_tables) (H0:=by_value)
              (calm 100) (posting_event 1) fresh
              (GetEntity jane (Return (Entity 7)))
              ltac:(in_list) eq_refl)
    as (text & handle & Hans & Hh & Hrl).
  by exists text, handle.
Defined.

Lemma completion_returned_stripped_witness :
  generate_custom_message (padded 100) posting with_model
  = (Return (utf8 "Hello, I would like to apply."), with_model,
     [GenerateContent (prompt_for posting)
        (Return (utf8 "  Hello, I would like to apply.
"))]).
Proof.
  refine (proj1 (completion_returned_stripped (padded 100) posting
                   (utf8 "  Hello, I would like to apply.
") with_model _ eq_refl)).
  vm_compute. discriminate.
Defined.

Lemma cooldown_per_handle_witness :
  rate_limited
    (send_response_to_user (calm 100) jane _get_fallback_message fresh).1.2
    110 (utf8 "bob")
  = rate_limited fresh 110 (utf8 "bob").
Proof.
  refine (proj2 (cooldown_per_handle (calm 100) jane _get_fallback_message
                   (utf8 "bob") fresh 110 _)).
  vm_compute. discriminate.
Defined.

Lemma repost_within_cooldown_witness :
  let self2 :=
    (process_message (H:=ascii_tables) (H0:=by_value) (calm 100)
       (posting_event 1) fresh).1.2 in
  let out :=
    process_message (H:=ascii_tables) (H0:=by_value) (calm 110)
      (posting_event 2) self2 in
  out.1.2 = self2
  /\ last out.2 = Some (Log INFO (RateLimitingSkipping jane)).
Proof.
  intros self2 out.
  assert (Hnew1 : message_id (posting_event 1) ∉ processed_messages fresh)
    by fails.
  assert (Hnew2 : message_id (posting_event 2) ∉ processed_messages self2)
    by fails.
  assert (Hlen : (10 <= length (strip posting))%nat) by (vm_compute; lia).
  assert (Hkw : contains_ui_keywords (H:=ascii_tables) posting = true)
    by (vm_compute; reflexivity).
  assert (Hu : extract_username (H:=ascii_tables) posting = Some jane)
    by (vm_compute; reflexivity).
  destruct (repost_within_cooldown (H:=ascii_tables) (H0:=by_value)
              (calm 100) (posting_event 1) fresh posting jane []
              (calm 110) (posting_event 2) posting)
    as (Hst & _ & Hlast & _).
  - reflexivity.
  - by repeat split.
  - vm_compute. reflexivity.
  - by repeat split.
  - vm_compute. reflexivity.
  - by split.
Defined.

(** ** The bot *)

Lemma join_channels_resolved_witness :
  exists tr,
    Main.join_channels quiet_world
      (Main.set_config (Some example_config) Main.__init__)
    = (Return [Entity 0], Main.set_config (Some example_config) Main.__init__,
       tr)
    /\ List.filter is_client_request tr
       = [Main.JoinChannelRequest (utf8 "@design_jobs") None;
          Main.GetChannelEntity (utf8 "@design_jobs") (Return (Entity 0))].
Proof.
  exact (proj1 (join_channels_resolved quiet_world
                  (Main.set_config (Some example_config) Main.__init__)
                  example_config eq_refl)).
Defined.

Lemma start_rejected_witness :
  accepts (H:=ascii_tables) (Main.environ bare_world) = false
  /\ exists msg,
       Main.start (H:=ascii_tables) bare_world Main.__init__
       = (Return (Some false), Main.__init__,
          [Main.Log ERROR (Main.FailedToInitialize (ValueError msg));
           Main.Log ERROR Main.BotInitializationFailed;
           Main.Log INFO Main.BotStopped]).
Proof.
  assert (H1 : accepts (H:=ascii_tables) (Main.environ bare_world) = false)
    by (vm_compute; reflexivity).
  split; [done|].
  destruct (start_rejected (H:=ascii_tables) bare_world H1)
    as (msg & Hstart & _).
  by exists msg.
Defined.

Lemma start_client_requests_witness :
  accepts (H:=ascii_tables) (Main.environ quiet_world) = true
  /\ exists r b tr,
       Main.start (H:=ascii_tables) quiet_world Main.__init__
       = (r, b, tr)
       /\ Main.is_running b = false.
Proof.
  assert (H1 : accepts (H:=ascii_tables) (Main.environ quiet_world) = true)
    by (vm_compute; reflexivity).
  split; [done|].
  destruct (start_client_requests (H:=ascii_tables)
              quiet_world H1)
    as (cfg & vtr & r & b & tr & _ & Hstart & Hrun & _).
  by exists r, b, tr.
Defined.

(** The run of [quiet_world], request by request. *)
Example quiet_world_requests :
  List.filter is_client_request
    (Main.main (H:=ascii_tables) quiet_world Main.__init__).2
  = [Main.ClientStart None;
     Main.JoinChannelRequest (utf8 "@design_jobs") None;
     Main.GetChannelEntity (utf8 "@design_jobs") (Return (Entity 0));
     Main.JoinChannelRequest (utf8 "@ux_iran") None;
     Main.GetChannelEntity (utf8 "@ux_iran") (Return (Entity 1));
     Main.JoinChannelRequest (utf8 "freelance") None;
     Main.GetChannelEntity (utf8 "freelance") (Return (Entity 2));
     Main.OnNewMessage [Entity 0; Entity 1; Entity 2];
     Main.RunUntilDisconnected None;
     Main.Disconnect None].
Proof. vm_compute. reflexivity. Qed.

(** The run of [locked_world]: the constructor of the client raises, so
    there is no client and nothing is asked of one. *)
Example locked_world_run :
  let out :=
    Main.main (H:=ascii_tables) locked_world Main.__init__ in
  out.1.1 = Return tt
  /\ Main.client out.1.2 = None
  /\ List.filter is_client_request out.2 = []
  /\ Main.Log ERROR
       (Main.FailedToInitialize (OtherException "OperationalError")) ∈ out.2
  /\ last out.2 = Some (Main.Log INFO Main.BotStopped).
Proof.
  cbv zeta. split; [vm_compute; reflexivity|].
  split; [vm_compute; reflexivity|]. split; [vm_compute; reflexivity|].
  split; [in_list | vm_compute; reflexivity].
Qed.

End MoreRuns.
